(** * The Unix control socket of the emulator: model and verified properties

    Source: [src/unix/unix_control_socket.c].

    The development follows the source file from top to bottom: the C string
    primitives the file relies on, the quoted-path parser, the command
    dispatcher, the change-detection poller and the socket server; then the
    statements the specification makes about them, and their proofs. *)

From Stdlib Require Import ZArith Lia Bool Ascii String DecimalString.
From stdpp Require Import base tactics list.

Local Open Scope Z_scope.

(** ** Characters and C strings *)

Module CStr.

Definition NUL : ascii := "000"%char.
Definition LF : ascii := "010"%char.
Definition CR : ascii := "013"%char.
Definition SP : ascii := " "%char.
Definition DQUOTE : ascii := "034"%char.
Definition SQUOTE : ascii := "'"%char.

(** A one-character string, and the line terminator of every reply. *)
Definition chr (c : ascii) : string := String c EmptyString.
Definition nl : string := chr LF.

Definition code (c : ascii) : Z := Z.of_nat (nat_of_ascii c).

(** [strlen]: a [size_t]. *)
Definition strlen (s : string) : Z := Z.of_nat (String.length s).

(** [strdup(line)] copies up to the first NUL byte. *)
Fixpoint strdup (s : string) : string :=
  match s with
  | EmptyString => EmptyString
  | String c s' => if Ascii.eqb c NUL then EmptyString else String c (strdup s')
  end.

Fixpoint mem (c : ascii) (set : string) : bool :=
  match set with
  | EmptyString => false
  | String d set' => Ascii.eqb c d || mem c set'
  end.

(** [strcspn(s, reject)]: length of the longest prefix of [s] holding no
    character of [reject]. *)
Fixpoint strcspn (s reject : string) : nat :=
  match s with
  | EmptyString => O
  | String c s' => if mem c reject then O else S (strcspn s' reject)
  end.

(** [s[n] = 0]: the string cut at index [n] (no effect past the end). *)
Fixpoint cut (n : nat) (s : string) : string :=
  match n, s with
  | O, _ => EmptyString
  | _, EmptyString => EmptyString
  | S n', String c s' => String c (cut n' s')
  end.

(** [s + n]: the string from index [n] on. *)
Fixpoint advance (n : nat) (s : string) : string :=
  match n, s with
  | O, _ => s
  | _, EmptyString => EmptyString
  | S n', String _ s' => advance n' s'
  end.

Definition tolower (c : ascii) : ascii :=
  if (65 <=? code c) && (code c <=? 90)
  then ascii_of_nat (nat_of_ascii c + 32) else c.

Fixpoint lower (s : string) : string :=
  match s with
  | EmptyString => EmptyString
  | String c s' => String (tolower c) (lower s')
  end.

(** [strcasecmp]: difference of the first two characters that differ once
    lowered, 0 when there is none. *)
Fixpoint strcasecmp (a b : string) : Z :=
  match a, b with
  | EmptyString, EmptyString => 0
  | EmptyString, String d _ => - code (tolower d)
  | String c _, EmptyString => code (tolower c)
  | String c a', String d b' =>
      if Ascii.eqb (tolower c) (tolower d) then strcasecmp a' b'
      else code (tolower c) - code (tolower d)
  end.

Definition isspace (c : ascii) : bool :=
  Ascii.eqb c SP || ((9 <=? code c) && (code c <=? 13)).

Definition isdigit (c : ascii) : bool :=
  (48 <=? code c) && (code c <=? 57).

Fixpoint skip_space (s : string) : string :=
  match s with
  | String c s' => if isspace c then skip_space s' else s
  | EmptyString => EmptyString
  end.

Fixpoint digits_value (s : string) (acc : Z) : Z :=
  match s with
  | String c s' =>
      if isdigit c then digits_value s' (10 * acc + (code c - 48)) else acc
  | EmptyString => acc
  end.

(** Conversion to [int]: two's complement on 32 bits. *)
Definition wrap_int (z : Z) : Z := (z + 2 ^ 31) mod 2 ^ 32 - 2 ^ 31.

(** [strtol(s, NULL, 10)] with a [long] of 64 bits: optional white space,
    optional sign, decimal digits; anything else ends the number, and no
    digit at all gives 0.  A value outside the range of [long] is answered
    by [LONG_MIN] or [LONG_MAX]. *)
Definition clamp_long (z : Z) : Z := Z.max (- 2 ^ 63) (Z.min (2 ^ 63 - 1) z).

Definition strtol (s : string) : Z :=
  match skip_space s with
  | String "-"%char s' => clamp_long (- digits_value s' 0)
  | String "+"%char s' => clamp_long (digits_value s' 0)
  | s' => clamp_long (digits_value s' 0)
  end.

(** [atoi] is [(int) strtol(s, NULL, 10)]: the conversion to [int] keeps
    the low 32 bits of the [long]. *)
Definition atoi (s : string) : Z := wrap_int (strtol s).

(** Conversion to [uint8_t]. *)
Definition to_uint8 (z : Z) : Z := z mod 256.

(** [%d] and [%zu]. *)
Definition fmt_d (z : Z) : string := NilZero.string_of_int (Z.to_int z).

Definition hex_digit (z : Z) : ascii :=
  if z <? 10 then ascii_of_nat (Z.to_nat (48 + z))
  else ascii_of_nat (Z.to_nat (55 + z)).

Fixpoint hex_digits (n : nat) (z : Z) : string :=
  match n with
  | O => EmptyString
  | S n' => append (hex_digits n' (z / 16)) (chr (hex_digit (z mod 16)))
  end.

(** [%08X] of a 32-bit value. *)
Definition fmt_08X (z : Z) : string := hex_digits 8 z.

(** [snprintf(buf, size, ...)] keeps at most [size - 1] characters. *)
Definition snprintf (size : nat) (s : string) : string := cut (size - 1) s.

Definition is_quote (c : ascii) : bool :=
  Ascii.eqb c SQUOTE || Ascii.eqb c DQUOTE.

(** First and last character; NUL for the empty string (the terminator). *)
Definition first_char (s : string) : ascii :=
  match s with
  | EmptyString => NUL
  | String c _ => c
  end.

Fixpoint last_char (s : string) : ascii :=
  match s with
  | EmptyString => NUL
  | String c EmptyString => c
  | String _ s' => last_char s'
  end.

Fixpoint drop_last (s : string) : string :=
  match s with
  | EmptyString => EmptyString
  | String _ EmptyString => EmptyString
  | String c s' => String c (drop_last s')
  end.

(** Tokens joined with single spaces. *)
Fixpoint join (ws : list string) : string :=
  match ws with
  | [] => EmptyString
  | [w] => w
  | w :: ws' => append w (String SP (join ws'))
  end.

End CStr.

Import CStr.

(** ** Outcomes

    The C code reads and writes fixed-size buffers through computed indexes.
    An operation of the model that would leave its buffer does not return a
    value: it stops with a [fault]. *)

Inductive fault : Type :=
| OutOfBounds (index : Z)     (* a buffer read at an index outside it *)
| BufferOverflow (len : Z)    (* a write of [len] bytes that does not fit *)
| OutsideFrame (y k : Z).     (* a read of byte [k] of row [y] outside the frame buffer *)

Inductive outcome (A : Type) : Type :=
| Done (a : A)
| Fault (f : fault).

Arguments Done {A} a.
Arguments Fault {A} f.

Definition bind {A B : Type} (m : outcome A) (k : A -> outcome B) : outcome B :=
  match m with
  | Done a => k a
  | Fault f => Fault f
  end.

Notation "'let*' x ':=' m 'in' k" := (bind m (fun x => k))
  (at level 10, x name, m at level 100, k at level 200).

(** ** Constants of the build, and the state owned by the host *)

(** Limits taken from headers outside this file: [PATH_MAX] from
    [<limits.h>], the unit counts from the device headers. *)
Record platform : Type := {
  PATH_MAX : Z;
  FDD_NUM : Z;
  CDROM_NUM : Z;
  HDD_BUS_USB : Z;
  RDISK_NUM : Z;
  MO_NUM : Z;
  NET_CARD_MAX : Z;
  MONITORS_NUM : Z;
  VIDEO_FLAG_TYPE_NONE : Z;
  EMU_NAME : string;
  EMU_VERSION_FULL : string
}.

Definition CTRL_MAX_CLIENTS : Z := 8.
Definition CTRL_BUF_SIZE : Z := 4096.

(** One entry of [machine_status]. *)
Record dev_status : Type := {
  active : bool;
  write_active : bool;
  empty : bool
}.

#[export] Instance dev_status_inhabited : Inhabited dev_status :=
  populate {| active := false; write_active := false; empty := false |}.

Record machine_status_t : Type := {
  fdd : list dev_status;
  cdrom : list dev_status;
  hdd : list dev_status;
  rdisk : list dev_status;
  mo : list dev_status;
  net : list dev_status
}.

(** A frame buffer of [bm_w] pixels by [bm_h] rows (the fields [w] and [h]
    of [bitmap_t]), as the checksum and the dump read it: [line y k] is
    byte [k] of row [y], seen through the [const uint8_t *] cast (four
    bytes per pixel: blue, green, red, alpha). *)
Record bitmap_t : Type := {
  bm_w : Z;
  bm_h : Z;
  line : Z -> Z -> Z
}.

(** A read of byte [k] of [line[y]].  Outside the rows of the frame
    buffer, or outside the row, the read is outside the object and C gives
    it no value: the command stops there with a fault. *)
Definition bm_get (b : bitmap_t) (y k : Z) : outcome Z :=
  if (0 <=? y) && (y <? bm_h b) && (0 <=? k) && (k <? 4 * bm_w b)
  then Done (line b y k)
  else Fault (OutsideFrame y k).

(** The results of a sequence of operations, up to the first that does not
    return. *)
Fixpoint collect {A : Type} (ms : list (outcome A)) : outcome (list A) :=
  match ms with
  | [] => Done []
  | m :: ms' =>
      let* a := m in
      let* r := collect ms' in
      Done (a :: r)
  end.

Record monitor_t : Type := {
  video_type : Z;                     (* video_get_type_monitor *)
  blit_rect : Z * Z * Z * Z;          (* video_get_blit_rect: x, y, w, h *)
  target_buffer : option bitmap_t
}.

Record host : Type := {
  dopause : bool;
  paused_after : bool -> bool;        (* [dopause] once plat_pause(p) returned *)
  machine_status : machine_status_t;
  monitors : Z -> monitor_t
}.

(** What a command does that can be seen from outside: what it sends, and the
    operations of the host it calls. *)
Inductive action : Type :=
| Send (msg : string)
| SendBinary (data : list Z)
| Broadcast (msg : string)
| plat_pause (p : bool)
| pc_reset_hard
| plat_power_off
| plat_mouse_capture (on : bool)
| cdrom_mount (id : Z) (fn : string)
| floppy_mount (id : Z) (fn : string) (wp : option Z)
| floppy_eject (id : Z)
| mo_mount (id : Z) (fn : string) (wp : option Z)
| mo_eject (id : Z)
| rdisk_mount (id : Z) (fn : string) (wp : option Z)
| rdisk_eject (id : Z)
| cartridge_mount (id : Z) (fn : string) (wp : option Z)
| cartridge_eject (id : Z).

(** ** Push lines *)

Inductive dev_class : Type := Fdd | Cdrom | Hdd | Rdisk | Mo | Net.

#[export] Instance dev_class_eq_dec : EqDecision dev_class.
Proof. solve_decision. Defined.

Definition class_name (c : dev_class) : string :=
  match c with
  | Fdd => "fdd" | Cdrom => "cdrom" | Hdd => "hdd"
  | Rdisk => "rdisk" | Mo => "mo" | Net => "net"
  end.

(** [w ? "write" : a ? "read" : "idle"] *)
Definition led_state_name (a w : bool) : string :=
  if w then "write" else if a then "read" else "idle".

Inductive push_event : Type :=
| LedEvent (c : dev_class) (i : nat) (a w : bool)
| MediaEvent (c : dev_class) (i : nat) (e : bool).

(** The text of a push line, as the format strings lay it out: [!led],
    class, unit and state, or [!media], class, unit and [inserted] or
    [ejected], then a line feed. *)
Definition format_event (ev : push_event) : string :=
  match ev with
  | LedEvent c i a w =>
      append "!led " (append (class_name c) (append " "
        (append (fmt_d (Z.of_nat i)) (append " "
          (append (led_state_name a w) nl)))))
  | MediaEvent c i e =>
      append "!media " (append (class_name c) (append " "
        (append (fmt_d (Z.of_nat i)) (append " "
          (append (if e then "ejected" else "inserted")%string nl)))))
  end.

(** ** The path buffer [char fn[PATH_MAX]]

    The dispatcher clears the buffer ([memset]) before use and only ever
    appends to it or cuts its last character, so the buffer is the C string
    it holds followed by zero bytes. *)

Section PathBuffer.

Variable P : platform.

(** [a - b] on [size_t] (64 bits). *)
Definition size_sub (a b : Z) : Z := (a - b) mod 2 ^ 64.

(** [fn[i]] *)
Definition fn_get (fn : string) (i : Z) : outcome ascii :=
  if (0 <=? i) && (i <? PATH_MAX P)
  then Done (match String.get (Z.to_nat i) fn with Some c => c | None => NUL end)
  else Fault (OutOfBounds i).

(** The test on [fn[strlen(fn) - 1]]: is the last character of the path a
    single or a double quote? *)
Definition ends_in_quote (fn : string) : outcome bool :=
  let* c := fn_get fn (size_sub (strlen fn) 1) in
  Done (is_quote c).

(** [strcat(fn, s)]: writes [strlen(fn) + strlen(s) + 1] bytes from the
    start of the buffer. *)
Definition fn_strcat (fn s : string) : outcome string :=
  if strlen fn + strlen s + 1 <=? PATH_MAX P
  then Done (append fn s)
  else Fault (BufferOverflow (strlen fn + strlen s + 1)).

(** The path with a closing quote cut: when [fn[strlen(fn) - 1]] is a
    quote, a zero byte is written over it. *)
Definition strip_quote (fn : string) : outcome string :=
  let* q := ends_in_quote fn in
  Done (if q then drop_last fn else fn).

(** *** [ctrl_process_media_commands_3] (lines 138-174) *)

(** What the parser leaves in [*id], [fn], [*wp], and the flag it returns.
    [*wp] is written on some paths only: [None] is the caller's
    uninitialised variable. *)
Record media_args : Type := {
  m_err : bool;
  m_id : Z;
  m_fn : string;
  m_wp : option Z
}.

(** [xargv[curarg] + q], where [q] is 1 when [xargv[curarg][0]] is a quote
    and 0 otherwise. *)
Definition skip_quote (tok : string) : string :=
  if is_quote (first_char tok) then advance 1 tok else tok.

(** The [for] loop of the quoted branch; [toks] is [xargv[curarg]] and the
    tokens after it, up to [cmdargc]. *)
Fixpoint quoted_loop (toks : list string) (fn : string) (err : bool)
  : outcome (bool * string * option Z) :=
  match toks with
  | [] => Done (err, fn, None)
  | tok :: rest =>
      let err := err || (PATH_MAX P <=? strlen fn + strlen tok) in
      let* fn := fn_strcat fn (skip_quote tok) in
      let* q := ends_in_quote fn in
      if q then
        Done (err, fn,
              match rest with
              | next :: _ => Some (to_uint8 (atoi next))
              | [] => None
              end)
      else
        let* fn := fn_strcat fn (chr SP) in
        quoted_loop rest fn err
  end.

Definition ctrl_process_media_commands_3 (xargv : list string)
  : outcome media_args :=
  let id := to_uint8 (atoi (nth 1 xargv EmptyString)) in
  let x2 := nth 2 xargv EmptyString in
  let* r :=
    if is_quote (first_char x2) then quoted_loop (drop 2 xargv) EmptyString false
    else if strlen x2 <? PATH_MAX P
         then Done (false, x2, Some (to_uint8 (atoi (nth 3 xargv EmptyString))))
         else Done (true, EmptyString, None) in
  let '(err, fn, wp) := r in
  let* fn := strip_quote fn in
  Done {| m_err := err; m_id := id; m_fn := fn; m_wp := wp |}.

(** *** The path of [cdload] (lines 394-404)

    [toks] is [xargv[i]] and the tokens after it; [first] is [i == 2].
    [None] is the reply [ERR path too long]. *)
Fixpoint cd_path (toks : list string) (first : bool) (fn : string)
  : outcome (option string) :=
  match toks with
  | [] => Done (Some fn)
  | tok :: rest =>
      if PATH_MAX P <=? strlen fn + strlen tok + 1 then Done None
      else
        let* fn := if first then Done fn else fn_strcat fn (chr SP) in
        let* fn := fn_strcat fn tok in
        cd_path rest false fn
  end.

End PathBuffer.

(** ** Tokens *)

(** [ctrl_strsep(&str, sep)]: the token returned and the new value of [*str]
    ([None] is the null pointer). *)
Definition ctrl_strsep (str : option string) (sep : string)
  : option string * option string :=
  match str with
  | None => (None, None)
  | Some s =>
      let n := strcspn s sep in
      match advance n s with
      | EmptyString => (Some s, None)
      | String _ rest => (Some (cut n s), Some rest)
      end
  end.

(** The loop that fills [xargv] (lines 348-354), with [slots] entries of the
    array still free.  The result is [xargv[0 .. cmdargc-1]]: the token that
    takes the last entry makes [cmdargc] reach 512, the loop stops and
    [cmdargc--] leaves that token out. *)
Fixpoint split_args (slots : nat) (linespn : option string) : list string :=
  match slots with
  | O => []
  | S slots' =>
      match ctrl_strsep linespn (chr SP) with
      | (None, _) => []
      | (Some tok, rest) =>
          match slots' with
          | O => []
          | _ => tok :: split_args slots' rest
          end
      end
  end.

Definition XARGV_SIZE : nat := 512.

(** ** [ctrl_send_status] and [ctrl_handle_command] (lines 251-701) *)

Section Dispatcher.

Variable P : platform.
Variable H : host.

Definition reply (text : string) : action := Send (append text nl).

(** ["OK %s %d loaded\n"] and ["OK %s %d ejected\n"] through [snprintf]
    into a buffer of [size] bytes. *)
Definition ok_reply (size : Z) (cls : string) (id : Z) (what : string)
  : action :=
  Send (snprintf (Z.to_nat size)
          (append "OK " (append cls (append " " (append (fmt_d id)
            (append " " (append what nl))))))).

(** One loop of [ctrl_send_status]: the LED line of each unit, and its
    media line for the classes that have one, each through [snprintf] into
    [char line[256]]. *)
Definition status_class (c : dev_class) (media : bool) (n : Z)
    (tbl : list dev_status) : list action :=
  flat_map
    (fun i =>
       let s := tbl !!! i in
       Send (snprintf 256 (format_event (LedEvent c i (active s) (write_active s))))
     :: (if media
         then [Send (snprintf 256 (format_event (MediaEvent c i (empty s))))]
         else []))
    (seq 0 (Z.to_nat n)).

Definition ctrl_send_status : list action :=
  let ms := machine_status H in
  status_class Fdd true (FDD_NUM P) (fdd ms)
  ++ status_class Cdrom true (CDROM_NUM P) (cdrom ms)
  ++ status_class Hdd false (HDD_BUS_USB P) (hdd ms)
  ++ status_class Rdisk true (RDISK_NUM P) (rdisk ms)
  ++ status_class Mo true (MO_NUM P) (mo ms)
  ++ status_class Net false (NET_CARD_MAX P) (net ms)
  ++ [Send (snprintf 256
              (append "!paused " (append (if dopause H then "1" else "0")%string nl)))].

(** [xargv[i]]; the entries from [cmdargc] on are null pointers. *)
Definition arg (xargv : list string) (i : nat) : string :=
  nth i xargv EmptyString.

Definition is_null (xargv : list string) (i : nat) : bool :=
  (length xargv <=? i)%nat.

Definition cmd_is (xargv : list string) (name : string) : bool :=
  strcasecmp (arg xargv 0) name =? 0.

(** [cdload] (lines 377-409) *)
Definition do_cdload (xargv : list string) : outcome (list action) :=
  if is_null xargv 1 || is_null xargv 2 then Done [reply "ERR missing arguments"]
  else
    let id := to_uint8 (atoi (arg xargv 1)) in
    if CDROM_NUM P <=? id then Done [reply "ERR invalid drive id"]
    else
      let* r := cd_path P (drop 2 xargv) true EmptyString in
      match r with
      | None => Done [reply "ERR path too long"]
      | Some fn =>
          Done [cdrom_mount id fn; ok_reply (PATH_MAX P + 64) "cdrom" id "loaded"]
      end.

(** The four load commands that take a write-protect flag (lines 421-444,
    456-479, 491-514, 526-549): the same code, up to the unit count, the
    operation called and the name in the reply. *)
Definition do_load3 (units : Z) (mount : Z -> string -> option Z -> action)
    (cls : string) (xargv : list string) : outcome (list action) :=
  if is_null xargv 1 || is_null xargv 2 then Done [reply "ERR missing arguments"]
  else
    let* r := ctrl_process_media_commands_3 P xargv in
    if m_err r || (units <=? m_id r) then Done [reply "ERR invalid arguments"]
    else
      let* fn := strip_quote P (m_fn r) in
      Done [mount (m_id r) fn (m_wp r);
            ok_reply (PATH_MAX P + 64) cls (m_id r) "loaded"].

(** The eject commands (lines 410-420, 445-455, 480-490, 515-525,
    550-560). *)
Definition do_eject (units : Z) (eject : Z -> action) (cls : string)
    (xargv : list string) : outcome (list action) :=
  let id := to_uint8 (atoi (arg xargv 1)) in
  if units <=? id then Done [reply "ERR invalid drive id"]
  else Done [eject id; ok_reply 64 cls id "ejected"].

(** The checks [screenshot] and [screencrc] share (lines 564-586 and
    600-622): the visible rectangle and the frame buffer, or the error
    reply. *)
Definition resolve_monitor (xargv : list string)
  : string + (Z * Z * Z * Z * bitmap_t) :=
  let mon_idx := if (2 <=? length xargv)%nat then atoi (arg xargv 1) else 0 in
  if (mon_idx <? 0) || (MONITORS_NUM P <=? mon_idx)
  then inl "ERR invalid monitor index"%string
  else
    let m := monitors H mon_idx in
    if video_type m =? VIDEO_FLAG_TYPE_NONE P
    then inl "ERR monitor not active"%string
    else
      let '(bx, by_, bw, bh) := blit_rect m in
      match target_buffer m with
      | Some b =>
          if (bw <=? 0) || (bh <=? 0)
          then inl "ERR no framebuffer available"%string
          else inr (bx, by_, bw, bh, b)
      | None => inl "ERR no framebuffer available"%string
      end.

(** The [bw * 4] bytes from [&line[y][bx]] that one call of
    [ctrl_send_binary] is given. *)
Definition frame_row (b : bitmap_t) (y bx bw : Z) : outcome (list Z) :=
  collect (map (fun k => bm_get b y (4 * bx + k)) (seqZ 0 (bw * 4))).

(** [screenshot] (lines 588-596): the header, then the rows from [by] up to
    [by + bh], a sum of [int]. *)
Definition do_screenshot (xargv : list string) : outcome (list action) :=
  match resolve_monitor xargv with
  | inl e => Done [reply e]
  | inr (bx, by_, bw, bh, b) =>
      let* rows :=
        collect (map (fun y => frame_row b y bx bw)
                     (seqZ by_ (wrap_int (by_ + bh) - by_))) in
      Done (Send (snprintf 128
                    (append "OK " (append (fmt_d bw) (append " " (append (fmt_d bh)
                       (append " " (append (fmt_d (bw * bh * 4)) nl)))))))
            :: map SendBinary rows)
  end.

(** The region of [screencrc] (lines 624-646), relative to the visible
    rectangle; [None] is the reply [ERR region out of bounds].  Sums and
    differences are those of [int]. *)
Definition clamp_region (xargv : list string) (bw bh : Z)
  : option (Z * Z * Z * Z) :=
  let '(rx, ry, rw, rh) :=
    if (6 <=? length xargv)%nat
    then (atoi (arg xargv 2), atoi (arg xargv 3),
          atoi (arg xargv 4), atoi (arg xargv 5))
    else (0, 0, bw, bh) in
  let rx := if rx <? 0 then 0 else rx in
  let ry := if ry <? 0 then 0 else ry in
  let rw := if bw <? wrap_int (rx + rw) then wrap_int (bw - rx) else rw in
  let rh := if bh <? wrap_int (ry + rh) then wrap_int (bh - ry) else rh in
  if (rw <=? 0) || (rh <=? 0) then None else Some (rx, ry, rw, rh).

(** The checksum loops (lines 648-660).  [crc] is a [uint32_t]. *)
Definition neg_u32 (z : Z) : Z := (- z) mod 2 ^ 32.

(** [crc = (crc >> 1) ^ ((-(crc & 1)) & 0xEDB88320)] *)
Definition crc_shift (crc : Z) : Z :=
  Z.lxor (Z.shiftr crc 1) (Z.land (neg_u32 (Z.land crc 1)) 0xEDB88320).

(** [crc ^= row[x * 4 + c]], then the eight shifts. *)
Definition crc_byte (crc b : Z) : Z :=
  Nat.iter 8 crc_shift (Z.lxor crc b).

(** The loops over [x] and [c] for one row [y]; [row] points at byte
    [base] of the row, and [row[x * 4 + c]], its index a sum of [int], is
    read for each byte. *)
Definition crc_row (b : bitmap_t) (y base rw : Z) (crc : outcome Z)
  : outcome Z :=
  fold_left
    (fun crc x =>
       fold_left
         (fun crc c =>
            let* acc := crc in
            let* v := bm_get b y (base + wrap_int (x * 4 + c)) in
            Done (crc_byte acc v))
         (seqZ 0 3) crc)
    (seqZ 0 rw) crc.

(** The loop over the rows, from [by + ry] up to [by + ry + rh], and the
    final XOR; [row] is [&line[y][bx + rx]].  The sums are those of
    [int]. *)
Definition crc_region (b : bitmap_t) (bx by_ rx ry rw rh : Z) : outcome Z :=
  let y0 := wrap_int (by_ + ry) in
  let y1 := wrap_int (y0 + rh) in
  let base := 4 * wrap_int (bx + rx) in
  let* crc :=
    fold_left (fun crc y => crc_row b y base rw crc)
              (seqZ y0 (y1 - y0)) (Done 0xFFFFFFFF) in
  Done (Z.lxor crc 0xFFFFFFFF).

(** [screencrc] (lines 597-664) *)
Definition do_screencrc (xargv : list string) : outcome (list action) :=
  match resolve_monitor xargv with
  | inl e => Done [reply e]
  | inr (bx, by_, bw, bh, b) =>
      match clamp_region xargv bw bh with
      | None => Done [reply "ERR region out of bounds"]
      | Some (rx, ry, rw, rh) =>
          let* crc := crc_region b bx by_ rx ry rw rh in
          Done [Send (snprintf 128
                  (append "OK " (append (fmt_08X crc)
                     (append " " (append (fmt_d bw) (append " "
                        (append (fmt_d bh) nl)))))))]
      end
  end.

(** The text of [help]: one string, a line feed after each line but the
    last (which [reply] adds). *)
Definition help_text : string :=
  String.concat nl
    [ "Commands:";
      "  cdload <id> <path>         - mount CD-ROM image";
      "  fddload <id> <path> <wp>   - mount floppy (wp=0|1)";
      "  moload <id> <path> <wp>    - mount MO image";
      "  rdiskload <id> <path> <wp> - mount removable disk";
      "  cartload <id> <path> <wp>  - mount cartridge";
      "  cdeject <id>               - eject CD-ROM";
      "  fddeject <id>              - eject floppy";
      "  moeject <id>               - eject MO";
      "  rdiskeject <id>            - eject removable disk";
      "  carteject <id>             - eject cartridge";
      "  pause                      - toggle pause";
      "  hardreset                  - hard reset";
      "  status                     - query all LED/media state";
      "  screenshot [monitor]       - raw BGRA framebuffer dump";
      "  screencrc [mon [x y w h]]  - CRC-32 of screen region";
      "  mousecapture               - capture mouse";
      "  mouserelease               - release mouse";
      "  version                    - print version";
      "  exit                       - exit emulator";
      "OK" ]%string.

(** The chain of comparisons on [xargv[0]] (lines 356-698); [xargv] holds
    the [cmdargc] tokens of the line. *)
Definition dispatch (xargv : list string) : outcome (list action) :=
  let cmdargc := length xargv in
  if cmd_is xargv "status" then
    Done (ctrl_send_status ++ [reply "OK"])
  else if cmd_is xargv "pause" then
    let d := paused_after H (xorb (dopause H) true) in
    Done [plat_pause (xorb (dopause H) true);
          Send (snprintf 64 (append "OK " (append (if d then "paused" else "unpaused")%string nl)));
          Broadcast (snprintf 64 (append "!paused " (append (if d then "1" else "0")%string nl)))]
  else if cmd_is xargv "hardreset" then
    Done [pc_reset_hard; reply "OK hard reset"]
  else if cmd_is xargv "exit" then
    Done [reply "OK exiting"; plat_power_off]
  else if cmd_is xargv "version" then
    Done [Send (snprintf 256 (append "OK " (append (EMU_NAME P) (append " "
                  (append (EMU_VERSION_FULL P) nl)))))]
  else if cmd_is xargv "cdload" && (3 <=? cmdargc)%nat then
    do_cdload xargv
  else if cmd_is xargv "cdeject" && (2 <=? cmdargc)%nat then
    do_eject (CDROM_NUM P) (fun id => cdrom_mount id EmptyString) "cdrom" xargv
  else if cmd_is xargv "fddload" && (4 <=? cmdargc)%nat then
    do_load3 (FDD_NUM P) floppy_mount "fdd" xargv
  else if cmd_is xargv "fddeject" && (2 <=? cmdargc)%nat then
    do_eject (FDD_NUM P) floppy_eject "fdd" xargv
  else if cmd_is xargv "moload" && (4 <=? cmdargc)%nat then
    do_load3 (MO_NUM P) mo_mount "mo" xargv
  else if cmd_is xargv "moeject" && (2 <=? cmdargc)%nat then
    do_eject (MO_NUM P) mo_eject "mo" xargv
  else if cmd_is xargv "rdiskload" && (4 <=? cmdargc)%nat then
    do_load3 (RDISK_NUM P) rdisk_mount "rdisk" xargv
  else if cmd_is xargv "rdiskeject" && (2 <=? cmdargc)%nat then
    do_eject (RDISK_NUM P) rdisk_eject "rdisk" xargv
  else if cmd_is xargv "cartload" && (4 <=? cmdargc)%nat then
    do_load3 2 cartridge_mount "cartridge" xargv
  else if cmd_is xargv "carteject" && (2 <=? cmdargc)%nat then
    do_eject 2 cartridge_eject "cartridge" xargv
  else if cmd_is xargv "screenshot" then
    do_screenshot xargv
  else if cmd_is xargv "screencrc" then
    do_screencrc xargv
  else if cmd_is xargv "mousecapture" then
    Done [plat_mouse_capture true; reply "OK mouse captured"]
  else if cmd_is xargv "mouserelease" then
    Done [plat_mouse_capture false; reply "OK mouse released"]
  else if cmd_is xargv "help" then
    Done [reply help_text]
  else
    Done [Send (snprintf 128 (append "ERR unknown command: "
                                (append (arg xargv 0) nl)))].

(** [ctrl_handle_command(client, line)]: the copy of the line ([strdup],
    assumed to succeed) is cut at the first CR or LF; an empty line is
    skipped; otherwise the line is split at single spaces and dispatched. *)
Definition ctrl_handle_command (line : string) : outcome (list action) :=
  let linecpy := strdup line in
  let linecpy := cut (strcspn linecpy (String CR (chr LF))) linecpy in
  match linecpy with
  | EmptyString => Done []
  | _ => dispatch (split_args XARGV_SIZE (Some linecpy))
  end.

End Dispatcher.

(** ** [ctrl_led_poll_thread] (lines 727-888) *)

(** [led_state_t]: the LED flags the poller remembers for one unit. *)
Record led_state_t : Type := {
  led_active : bool;
  led_write_active : bool
}.

#[export] Instance led_state_inhabited : Inhabited led_state_t :=
  populate {| led_active := false; led_write_active := false |}.

(** The static [prev_*] arrays. *)
Record snapshot : Type := {
  prev_fdd : list led_state_t;
  prev_cdrom : list led_state_t;
  prev_hdd : list led_state_t;
  prev_rdisk : list led_state_t;
  prev_mo : list led_state_t;
  prev_net : list led_state_t;
  prev_fdd_empty : list bool;
  prev_cdrom_empty : list bool;
  prev_rdisk_empty : list bool;
  prev_mo_empty : list bool
}.

Definition led_of (s : dev_status) : led_state_t :=
  {| led_active := active s; led_write_active := write_active s |}.

(** [a != prev[i].active || w != prev[i].write_active] *)
Definition led_differs (s : dev_status) (p : led_state_t) : bool :=
  negb (eqb (active s) (led_active p))
  || negb (eqb (write_active s) (led_write_active p)).

(** The first [if] of a loop body: the LED line and the update of
    [prev[i]]. *)
Definition check_led (c : dev_class) (i : nat) (s : dev_status)
    (prev : list led_state_t) : list push_event * list led_state_t :=
  if led_differs s (prev !!! i)
  then ([LedEvent c i (active s) (write_active s)], <[i := led_of s]> prev)
  else ([], prev).

(** The second [if]: the media line and the update of [prev_empty[i]]. *)
Definition check_media (c : dev_class) (i : nat) (s : dev_status)
    (prev_empty : list bool) : list push_event * list bool :=
  if negb (eqb (empty s) (prev_empty !!! i))
  then ([MediaEvent c i (empty s)], <[i := empty s]> prev_empty)
  else ([], prev_empty).

(** A loop over the units of a class with media (floppy, CD-ROM, removable
    disk, MO): the lines broadcast, in order, and the arrays afterwards. *)
Definition poll_led_media (c : dev_class) (tbl : list dev_status) (n : Z)
    (prev : list led_state_t) (prev_empty : list bool)
  : list push_event * list led_state_t * list bool :=
  fold_left
    (fun '(evs, prev, prev_empty) i =>
       let s := tbl !!! i in
       let '(e1, prev) := check_led c i s prev in
       let '(e2, prev_empty) := check_media c i s prev_empty in
       (evs ++ e1 ++ e2, prev, prev_empty))
    (seq 0 (Z.to_nat n)) ([], prev, prev_empty).

(** A loop over the units of a class without media (hard disks, network). *)
Definition poll_led (c : dev_class) (tbl : list dev_status) (n : Z)
    (prev : list led_state_t) : list push_event * list led_state_t :=
  fold_left
    (fun '(evs, prev) i =>
       let '(e1, prev) := check_led c i (tbl !!! i) prev in
       (evs ++ e1, prev))
    (seq 0 (Z.to_nat n)) ([], prev).

Section Poller.

Variable P : platform.

(** The loops before [while] (lines 734-762). *)
Definition init_leds (tbl : list dev_status) (n : Z) : list led_state_t :=
  map (fun i => led_of (tbl !!! i)) (seq 0 (Z.to_nat n)).

Definition init_empty (tbl : list dev_status) (n : Z) : list bool :=
  map (fun i => empty (tbl !!! i)) (seq 0 (Z.to_nat n)).

Definition poll_init (ms : machine_status_t) : snapshot :=
  {| prev_fdd := init_leds (fdd ms) (FDD_NUM P);
     prev_cdrom := init_leds (cdrom ms) (CDROM_NUM P);
     prev_hdd := init_leds (hdd ms) (HDD_BUS_USB P);
     prev_rdisk := init_leds (rdisk ms) (RDISK_NUM P);
     prev_mo := init_leds (mo ms) (MO_NUM P);
     prev_net := init_leds (net ms) (NET_CARD_MAX P);
     prev_fdd_empty := init_empty (fdd ms) (FDD_NUM P);
     prev_cdrom_empty := init_empty (cdrom ms) (CDROM_NUM P);
     prev_rdisk_empty := init_empty (rdisk ms) (RDISK_NUM P);
     prev_mo_empty := init_empty (mo ms) (MO_NUM P) |}.

(** One turn of the [while] loop after the delay (lines 767-886), with
    [ctrl_num_clients] and [machine_status] as the thread reads them: the
    lines passed to [ctrl_broadcast], in order, and the arrays afterwards. *)
Definition poll_events (ctrl_num_clients : Z) (ms : machine_status_t)
    (s : snapshot) : list push_event * snapshot :=
  if ctrl_num_clients =? 0 then ([], s)
  else
    let '(e_fdd, p_fdd, pe_fdd) :=
      poll_led_media Fdd (fdd ms) (FDD_NUM P) (prev_fdd s) (prev_fdd_empty s) in
    let '(e_cdrom, p_cdrom, pe_cdrom) :=
      poll_led_media Cdrom (cdrom ms) (CDROM_NUM P) (prev_cdrom s) (prev_cdrom_empty s) in
    let '(e_hdd, p_hdd) :=
      poll_led Hdd (hdd ms) (HDD_BUS_USB P) (prev_hdd s) in
    let '(e_rdisk, p_rdisk, pe_rdisk) :=
      poll_led_media Rdisk (rdisk ms) (RDISK_NUM P) (prev_rdisk s) (prev_rdisk_empty s) in
    let '(e_mo, p_mo, pe_mo) :=
      poll_led_media Mo (mo ms) (MO_NUM P) (prev_mo s) (prev_mo_empty s) in
    let '(e_net, p_net) :=
      poll_led Net (net ms) (NET_CARD_MAX P) (prev_net s) in
    (e_fdd ++ e_cdrom ++ e_hdd ++ e_rdisk ++ e_mo ++ e_net,
     {| prev_fdd := p_fdd; prev_cdrom := p_cdrom; prev_hdd := p_hdd;
        prev_rdisk := p_rdisk; prev_mo := p_mo; prev_net := p_net;
        prev_fdd_empty := pe_fdd; prev_cdrom_empty := pe_cdrom;
        prev_rdisk_empty := pe_rdisk; prev_mo_empty := pe_mo |}).

(** The same turn, as the calls it makes: each line goes through [snprintf]
    into [char line[128]] and then to [ctrl_broadcast]. *)
Definition broadcast_event (ev : push_event) : action :=
  Broadcast (snprintf 128 (format_event ev)).

Definition poll_tick (ctrl_num_clients : Z) (ms : machine_status_t)
    (s : snapshot) : list action * snapshot :=
  let '(evs, s') := poll_events ctrl_num_clients ms s in
  (map broadcast_event evs, s').

(** The [while (ctrl_running)] loop: one turn for each wake-up, given the
    number of sessions and the status table the thread finds then. *)
Fixpoint poll_run (wakeups : list (Z * machine_status_t)) (s : snapshot)
  : list action * snapshot :=
  match wakeups with
  | [] => ([], s)
  | (n, ms) :: rest =>
      let '(sent, s1) := poll_tick n ms s in
      let '(sent', s2) := poll_run rest s1 in
      (sent ++ sent', s2)
  end.

End Poller.

(** ** [ctrl_server_thread] (lines 893-996) *)

(** [ctrl_client_t]; [buf_len] is the length of [buf]. *)
Record ctrl_client_t : Type := {
  fd : Z;
  buf : list ascii
}.

Definition buf_len (c : ctrl_client_t) : Z := Z.of_nat (length (buf c)).

(** What the server thread does on the sockets, and the lines it hands to
    [ctrl_handle_command]. *)
Inductive sys_event : Type :=
| SysWrite (fd : Z) (msg : string)
| SysClose (fd : Z)
| SysNonBlocking (fd : Z)
| HandleCommand (fd : Z) (line : string).

(** The branch taken when the listening socket is readable (lines 927-947);
    [client_fd] is the result of [accept].  [F_GETFL] is taken to succeed. *)
Definition ctrl_accept (client_fd : Z) (ctrl_clients : list ctrl_client_t)
  : list sys_event * list ctrl_client_t :=
  if client_fd <? 0 then ([], ctrl_clients)
  else if CTRL_MAX_CLIENTS <=? Z.of_nat (length ctrl_clients)
  then ([SysWrite client_fd (append "ERR too many clients" nl);
         SysClose client_fd], ctrl_clients)
  else ([SysNonBlocking client_fd],
        ctrl_clients ++ [{| fd := client_fd; buf := [] |}]).

(** [strchr(start, '\n')] on the buffer, which ends with a zero byte: the
    offset of the first line feed that no zero byte precedes. *)
Fixpoint strchr_lf (start : list ascii) : option nat :=
  match start with
  | [] => None
  | c :: rest =>
      if Ascii.eqb c LF then Some O
      else if Ascii.eqb c NUL then None
      else option_map S (strchr_lf rest)
  end.

(** The [while] loop over complete lines (lines 975-985): the lines handed
    to [ctrl_handle_command] and what is left from [start] on.  Every turn
    moves [start] past a line feed, so as many turns as the buffer has bytes
    are enough. *)
Fixpoint lines_loop (turns : nat) (start : list ascii)
  : list string * list ascii :=
  match turns with
  | O => ([], start)
  | S turns' =>
      match strchr_lf start with
      | None => ([], start)
      | Some k =>
          let '(ls, rest) := lines_loop turns' (drop (S k) start) in
          (string_of_list_ascii (take k start) :: ls, rest)
      end
  end.

Definition process_lines (b : list ascii) : list string * list ascii :=
  lines_loop (length b) b.

(** The body of the loop over the clients for one readable client (lines
    954-993).  [offered] is what the peer has sent and the kernel has not
    yet delivered (nothing: end of stream or error); [read] stores at most
    [space] bytes of it.  The result is the lines handed to
    [ctrl_handle_command] and the client afterwards, or [None] when the
    client is to be removed. *)
Definition serve_client (c : ctrl_client_t) (offered : list ascii)
  : list string * option ctrl_client_t :=
  let space := CTRL_BUF_SIZE - buf_len c - 1 in
  if space <=? 0 then ([], None)
  else
    match take (Z.to_nat space) offered with
    | [] => ([], None)
    | data =>
        let '(ls, rest) := process_lines (buf c ++ data) in
        (ls, Some {| fd := fd c; buf := rest |})
    end.

#[export] Instance ctrl_client_inhabited : Inhabited ctrl_client_t :=
  populate {| fd := -1; buf := [] |}.

(** [ctrl_remove_client(idx)] (lines 706-722): the descriptor is closed and
    the later clients are shifted down. *)
Definition ctrl_remove_client (idx : Z) (ctrl_clients : list ctrl_client_t)
  : list sys_event * list ctrl_client_t :=
  if (idx <? 0) || (Z.of_nat (length ctrl_clients) <=? idx)
  then ([], ctrl_clients)
  else
    let c := ctrl_clients !!! Z.to_nat idx in
    (if 0 <=? fd c then [SysClose (fd c)] else [],
     delete (Z.to_nat idx) ctrl_clients).

(** The loop over the clients (lines 950-994), from index [i] on; [ready fd]
    is what the peer of a socket reported readable by [select] offers.
    After a removal the index is stepped back and forth, so the client
    shifted into the place is visited next.  Every turn moves [i] closer to
    the end of the table: as many turns as clients from [i] on are
    enough. *)
Fixpoint clients_loop (turns : nat) (i : nat)
    (ready : Z -> option (list ascii)) (ctrl_clients : list ctrl_client_t)
  : list sys_event * list ctrl_client_t :=
  match turns with
  | O => ([], ctrl_clients)
  | S turns' =>
      match ctrl_clients !! i with
      | None => ([], ctrl_clients)
      | Some c =>
          if fd c <? 0 then clients_loop turns' (S i) ready ctrl_clients
          else
            match ready (fd c) with
            | None => clients_loop turns' (S i) ready ctrl_clients
            | Some offered =>
                match serve_client c offered with
                | (_, None) =>
                    let '(ev, cl) := ctrl_remove_client (Z.of_nat i) ctrl_clients in
                    let '(evs, cl') := clients_loop turns' i ready cl in
                    (ev ++ evs, cl')
                | (ls, Some c') =>
                    let '(evs, cl') :=
                      clients_loop turns' (S i) ready (<[i := c']> ctrl_clients) in
                    (map (HandleCommand (fd c)) ls ++ evs, cl')
                end
            end
      end
  end.

Definition serve_clients (ready : Z -> option (list ascii))
    (ctrl_clients : list ctrl_client_t)
  : list sys_event * list ctrl_client_t :=
  clients_loop (length ctrl_clients) 0 ready ctrl_clients.

(** One turn of the server loop in which [select] reported something:
    [accepted] is the result of [accept] when the listening socket was
    readable. *)
Definition server_pass (accepted : option Z) (ready : Z -> option (list ascii))
    (ctrl_clients : list ctrl_client_t)
  : list sys_event * list ctrl_client_t :=
  let '(ev1, cl) :=
    match accepted with
    | Some client_fd => ctrl_accept client_fd ctrl_clients
    | None => ([], ctrl_clients)
    end in
  let '(ev2, cl') := serve_clients ready cl in
  (ev1 ++ ev2, cl').

(** The server from [control_socket_init] on ([ctrl_num_clients = 0]),
    through a sequence of turns. *)
Fixpoint server_run (turns : list (option Z * (Z -> option (list ascii))))
    (ctrl_clients : list ctrl_client_t) : list ctrl_client_t :=
  match turns with
  | [] => ctrl_clients
  | (accepted, ready) :: rest =>
      server_run rest (snd (server_pass accepted ready ctrl_clients))
  end.

(** One session fed a byte stream: [pending] is what the peer has sent and
    the session has not read; at each wake-up the kernel delivers at least
    one byte and at most [S sz] bytes, for the next [sz] of [sizes].  The
    session is not woken once nothing is pending.  The result is the lines
    handed to [ctrl_handle_command], and the session, or [None] once it was
    removed. *)
Fixpoint session_run (sizes : list nat) (pending : list ascii)
    (c : ctrl_client_t) : list string * option ctrl_client_t :=
  match sizes, pending with
  | [], _ | _, [] => ([], Some c)
  | sz :: sizes', _ =>
      let space := CTRL_BUF_SIZE - buf_len c - 1 in
      let offered := take (S sz) pending in
      match serve_client c offered with
      | (_, None) => ([], None)
      | (ls, Some c') =>
          let '(ls', r) :=
            session_run sizes'
              (drop (length (take (Z.to_nat space) offered)) pending) c' in
          (ls ++ ls', r)
      end
  end.

(** ** [ctrl_send], [ctrl_send_binary] and [ctrl_broadcast] (lines 198-246) *)

(** What reaches a socket. *)
Inductive io_event : Type :=
| Written (fd : Z) (bytes : list ascii)
| WrittenBinary (fd : Z) (bytes : list Z).

(** The [while] loop of [ctrl_send] and of [ctrl_send_binary].  [answers k]
    is what the [k]-th call of [write] returns; on a positive answer [n] the
    kernel has taken the first [n] of the bytes it was offered (it never
    takes more than it is offered).  The result is the chunks taken, in
    order.  A turn that goes on takes at least one byte, so as many turns as
    there are bytes are enough. *)
Fixpoint write_loop {A : Type} (turns : nat) (answers : nat -> Z) (k : nat)
    (remaining : list A) : list (list A) :=
  match turns with
  | O => []
  | S turns' =>
      match remaining with
      | [] => []
      | _ =>
          let n := answers k in
          if n <=? 0 then []
          else take (Z.to_nat n) remaining
               :: write_loop turns' answers (S k) (drop (Z.to_nat n) remaining)
      end
  end.

Definition ctrl_send (client : ctrl_client_t) (msg : string)
    (answers : nat -> Z) : list io_event :=
  if fd client <? 0 then []
  else map (Written (fd client))
           (write_loop (String.length msg) answers 0 (list_ascii_of_string msg)).

Definition ctrl_send_binary (client : ctrl_client_t) (data : list Z)
    (answers : nat -> Z) : list io_event :=
  if fd client <? 0 then []
  else map (WrittenBinary (fd client))
           (write_loop (length data) answers 0 data).

(** [ctrl_broadcast(msg)]; [answers fd] are the answers of [write] on that
    descriptor. *)
Definition ctrl_broadcast (ctrl_clients : list ctrl_client_t) (msg : string)
    (answers : Z -> nat -> Z) : list io_event :=
  flat_map
    (fun c => if 0 <=? fd c then ctrl_send c msg (answers (fd c)) else [])
    ctrl_clients.

(** ** [control_socket_init] and [control_socket_close] (lines 1001-1097) *)

(** The globals of the file; [registry] is [ctrl_clients[0 ..
    ctrl_num_clients - 1]], a thread handle is [true] when it is not null. *)
Record ctrl_state : Type := {
  ctrl_server_fd : Z;
  ctrl_socket_path : string;
  ctrl_running : bool;
  registry : list ctrl_client_t;
  ctrl_thread_handle : bool;
  ctrl_led_thread_handle : bool
}.

Inductive ctrl_thread : Type := ctrl_server_thread | ctrl_led_poll_thread.

(** The calls start-up and shut-down make. *)
Inductive life_event : Type :=
| sys_unlink (path : string)
| sys_socket
| sys_bind (fd : Z) (sun_path : string)
| sys_listen (fd : Z) (backlog : Z)
| sys_close (fd : Z)
| sigpipe_ignored
| thread_create (th : ctrl_thread)
| thread_wait (th : ctrl_thread).

(** What [socket], [bind] and [listen] return. *)
Record os_answers : Type := {
  socket_answer : Z;
  bind_answer : Z;
  listen_answer : Z
}.

(** [control_socket_init(path)]; [sun_path_size] is
    [sizeof(addr.sun_path)].  [thread_create] is taken to return a handle. *)
Definition control_socket_init (P : platform) (sun_path_size : Z)
    (os : os_answers) (path : string) (s : ctrl_state)
  : Z * ctrl_state * list life_event :=
  if sun_path_size <=? strlen path then (-1, s, [])
  else
    let sfd := socket_answer os in
    let with_fd (v : Z) :=
      {| ctrl_server_fd := v;
         ctrl_socket_path := ctrl_socket_path s;
         ctrl_running := ctrl_running s;
         registry := registry s;
         ctrl_thread_handle := ctrl_thread_handle s;
         ctrl_led_thread_handle := ctrl_led_thread_handle s |} in
    if sfd <? 0 then (-1, with_fd sfd, [sys_unlink path; sys_socket])
    else
      let sun_path := cut (Z.to_nat (sun_path_size - 1)) path in
      if bind_answer os <? 0 then
        (-1, with_fd (-1),
         [sys_unlink path; sys_socket; sys_bind sfd sun_path; sys_close sfd])
      else if listen_answer os <? 0 then
        (-1, with_fd (-1),
         [sys_unlink path; sys_socket; sys_bind sfd sun_path;
          sys_listen sfd 4; sys_close sfd; sys_unlink path])
      else
        (0,
         {| ctrl_server_fd := sfd;
            ctrl_socket_path := cut (Z.to_nat (PATH_MAX P - 1)) path;
            ctrl_running := true;
            registry := [];
            ctrl_thread_handle := true;
            ctrl_led_thread_handle := true |},
         [sys_unlink path; sys_socket; sys_bind sfd sun_path;
          sys_listen sfd 4; sigpipe_ignored;
          thread_create ctrl_server_thread;
          thread_create ctrl_led_poll_thread]).

(** [control_socket_close()], the registry being what the server thread
    left when it was joined. *)
Definition control_socket_close (s : ctrl_state)
  : ctrl_state * list life_event :=
  if negb (ctrl_running s) then (s, [])
  else
    ({| ctrl_server_fd := if 0 <=? ctrl_server_fd s then -1 else ctrl_server_fd s;
        ctrl_socket_path := EmptyString;
        ctrl_running := false;
        registry := [];
        ctrl_thread_handle := false;
        ctrl_led_thread_handle := false |},
     (if 0 <=? ctrl_server_fd s then [sys_close (ctrl_server_fd s)] else [])
     ++ (if ctrl_thread_handle s then [thread_wait ctrl_server_thread] else [])
     ++ (if ctrl_led_thread_handle s then [thread_wait ctrl_led_poll_thread] else [])
     ++ flat_map (fun c => if 0 <=? fd c then [sys_close (fd c)] else [])
                 (registry s)
     ++ (match ctrl_socket_path s with
         | EmptyString => []
         | p => [sys_unlink p]
         end)).

(** ** The descriptors handed to [select] (lines 899-917)

    The set built with [FD_SET], in the order the descriptors are added,
    and [maxfd]. *)
Definition select_set (server_fd : Z) (ctrl_clients : list ctrl_client_t)
  : list Z * Z :=
  fold_left
    (fun '(readfds, maxfd) c =>
       if 0 <=? fd c
       then (readfds ++ [fd c], if maxfd <? fd c then fd c else maxfd)
       else (readfds, maxfd))
    ctrl_clients ([server_fd], server_fd).

(** * Statements

    The vocabulary the statements below are written in: a build and a host
    to evaluate the model on, and the notions the specification uses that
    the source does not name. *)

(** ** A build and a host *)

(** A Linux build: [PATH_MAX] is 4096; four floppy, eight CD-ROM, four
    removable-disk and four MO drives, two monitors. *)
Definition linux_build : platform :=
  {| PATH_MAX := 4096;
     FDD_NUM := 4;
     CDROM_NUM := 8;
     HDD_BUS_USB := 8;
     RDISK_NUM := 4;
     MO_NUM := 4;
     NET_CARD_MAX := 4;
     MONITORS_NUM := 2;
     VIDEO_FLAG_TYPE_NONE := 5;
     EMU_NAME := "86Box";
     EMU_VERSION_FULL := "5.0" |}.

(** The same with the [PATH_MAX] of the BSD family and macOS. *)
Definition bsd_build : platform :=
  {| PATH_MAX := 1024;
     FDD_NUM := 4;
     CDROM_NUM := 8;
     HDD_BUS_USB := 8;
     RDISK_NUM := 4;
     MO_NUM := 4;
     NET_CARD_MAX := 4;
     MONITORS_NUM := 2;
     VIDEO_FLAG_TYPE_NONE := 5;
     EMU_NAME := "86Box";
     EMU_VERSION_FULL := "5.0" |}.

Definition idle_unit : dev_status :=
  {| active := false; write_active := false; empty := true |}.

Definition writing_unit : dev_status :=
  {| active := true; write_active := true; empty := true |}.

(** Every unit idle and empty. *)
Definition quiet_status : machine_status_t :=
  {| fdd := replicate 4 idle_unit;
     cdrom := replicate 8 idle_unit;
     hdd := replicate 8 idle_unit;
     rdisk := replicate 4 idle_unit;
     mo := replicate 4 idle_unit;
     net := replicate 4 idle_unit |}.

(** The first floppy drive writing, the first CD-ROM drive loaded. *)
Definition busy_status : machine_status_t :=
  {| fdd := writing_unit :: replicate 3 idle_unit;
     cdrom := {| active := false; write_active := false; empty := false |}
              :: replicate 7 idle_unit;
     hdd := replicate 8 idle_unit;
     rdisk := replicate 4 idle_unit;
     mo := replicate 4 idle_unit;
     net := replicate 4 idle_unit |}.

(** The first floppy drive writing, nothing else changed. *)
Definition floppy_writing : machine_status_t :=
  {| fdd := writing_unit :: replicate 3 idle_unit;
     cdrom := replicate 8 idle_unit;
     hdd := replicate 8 idle_unit;
     rdisk := replicate 4 idle_unit;
     mo := replicate 4 idle_unit;
     net := replicate 4 idle_unit |}.

(** A frame buffer of 2048 by 2048 pixels whose bytes all differ along a
    row, and the same with every alpha byte set. *)
Definition test_card : bitmap_t :=
  {| bm_w := 2048; bm_h := 2048;
     line := fun y k => (y * 16 + k) mod 256 |}.

Definition test_card_opaque : bitmap_t :=
  {| bm_w := 2048; bm_h := 2048;
     line := fun y k => if k mod 4 =? 3 then 255 else (y * 16 + k) mod 256 |}.

Definition host_showing (b : bitmap_t) : host :=
  {| dopause := false;
     paused_after := fun p => p;
     machine_status := quiet_status;
     monitors := fun _ =>
       {| video_type := 0; blit_rect := (0, 0, 4, 3); target_buffer := Some b |} |}.

Definition sample_host : host := host_showing test_card.

(** ** The poller *)

Definition units (P : platform) (c : dev_class) : Z :=
  match c with
  | Fdd => FDD_NUM P
  | Cdrom => CDROM_NUM P
  | Hdd => HDD_BUS_USB P
  | Rdisk => RDISK_NUM P
  | Mo => MO_NUM P
  | Net => NET_CARD_MAX P
  end.

(** The classes whose media state is watched. *)
Definition has_media (c : dev_class) : bool :=
  match c with
  | Hdd | Net => false
  | _ => true
  end.

Definition table (ms : machine_status_t) (c : dev_class) : list dev_status :=
  match c with
  | Fdd => fdd ms
  | Cdrom => cdrom ms
  | Hdd => hdd ms
  | Rdisk => rdisk ms
  | Mo => mo ms
  | Net => net ms
  end.

(** The two fields the snapshot keeps for a unit: its LED flags, and its
    media flag where the class has one. *)
Definition leds (s : snapshot) (c : dev_class) : list led_state_t :=
  match c with
  | Fdd => prev_fdd s
  | Cdrom => prev_cdrom s
  | Hdd => prev_hdd s
  | Rdisk => prev_rdisk s
  | Mo => prev_mo s
  | Net => prev_net s
  end.

Definition empties (s : snapshot) (c : dev_class) : list bool :=
  match c with
  | Fdd => prev_fdd_empty s
  | Cdrom => prev_cdrom_empty s
  | Rdisk => prev_rdisk_empty s
  | Mo => prev_mo_empty s
  | Hdd | Net => []
  end.

(** Every array of the snapshot has as many entries as its class has
    units. *)
Definition snapshot_sized (P : platform) (s : snapshot) : Prop :=
  forall c : dev_class,
    length (leds s c) = Z.to_nat (units P c)
    /\ (has_media c = true -> length (empties s c) = Z.to_nat (units P c)).

(** The six classes, in the order the poller and [status] go through
    them. *)
Definition classes : list dev_class := [Fdd; Cdrom; Hdd; Rdisk; Mo; Net].

(** The text of the push lines, as the specification gives it: [!led],
    the class, the unit and [write], [read] or [idle]; [!media], the class,
    the unit and [ejected] or [inserted]; a line feed ends the line.  The
    unit is written in decimal. *)
Definition class_word (c : dev_class) : string :=
  match c with
  | Fdd => "fdd"
  | Cdrom => "cdrom"
  | Hdd => "hdd"
  | Rdisk => "rdisk"
  | Mo => "mo"
  | Net => "net"
  end.

Definition digit (d : nat) : ascii := ascii_of_nat (48 + d).

(** The decimal numeral of a number below 1000. *)
Definition decimal (n : nat) : string :=
  if (n <? 10)%nat then String (digit n) EmptyString
  else if (n <? 100)%nat
  then String (digit (n / 10)) (String (digit (n mod 10)) EmptyString)
  else String (digit (n / 100))
         (String (digit (n / 10 mod 10)) (String (digit (n mod 10)) EmptyString)).

Definition eol : string := String "010"%char EmptyString.

Definition led_word (st : dev_status) : string :=
  if write_active st then "write" else if active st then "read" else "idle".

Definition media_word (st : dev_status) : string :=
  if empty st then "ejected" else "inserted".

Definition led_text (c : dev_class) (i : nat) (st : dev_status) : string :=
  append "!led " (append (class_word c) (append " " (append (decimal i)
    (append " " (append (led_word st) eol))))).

Definition media_text (c : dev_class) (i : nat) (st : dev_status) : string :=
  append "!media " (append (class_word c) (append " " (append (decimal i)
    (append " " (append (media_word st) eol))))).

(** The watched fields of a unit: its LED flags (active and write-active,
    kept together in one [led_state_t] and reported by one line), and its
    media flag.  A field has changed when it is not what the snapshot
    holds. *)
Definition flags_changed (st : dev_status) (p : led_state_t) : bool :=
  negb (eqb (active st) (led_active p)
        && eqb (write_active st) (led_write_active p)).

Definition media_changed (st : dev_status) (pe : bool) : bool :=
  negb (eqb (empty st) pe).

(** What one turn owes unit [i] of class [c], given its entry [st] of the
    status table and what the snapshot holds for it: one [!led] line when
    its LED flags have changed, then one [!media] line when the class has
    media and its media flag has changed. *)
Definition unit_broadcasts (c : dev_class) (i : nat) (st : dev_status)
    (p : led_state_t) (pe : bool) : list action :=
  (if flags_changed st p then [Broadcast (led_text c i st)] else [])
  ++ (if has_media c && media_changed st pe
      then [Broadcast (media_text c i st)] else []).

(** What one turn owes all units: class by class, unit by unit. *)
Definition due_broadcasts (P : platform) (ms : machine_status_t) (s : snapshot)
  : list action :=
  flat_map
    (fun c =>
       flat_map
         (fun i => unit_broadcasts c i (table ms c !!! i)
                     (leds s c !!! i) (empties s c !!! i))
         (seq 0 (Z.to_nat (units P c))))
    classes.

(** No class has more than 256 units (a drive id is eight bits wide). *)
Definition small_build (P : platform) : Prop :=
  forall c : dev_class, units P c <= 256.

(** The lines a loop of the poller broadcasts for unit [i], given the table
    and the arrays as they were before the loop. *)
Definition led_line (c : dev_class) (tbl : list dev_status)
    (prev : list led_state_t) (i : nat) : list push_event :=
  if led_differs (tbl !!! i) (prev !!! i)
  then [LedEvent c i (active (tbl !!! i)) (write_active (tbl !!! i))] else [].

Definition media_line (c : dev_class) (tbl : list dev_status)
    (pe : list bool) (i : nat) : list push_event :=
  if negb (eqb (empty (tbl !!! i)) (pe !!! i))
  then [MediaEvent c i (empty (tbl !!! i))] else [].

(** A list whose entries below [k] were overwritten by [f]. *)
Definition overwritten {A} (f : nat -> A) (k : nat) (l : list A) : list A :=
  map f (seq 0 k) ++ drop k l.

(** ** The server *)

(** The bytes of complete lines, each followed by its line feed. *)
Definition unlines (ls : list (list ascii)) : list ascii :=
  flat_map (fun l => l ++ [LF]) ls.

(** A line handed to the dispatcher: free of line feeds, and, with its line
    feed, no longer than [bound] bytes. *)
Definition line_within (bound : nat) (l : string) : Prop :=
  ~ elem_of LF (list_ascii_of_string l) /\ (String.length l < bound)%nat.

(** The buffer of the session has room left for the terminator. *)
Definition buffer_ok (c : ctrl_client_t) : Prop := buf_len c < CTRL_BUF_SIZE.

(** A session that has just been accepted. *)
Definition fresh_client (client_fd : Z) : ctrl_client_t :=
  {| fd := client_fd; buf := [] |}.

(** Eight sessions, on descriptors 4 to 11. *)
Definition full_house : list ctrl_client_t :=
  map fresh_client (seqZ 4 8).

(** A stream with the line [status], then a line of 4095 letters. *)
Definition long_line : list ascii := replicate 4095 "a"%char.

Definition long_line_stream : list ascii :=
  list_ascii_of_string "status" ++ LF :: long_line ++ [LF].

(** ** The quoted-path parser *)

(** The bytes the tokens of a path take in the buffer at most: each token
    and the space or terminator after it. *)
Definition path_bytes (toks : list string) : Z :=
  fold_right (fun tok n => strlen tok + 1 + n) 0 toks.

(** Position of the first element that satisfies [f]. *)
Fixpoint first_index {A} (f : A -> bool) (l : list A) : option nat :=
  match l with
  | [] => None
  | x :: l' => if f x then Some O else option_map S (first_index f l')
  end.

(** The token ends in the quote character [q]. *)
Definition ends_with (q : ascii) (tok : string) : bool :=
  negb (String.eqb tok EmptyString) && Ascii.eqb (last_char tok) q.

(** The parser as the specification words it.  When the third token opens
    with a quote [q]: the tokens from the third up to the first that ends in
    [q], joined by single spaces, without the two quotes; the flag is the
    token after it.  Otherwise the third token and the fourth. *)
Definition claimed_media_args (xargv : list string) : string * option Z :=
  let x2 := nth 2 xargv EmptyString in
  let q := first_char x2 in
  if is_quote q then
    let toks := drop 2 xargv in
    match first_index (ends_with q) toks with
    | Some k =>
        (drop_last (advance 1 (join (take (S k) toks))),
         option_map (fun t => to_uint8 (atoi t)) (toks !! S k))
    | None => (advance 1 (join toks), None)
    end
  else (x2, Some (to_uint8 (atoi (nth 3 xargv EmptyString)))).

(** The word ends in a quote of either kind. *)
Definition closes (w : string) : bool := is_quote (last_char w).

(** Words each followed by a space. *)
Fixpoint spaced (ws : list string) : string :=
  match ws with
  | [] => EmptyString
  | w :: ws' => append w (String SP (spaced ws'))
  end.

(** The parser as amended.  When the third token opens with a quote: the
    words are the tokens from the third on, each without its leading quote
    if it has one; the path is the words up to the first that ends in a
    quote of either kind, joined by single spaces, without that last quote,
    and the flag is the token after it, if there is one; when no word ends
    in a quote the path is every word followed by a space and the flag is
    not set.  Otherwise the path is the third token, without its last
    character if that is a quote, and the flag is the fourth token. *)
Definition amended_media_args (xargv : list string) : string * option Z :=
  let x2 := nth 2 xargv EmptyString in
  if is_quote (first_char x2) then
    let toks := drop 2 xargv in
    let ws := map skip_quote toks in
    match first_index closes ws with
    | Some k =>
        (drop_last (join (take (S k) ws)),
         option_map (fun t => to_uint8 (atoi t)) (toks !! S k))
    | None => (spaced ws, None)
    end
  else (if closes x2 then drop_last x2 else x2,
        Some (to_uint8 (atoi (nth 3 xargv EmptyString)))).

(** What the quoted loop appends to the path, and the flag it sets. *)
Definition loop_result (toks : list string) : string * option Z :=
  let ws := map skip_quote toks in
  match first_index closes ws with
  | Some k =>
      (join (take (S k) ws),
       option_map (fun t => to_uint8 (atoi t)) (toks !! S k))
  | None => (spaced ws, None)
  end.

(** ** The dispatcher *)

(** No character of [w] is in [bad]. *)
Fixpoint no_char (bad w : string) : bool :=
  match w with
  | EmptyString => true
  | String ch w' => negb (mem ch bad) && no_char bad w'
  end.

(** A raw token: no space, and none of the characters that end a line or a
    C string. *)
Definition is_token (w : string) : bool :=
  no_char (String SP (String CR (String LF (chr NUL)))) w.

(** The load and eject commands. *)
Inductive media_cmd : Type :=
| CdLoad | CdEject
| FddLoad | FddEject
| MoLoad | MoEject
| RdiskLoad | RdiskEject
| CartLoad | CartEject.

Definition cmd_name (m : media_cmd) : string :=
  match m with
  | CdLoad => "cdload" | CdEject => "cdeject"
  | FddLoad => "fddload" | FddEject => "fddeject"
  | MoLoad => "moload" | MoEject => "moeject"
  | RdiskLoad => "rdiskload" | RdiskEject => "rdiskeject"
  | CartLoad => "cartload" | CartEject => "carteject"
  end.

(** The unit count the command checks its id against. *)
Definition cmd_units (P : platform) (m : media_cmd) : Z :=
  match m with
  | CdLoad | CdEject => CDROM_NUM P
  | FddLoad | FddEject => FDD_NUM P
  | MoLoad | MoEject => MO_NUM P
  | RdiskLoad | RdiskEject => RDISK_NUM P
  | CartLoad | CartEject => 2
  end.

(** The load commands that take a write-protect flag, parsed by
    [ctrl_process_media_commands_3]. *)
Definition takes_flag (m : media_cmd) : bool :=
  match m with
  | FddLoad | MoLoad | RdiskLoad | CartLoad => true
  | _ => false
  end.

(** The least number of tokens for the command to be recognised. *)
Definition cmd_tokens (m : media_cmd) : nat :=
  match m with
  | CdLoad => 3
  | CdEject | FddEject | MoEject | RdiskEject | CartEject => 2
  | FddLoad | MoLoad | RdiskLoad | CartLoad => 4
  end.

(** The operation a load command with a flag calls. *)
Definition cmd_mount (m : media_cmd) : Z -> string -> option Z -> action :=
  match m with
  | MoLoad => mo_mount
  | RdiskLoad => rdisk_mount
  | CartLoad => cartridge_mount
  | _ => floppy_mount
  end.

(** The name of the class in the replies. *)
Definition cmd_class (m : media_cmd) : string :=
  match m with
  | CdLoad | CdEject => "cdrom"
  | FddLoad | FddEject => "fdd"
  | MoLoad | MoEject => "mo"
  | RdiskLoad | RdiskEject => "rdisk"
  | CartLoad | CartEject => "cartridge"
  end.

Definition completes {A} (o : outcome A) : bool :=
  match o with
  | Done _ => true
  | Fault _ => false
  end.

(** The two quote characters. *)
Definition quotes : string := String SQUOTE (chr DQUOTE).

(** The path [cdload] has built from the path [fn] and the tokens [toks]
    still to add, when nothing was too long. *)
Definition rejoined (fn : string) (first : bool) (toks : list string) : string :=
  match toks with
  | [] => fn
  | _ => append fn (append (if first then EmptyString else chr SP) (join toks))
  end.

(** A name of [n] letters. *)
Definition long_name (n : nat) : string :=
  string_of_list_ascii (replicate n "a"%char).

(** A line for each load and eject command with the id 256, and the
    operation of the host that serves drive 0 with its arguments. *)
Definition line_256 (m : media_cmd) : string :=
  match m with
  | CdLoad => "cdload 256 a.iso"
  | CdEject => "cdeject 256"
  | FddLoad => "fddload 256 a.img 1"
  | FddEject => "fddeject 256"
  | MoLoad => "moload 256 a.img 1"
  | MoEject => "moeject 256"
  | RdiskLoad => "rdiskload 256 a.img 1"
  | RdiskEject => "rdiskeject 256"
  | CartLoad => "cartload 256 a.img 1"
  | CartEject => "carteject 256"
  end.

Definition call_on_drive_0 (m : media_cmd) : action :=
  match m with
  | CdLoad => cdrom_mount 0 "a.iso"
  | CdEject => cdrom_mount 0 EmptyString
  | FddLoad => floppy_mount 0 "a.img" (Some 1)
  | FddEject => floppy_eject 0
  | MoLoad => mo_mount 0 "a.img" (Some 1)
  | MoEject => mo_eject 0
  | RdiskLoad => rdisk_mount 0 "a.img" (Some 1)
  | RdiskEject => rdisk_eject 0
  | CartLoad => cartridge_mount 0 "a.img" (Some 1)
  | CartEject => cartridge_eject 0
  end.

Definition is_load (m : media_cmd) : bool :=
  match m with
  | CdLoad | FddLoad | MoLoad | RdiskLoad | CartLoad => true
  | _ => false
  end.

(** ** The checksum *)

(** CRC-32 as the specification words it: bit-reflected, polynomial
    0xEDB88320, initial value 0xFFFFFFFF, final XOR 0xFFFFFFFF, one byte at a
    time. *)
Definition crc32_bit (crc : Z) : Z :=
  if Z.odd crc then Z.lxor (Z.shiftr crc 1) 0xEDB88320 else Z.shiftr crc 1.

Definition crc32_update (crc byte : Z) : Z :=
  Nat.iter 8 crc32_bit (Z.lxor crc byte).

Definition crc32 (data : list Z) : Z :=
  Z.lxor (fold_left crc32_update data 0xFFFFFFFF) 0xFFFFFFFF.

(** The first three bytes (blue, green, red) of pixel [x] of row [y]. *)
Definition bgr (b : bitmap_t) (y x : Z) : list Z :=
  [line b y (4 * x); line b y (4 * x + 1); line b y (4 * x + 2)].

(** The blue, green and red bytes of the [w] by [h] pixels from pixel [x0]
    of row [y0], row by row. *)
Definition region_bgr (b : bitmap_t) (x0 y0 w h : Z) : list Z :=
  flat_map (fun y => flat_map (bgr b y) (seqZ x0 w)) (seqZ y0 h).

(** Two frame buffers that differ in alpha bytes only. *)
Definition alpha_only (b b' : bitmap_t) : Prop :=
  forall y k : Z, k mod 4 <> 3 -> line b y k = line b' y k.

(** The rectangle of [w] by [h] pixels at pixel [x0] of row [y0] lies in
    the frame buffer, whose sizes are those of an [int] (the width in
    bytes too). *)
Definition in_frame (b : bitmap_t) (x0 y0 w h : Z) : Prop :=
  (0 <= x0 /\ 0 <= y0 /\ 0 <= w /\ 0 <= h)
  /\ (x0 + w <= bm_w b /\ y0 + h <= bm_h b)
  /\ (4 * bm_w b < 2 ^ 31 /\ bm_h b < 2 ^ 31).

(** The region lies in the visible rectangle of [bw] by [bh] pixels, to
    which it is relative. *)
Definition within (rx ry rw rh bw bh : Z) : Prop :=
  (0 <= rx /\ rx + rw <= bw) /\ (0 <= ry /\ ry + rh <= bh).

(** What is read from the frame buffer is a byte. *)
Definition frame_of_bytes (b : bitmap_t) : Prop :=
  forall y k : Z, 0 <= line b y k < 256.

(** Every character is a decimal digit or a letter from A to F. *)
Fixpoint upper_hex (s : string) : bool :=
  match s with
  | EmptyString => true
  | String ch s' =>
      (Ascii.eqb ch "0" || Ascii.eqb ch "1" || Ascii.eqb ch "2" || Ascii.eqb ch "3"
       || Ascii.eqb ch "4" || Ascii.eqb ch "5" || Ascii.eqb ch "6" || Ascii.eqb ch "7"
       || Ascii.eqb ch "8" || Ascii.eqb ch "9" || Ascii.eqb ch "A" || Ascii.eqb ch "B"
       || Ascii.eqb ch "C" || Ascii.eqb ch "D" || Ascii.eqb ch "E" || Ascii.eqb ch "F")
      && upper_hex s'
  end.

(** A string of hexadecimal digits (upper case) read back as a number. *)
Definition hex_digit_value (c : ascii) : Z :=
  if code c <? 58 then code c - 48 else code c - 55.

Fixpoint hex_value_from (acc : Z) (s : string) : Z :=
  match s with
  | EmptyString => acc
  | String c s' => hex_value_from (16 * acc + hex_digit_value c) s'
  end.

Definition hex_value (s : string) : Z := hex_value_from 0 s.

(** ** Further vocabulary *)

(** How many times [c] occurs in [s]. *)
Fixpoint count_char (c : ascii) (s : string) : nat :=
  match s with
  | EmptyString => O
  | String d s' => ((if Ascii.eqb d c then 1 else 0) + count_char c s')%nat
  end.

(** The characters that end a command line: CR, LF, and the terminator of
    a C string. *)
Definition line_end : string := String CR (String LF (chr NUL)).

(** The reply to a command that is not recognised. *)
Definition unknown_reply (name : string) : action :=
  Send (snprintf 128 (append "ERR unknown command: " (append name nl))).

(** The names the dispatcher compares the first token with. *)
Definition command_names : list string :=
  [ "status"; "pause"; "hardreset"; "exit"; "version";
    "cdload"; "cdeject"; "fddload"; "fddeject"; "moload"; "moeject";
    "rdiskload"; "rdiskeject"; "cartload"; "carteject";
    "screenshot"; "screencrc"; "mousecapture"; "mouserelease"; "help" ]%string.

(** The token, lowered, is one of the names. *)
Definition known_command (name : string) : bool :=
  existsb (String.eqb (lower name)) command_names.

(** A call of the host is made on one of the units of its class. *)
Definition drive_in_range (P : platform) (a : action) : Prop :=
  match a with
  | cdrom_mount id _ => 0 <= id < CDROM_NUM P
  | floppy_mount id _ _ | floppy_eject id => 0 <= id < FDD_NUM P
  | mo_mount id _ _ | mo_eject id => 0 <= id < MO_NUM P
  | rdisk_mount id _ _ | rdisk_eject id => 0 <= id < RDISK_NUM P
  | cartridge_mount id _ _ | cartridge_eject id => 0 <= id < 2
  | _ => True
  end.

Definition calls_in_range (P : platform) (o : outcome (list action)) : Prop :=
  match o with
  | Done acts => Forall (drive_in_range P) acts
  | Fault _ => True
  end.

(** The region [screencrc] is asked for: the four numbers after the monitor
    when the line has them, the visible rectangle otherwise. *)
Definition requested_region (xargv : list string) (bw bh : Z) : Z * Z * Z * Z :=
  if (6 <=? length xargv)%nat
  then (atoi (arg xargv 2), atoi (arg xargv 3),
        atoi (arg xargv 4), atoi (arg xargv 5))
  else (0, 0, bw, bh).

(** Its far corner, the origin raised to zero, is within the range of
    [int]. *)
Definition far_corner_fits (xargv : list string) (bw bh : Z) : Prop :=
  let '(x, y, w, h) := requested_region xargv bw bh in
  Z.max 0 x + w < 2 ^ 31 /\ Z.max 0 y + h < 2 ^ 31.

(** What one turn of the server does with one session, given what the peers
    offer: nothing when the session is not readable; otherwise the lines
    handed to the dispatcher and the session afterwards, or the close of
    the descriptor and no session. *)
Definition client_step (ready : Z -> option (list ascii)) (c : ctrl_client_t)
  : list sys_event * option ctrl_client_t :=
  if fd c <? 0 then ([], Some c)
  else
    match ready (fd c) with
    | None => ([], Some c)
    | Some offered =>
        match serve_client c offered with
        | (_, None) => ([SysClose (fd c)], None)
        | (ls, Some c') => (map (HandleCommand (fd c)) ls, Some c')
        end
    end.

(** The control socket before it is started, as the initialisers of the
    globals leave it. *)
Definition stopped : ctrl_state :=
  {| ctrl_server_fd := -1;
     ctrl_socket_path := EmptyString;
     ctrl_running := false;
     registry := [];
     ctrl_thread_handle := false;
     ctrl_led_thread_handle := false |}.

(** Start-up has everything it needs: the path fits [sun_path], and
    [socket], [bind] and [listen] succeed. *)
Definition can_start (sun_path_size : Z) (os : os_answers) (path : string)
  : bool :=
  (strlen path <? sun_path_size) && (0 <=? socket_answer os)
  && (0 <=? bind_answer os) && (0 <=? listen_answer os).

(** Answers of a kernel that grants everything, the socket on descriptor
    3. *)
Definition all_granted : os_answers :=
  {| socket_answer := 3; bind_answer := 0; listen_answer := 0 |}.

(** The message is never among what a command sends. *)
Definition never_sent (msg : string) (o : outcome (list action)) : Prop :=
  match o with
  | Done acts => ~ In (Send msg) acts
  | Fault _ => True
  end.

(** A message that is told apart from [ERR missing arguments] by its first
    character or by its first six. *)
Definition other_message (a : action) : Prop :=
  match a with
  | Send s => first_char s <> "E"%char \/ cut 6 s <> "ERR mi"%string
  | _ => True
  end.

Definition other_messages (o : outcome (list action)) : Prop :=
  match o with
  | Done acts => Forall other_message acts
  | Fault _ => True
  end.

(** The command sends the client at least one message. *)
Definition answered (o : outcome (list action)) : Prop :=
  match o with
  | Done acts => exists msg, In (Send msg) acts
  | Fault _ => True
  end.

(** The operation of the host an eject command calls. *)
Definition eject_call (m : media_cmd) (id : Z) : action :=
  match m with
  | CdLoad | CdEject => cdrom_mount id EmptyString
  | FddLoad | FddEject => floppy_eject id
  | MoLoad | MoEject => mo_eject id
  | RdiskLoad | RdiskEject => rdisk_eject id
  | CartLoad | CartEject => cartridge_eject id
  end.

(** The status lines, as the specification gives them: class by class and
    unit by unit the [!led] line of the unit and, where the class has
    media, its [!media] line, then the [!paused] line. *)
Definition unit_status (c : dev_class) (i : nat) (st : dev_status)
  : list string :=
  led_text c i st :: (if has_media c then [media_text c i st] else []).

Definition paused_text (paused : bool) : string :=
  append "!paused " (append (if paused then "1" else "0") eol).

Definition status_text (P : platform) (H : host) : list string :=
  flat_map
    (fun c =>
       flat_map (fun i => unit_status c i (table (machine_status H) c !!! i))
                (seq 0 (Z.to_nat (units P c))))
    classes
  ++ [paused_text (dopause H)].

(** * Proofs *)

(** ** The poller *)

Lemma led_same (s : dev_status) (p : led_state_t) :
  led_differs s p = false -> p = led_of s.
Proof.
  destruct s as [a w e], p as [pa pw]; unfold led_differs, led_of; simpl.
  destruct a, w, pa, pw; simpl; congruence.
Qed.

Lemma empty_same (e pe : bool) : negb (eqb e pe) = false -> pe = e.
Proof. destruct e, pe; simpl; congruence. Qed.


Lemma overwritten_lookup {A} `{Inhabited A} (f : nat -> A) k (l : list A) :
  overwritten f k l !!! k = l !!! k.
Proof.
  unfold overwritten.
  rewrite lookup_total_app_r by (rewrite length_map, length_seq; lia).
  rewrite length_map, length_seq, Nat.sub_diag.
  rewrite !list_lookup_total_alt, lookup_drop. by rewrite Nat.add_0_r.
Qed.

Lemma overwritten_step {A} (f : nat -> A) k (l : list A) :
  (k < length l)%nat ->
  <[k := f k]> (overwritten f k l) = overwritten f (S k) l.
Proof.
  intros Hk. unfold overwritten.
  rewrite insert_app_r_alt by (rewrite length_map, length_seq; lia).
  rewrite length_map, length_seq, Nat.sub_diag.
  rewrite seq_S, map_app, <- app_assoc. simpl. f_equal.
  destruct (drop k l) as [|x l'] eqn:Hd.
  - apply (f_equal length) in Hd. rewrite length_drop in Hd. simpl in Hd. lia.
  - simpl. f_equal.
    assert (drop 1 (drop k l) = l') as <- by (by rewrite Hd).
    rewrite drop_drop. f_equal. lia.
Qed.

Lemma overwritten_keep {A} `{Inhabited A} (f : nat -> A) k (l : list A) :
  (k < length l)%nat -> l !!! k = f k ->
  overwritten f k l = overwritten f (S k) l.
Proof.
  intros Hk Heq. rewrite <- overwritten_step by done.
  rewrite <- Heq, <- (overwritten_lookup f k l).
  symmetry. apply list_insert_id.
  rewrite list_lookup_lookup_total_lt; [done|].
  unfold overwritten. rewrite length_app, length_map, length_seq, length_drop. lia.
Qed.

Lemma overwritten_all {A} (f : nat -> A) (l : list A) :
  overwritten f (length l) l = map f (seq 0 (length l)).
Proof. unfold overwritten. by rewrite drop_all, app_nil_r. Qed.

Section ClassLoop.

Variable c : dev_class.
Variable tbl : list dev_status.
Variable prev : list led_state_t.
Variable pe : list bool.

Lemma check_led_overwritten k :
  (k < length prev)%nat ->
  check_led c k (tbl !!! k) (overwritten (fun i => led_of (tbl !!! i)) k prev)
  = (led_line c tbl prev k, overwritten (fun i => led_of (tbl !!! i)) (S k) prev).
Proof.
  intros Hk. unfold check_led, led_line. rewrite overwritten_lookup.
  destruct (led_differs (tbl !!! k) (prev !!! k)) eqn:Hd.
  - by rewrite (overwritten_step (fun i => led_of (tbl !!! i))).
  - f_equal. apply overwritten_keep; [done|]. by apply led_same.
Qed.

Lemma check_media_overwritten k :
  (k < length pe)%nat ->
  check_media c k (tbl !!! k) (overwritten (fun i => empty (tbl !!! i)) k pe)
  = (media_line c tbl pe k, overwritten (fun i => empty (tbl !!! i)) (S k) pe).
Proof.
  intros Hk. unfold check_media, media_line. rewrite overwritten_lookup.
  destruct (negb (eqb (empty (tbl !!! k)) (pe !!! k))) eqn:Hd.
  - by rewrite (overwritten_step (fun i => empty (tbl !!! i))).
  - f_equal. apply overwritten_keep; [done|]. by apply empty_same.
Qed.

(** The loop over a class with media, after its first [k] turns. *)
Lemma poll_led_media_prefix k :
  (k <= length prev)%nat -> (k <= length pe)%nat ->
  fold_left
    (fun '(evs, prev, prev_empty) i =>
       let s := tbl !!! i in
       let '(e1, prev) := check_led c i s prev in
       let '(e2, prev_empty) := check_media c i s prev_empty in
       (evs ++ e1 ++ e2, prev, prev_empty))
    (seq 0 k) ([], prev, pe)
  = (flat_map (fun i => led_line c tbl prev i ++ media_line c tbl pe i) (seq 0 k),
     overwritten (fun i => led_of (tbl !!! i)) k prev,
     overwritten (fun i => empty (tbl !!! i)) k pe).
Proof.
  induction k as [|k IH]; intros H1 H2.
  - simpl. unfold overwritten. simpl. by rewrite !drop_0.
  - rewrite seq_S, fold_left_app, IH by lia. simpl.
    rewrite check_led_overwritten, check_media_overwritten by lia.
    rewrite flat_map_app. simpl. by rewrite app_nil_r.
Qed.

Lemma poll_led_prefix k :
  (k <= length prev)%nat ->
  fold_left
    (fun '(evs, prev) i =>
       let '(e1, prev) := check_led c i (tbl !!! i) prev in
       (evs ++ e1, prev))
    (seq 0 k) ([], prev)
  = (flat_map (led_line c tbl prev) (seq 0 k),
     overwritten (fun i => led_of (tbl !!! i)) k prev).
Proof.
  induction k as [|k IH]; intros H1.
  - simpl. unfold overwritten. simpl. by rewrite !drop_0.
  - rewrite seq_S, fold_left_app, IH by lia. simpl.
    rewrite check_led_overwritten by lia.
    rewrite flat_map_app. simpl. by rewrite app_nil_r.
Qed.

(** A whole loop leaves the arrays equal to the table. *)
Lemma poll_led_media_whole n :
  length prev = Z.to_nat n -> length pe = Z.to_nat n ->
  poll_led_media c tbl n prev pe
  = (flat_map (fun i => led_line c tbl prev i ++ media_line c tbl pe i) (seq 0 (Z.to_nat n)),
     map (fun i => led_of (tbl !!! i)) (seq 0 (Z.to_nat n)),
     map (fun i => empty (tbl !!! i)) (seq 0 (Z.to_nat n))).
Proof.
  intros H1 H2. unfold poll_led_media.
  rewrite poll_led_media_prefix by lia.
  rewrite <- H1 at 2. rewrite overwritten_all.
  rewrite <- H2 at 2. rewrite overwritten_all.
  by rewrite H1, H2.
Qed.

Lemma poll_led_whole n :
  length prev = Z.to_nat n ->
  poll_led c tbl n prev
  = (flat_map (led_line c tbl prev) (seq 0 (Z.to_nat n)),
     map (fun i => led_of (tbl !!! i)) (seq 0 (Z.to_nat n))).
Proof.
  intros H1. unfold poll_led.
  rewrite poll_led_prefix by lia.
  rewrite <- H1 at 2. rewrite overwritten_all. by rewrite H1.
Qed.

End ClassLoop.

Lemma lookup_total_map_seq {A} `{Inhabited A} (f : nat -> A) n i :
  (i < n)%nat -> map f (seq 0 n) !!! i = f i.
Proof.
  intros Hi. rewrite list_lookup_total_alt, list_lookup_fmap.
  by rewrite lookup_seq_lt.
Qed.

(** [poll_events] once every loop is replaced by what it computes. *)
Lemma poll_events_whole (P : platform) (n : Z) (ms : machine_status_t)
    (s : snapshot) :
  n <> 0 -> snapshot_sized P s ->
  poll_events P n ms s =
  (flat_map (fun i => led_line Fdd (fdd ms) (prev_fdd s) i
                      ++ media_line Fdd (fdd ms) (prev_fdd_empty s) i)
            (seq 0 (Z.to_nat (FDD_NUM P)))
   ++ flat_map (fun i => led_line Cdrom (cdrom ms) (prev_cdrom s) i
                         ++ media_line Cdrom (cdrom ms) (prev_cdrom_empty s) i)
               (seq 0 (Z.to_nat (CDROM_NUM P)))
   ++ flat_map (led_line Hdd (hdd ms) (prev_hdd s)) (seq 0 (Z.to_nat (HDD_BUS_USB P)))
   ++ flat_map (fun i => led_line Rdisk (rdisk ms) (prev_rdisk s) i
                         ++ media_line Rdisk (rdisk ms) (prev_rdisk_empty s) i)
               (seq 0 (Z.to_nat (RDISK_NUM P)))
   ++ flat_map (fun i => led_line Mo (mo ms) (prev_mo s) i
                         ++ media_line Mo (mo ms) (prev_mo_empty s) i)
               (seq 0 (Z.to_nat (MO_NUM P)))
   ++ flat_map (led_line Net (net ms) (prev_net s)) (seq 0 (Z.to_nat (NET_CARD_MAX P))),
   poll_init P ms).
Proof.
  intros Hn Hs. unfold poll_events.
  destruct (Z.eqb_spec n 0) as [|_]; [done|].
  pose proof (Hs Fdd) as [? Hf]. pose proof (Hs Cdrom) as [? Hc].
  pose proof (Hs Hdd) as [? _]. pose proof (Hs Rdisk) as [? Hr].
  pose proof (Hs Mo) as [? Hm]. pose proof (Hs Net) as [? _].
  simpl in *.
  rewrite !poll_led_media_whole, !poll_led_whole by auto.
  reflexivity.
Qed.

Lemma poll_init_sized (P : platform) (ms : machine_status_t) :
  snapshot_sized P (poll_init P ms).
Proof.
  intros c. destruct c; simpl; unfold init_leds, init_empty;
    rewrite ?length_map, ?length_seq; auto; split; auto; discriminate.
Qed.

(** The arrays keep their sizes from one turn to the next. *)
Lemma poll_events_sized (P : platform) (n : Z) (ms : machine_status_t)
    (s : snapshot) :
  snapshot_sized P s -> snapshot_sized P (snd (poll_events P n ms s)).
Proof.
  intros Hs. destruct (Z.eq_dec n 0) as [->|Hn]; [done|].
  rewrite poll_events_whole by done. apply poll_init_sized.
Qed.

Lemma poll_run_cons (P : platform) (n : Z) (ms : machine_status_t)
    (rest : list (Z * machine_status_t)) (s : snapshot) :
  poll_run P ((n, ms) :: rest) s
  = (fst (poll_tick P n ms s) ++ fst (poll_run P rest (snd (poll_tick P n ms s))),
     snd (poll_run P rest (snd (poll_tick P n ms s)))).
Proof.
  cbn [poll_run]. destruct (poll_tick P n ms s) as [sent s1]. cbn [fst snd].
  by destruct (poll_run P rest s1).
Qed.

(** C3, as amended.  On the turns of the poller on which no session is
    registered, however many they are and whatever the status table shows,
    no line is broadcast and the previous snapshot is left as it was: the
    table is not sampled, and edge detection does not advance. *)
Theorem poller_idle_without_sessions (P : platform)
    (tables : list machine_status_t) (s : snapshot) :
  poll_run P (map (fun ms => (0, ms)) tables) s = ([], s).
Proof.
  induction tables as [|ms tables IH]; [done|].
  cbn [map]. rewrite poll_run_cons.
  change (poll_tick P 0 ms s) with (@nil action, s).
  cbn [fst snd]. by rewrite IH.
Qed.

(** What went by unseen is reported late: the change of a unit while no
    session was registered is broadcast on the first turn with a session. *)
Lemma poller_reports_late :
  poll_run linux_build [(0, busy_status); (1, busy_status)]
    (poll_init linux_build quiet_status)
  = ([Broadcast (append "!led fdd 0 write" nl);
      Broadcast (append "!media cdrom 0 inserted" nl)],
     poll_init linux_build busy_status).
Proof. vm_compute. reflexivity. Qed.

(** C3 fails as stated: with no session registered and the first floppy
    drive starting to write, the turn broadcasts nothing but leaves the
    snapshot at the idle state instead of the state just observed. *)
Lemma poll_tick_without_sessions_stale :
  let s := poll_init linux_build quiet_status in
  fst (poll_tick linux_build 0 busy_status s) = []
  /\ snd (poll_tick linux_build 0 busy_status s) <> poll_init linux_build busy_status
  /\ prev_fdd (snd (poll_tick linux_build 0 busy_status s)) !!! 0%nat
     <> led_of (fdd busy_status !!! 0%nat).
Proof. repeat split; intros Heq; vm_compute in Heq; discriminate. Qed.

(** ** The registry *)

Lemma ctrl_remove_client_length (idx : Z) (cl : list ctrl_client_t) :
  (length (snd (ctrl_remove_client idx cl)) <= length cl)%nat.
Proof.
  unfold ctrl_remove_client.
  destruct (Z.ltb_spec idx 0); simpl; [lia|].
  destruct (Z.leb_spec (Z.of_nat (length cl)) idx); simpl; [lia|].
  rewrite length_delete; [lia|]. apply lookup_lt_is_Some. lia.
Qed.

Lemma clients_loop_length (turns : nat) :
  forall (i : nat) ready (cl : list ctrl_client_t),
    (length (snd (clients_loop turns i ready cl)) <= length cl)%nat.
Proof.
  induction turns as [|turns IH]; intros i ready cl; simpl; [lia|].
  destruct (cl !! i) as [c|]; simpl; [|lia].
  destruct (fd c <? 0); [apply IH|].
  destruct (ready (fd c)) as [offered|]; [|apply IH].
  destruct (serve_client c offered) as [ls [c'|]].
  - specialize (IH (S i) ready (<[i := c']> cl)).
    destruct (clients_loop turns (S i) ready (<[i := c']> cl)) as [evs cl'].
    simpl in *. rewrite length_insert in IH. lia.
  - pose proof (ctrl_remove_client_length (Z.of_nat i) cl) as Hrm.
    destruct (ctrl_remove_client (Z.of_nat i) cl) as [ev cl1].
    specialize (IH i ready cl1).
    destruct (clients_loop turns i ready cl1) as [evs cl']. simpl in *. lia.
Qed.

(** The turns [serve_clients] allows are enough: more would change
    nothing. *)
Lemma clients_loop_turns (turns : nat) :
  forall (i : nat) ready (cl : list ctrl_client_t),
    (length cl - i <= turns)%nat ->
    clients_loop turns i ready cl = clients_loop (length cl - i) i ready cl.
Proof.
  induction turns as [|turns IH]; intros i ready cl Hle.
  - by replace (length cl - i)%nat with 0%nat by lia.
  - destruct (length cl - i)%nat as [|d] eqn:Hd.
    + simpl. rewrite lookup_ge_None_2 by lia. done.
    + simpl. destruct (cl !! i) as [c|] eqn:Hc; [|done].
      assert (length cl - S i = d)%nat as Hskip by lia.
      destruct (fd c <? 0); [rewrite IH by lia; by rewrite Hskip|].
      destruct (ready (fd c)) as [offered|];
        [|rewrite IH by lia; by rewrite Hskip].
      destruct (serve_client c offered) as [ls [c'|]].
      * rewrite IH by (rewrite length_insert; lia).
        by rewrite length_insert, Hskip.
      * unfold ctrl_remove_client.
        destruct (Z.ltb_spec (Z.of_nat i) 0); [lia|].
        destruct (Z.leb_spec (Z.of_nat (length cl)) (Z.of_nat i)); [lia|].
        cbn [orb]. rewrite Nat2Z.id.
        assert (length (delete i cl) - i = d)%nat as Hdel.
        { rewrite length_delete by (by eexists). lia. }
        rewrite IH by lia. by rewrite Hdel.
Qed.

Lemma serve_clients_length ready cl :
  (length (snd (serve_clients ready cl)) <= length cl)%nat.
Proof. apply clients_loop_length. Qed.

Lemma ctrl_accept_length client_fd cl :
  Z.of_nat (length cl) <= CTRL_MAX_CLIENTS ->
  Z.of_nat (length (snd (ctrl_accept client_fd cl))) <= CTRL_MAX_CLIENTS.
Proof.
  intros Hle. unfold ctrl_accept.
  destruct (client_fd <? 0); simpl; [done|].
  destruct (Z.leb_spec CTRL_MAX_CLIENTS (Z.of_nat (length cl))); simpl; [done|].
  rewrite length_app. simpl. lia.
Qed.

Lemma server_pass_length accepted ready cl :
  Z.of_nat (length cl) <= CTRL_MAX_CLIENTS ->
  Z.of_nat (length (snd (server_pass accepted ready cl))) <= CTRL_MAX_CLIENTS.
Proof.
  intros Hle. unfold server_pass.
  assert (Ha : Z.of_nat (length (snd (match accepted with
                 | Some client_fd => ctrl_accept client_fd cl
                 | None => ([], cl) end))) <= CTRL_MAX_CLIENTS).
  { destruct accepted; [by apply ctrl_accept_length|done]. }
  destruct (match accepted with Some _ => _ | None => _ end) as [ev1 cl1].
  simpl in Ha. pose proof (serve_clients_length ready cl1) as Hs.
  destruct (serve_clients ready cl1) as [ev2 cl2]. simpl in *. lia.
Qed.

Lemma server_run_length turns cl :
  Z.of_nat (length cl) <= CTRL_MAX_CLIENTS ->
  Z.of_nat (length (server_run turns cl)) <= CTRL_MAX_CLIENTS.
Proof.
  revert cl. induction turns as [|[accepted ready] turns IH]; intros cl Hle;
    simpl; [done|].
  apply IH. by apply server_pass_length.
Qed.

(** C6.  From start-up on, whatever connects and whatever the sessions
    send, the registry never holds more than [CTRL_MAX_CLIENTS] = 8 sessions;
    and a connection accepted while eight are registered is written the one
    line [ERR too many clients] and closed at once, the registry being left
    exactly as it was. *)
Theorem registry_bounded :
  CTRL_MAX_CLIENTS = 8
  /\ (forall turns, Z.of_nat (length (server_run turns [])) <= CTRL_MAX_CLIENTS)
  /\ (forall (client_fd : Z) (cl : list ctrl_client_t),
        0 <= client_fd -> Z.of_nat (length cl) = CTRL_MAX_CLIENTS ->
        ctrl_accept client_fd cl
        = ([SysWrite client_fd (append "ERR too many clients" nl);
            SysClose client_fd], cl)).
Proof.
  split; [reflexivity|]. split.
  - intros turns. apply server_run_length. simpl. unfold CTRL_MAX_CLIENTS. lia.
  - intros client_fd cl Hfd Hlen. unfold ctrl_accept.
    destruct (Z.ltb_spec client_fd 0); [lia|].
    rewrite Hlen. by rewrite Z.leb_refl.
Qed.

(** The theorem at work: a ninth connection, on descriptor 12. *)
Lemma registry_bounded_witness :
  ctrl_accept 12 full_house
  = ([SysWrite 12 (append "ERR too many clients" nl); SysClose 12], full_house).
Proof.
  apply (proj2 (proj2 registry_bounded) 12 full_house).
  - lia.
  - reflexivity.
Defined.

(** ** The session buffer *)

Lemma length_string_of_list_ascii (l : list ascii) :
  String.length (string_of_list_ascii l) = length l.
Proof. induction l; simpl; congruence. Qed.

Lemma strchr_lf_Some (s : list ascii) (k : nat) :
  strchr_lf s = Some k ->
  s = take k s ++ LF :: drop (S k) s
  /\ ~ elem_of LF (take k s)
  /\ (k < length s)%nat.
Proof.
  revert k. induction s as [|ch s IH]; intros k; simpl; [discriminate|].
  destruct (Ascii.eqb_spec ch LF) as [->|Hne].
  - intros [= <-]. simpl. rewrite drop_0. split; [done|]. split; [|lia].
    apply not_elem_of_nil.
  - destruct (Ascii.eqb ch NUL); [discriminate|].
    destruct (strchr_lf s) as [k'|] eqn:Hs; simpl; [|discriminate].
    intros [= <-]. destruct (IH k' eq_refl) as (Heq & Hno & Hlt).
    simpl. split; [by rewrite <- Heq|]. split; [|lia].
    rewrite elem_of_cons. intros [?|?]; [congruence|done].
Qed.

Lemma line_within_mono (b1 b2 : nat) (l : string) :
  (b1 <= b2)%nat -> line_within b1 l -> line_within b2 l.
Proof. intros Hle [? ?]. split; [done|lia]. Qed.

Lemma lines_loop_sound (turns : nat) (start : list ascii) ls rest :
  lines_loop turns start = (ls, rest) ->
  unlines (map list_ascii_of_string ls) ++ rest = start
  /\ Forall (line_within (length start)) ls.
Proof.
  revert start ls rest. induction turns as [|turns IH]; intros start ls rest; simpl.
  - intros [= <- <-]. by split.
  - destruct (strchr_lf start) as [k|] eqn:Hk.
    + destruct (lines_loop turns (drop (S k) start)) as [ls' rest'] eqn:Hrec.
      intros [= <- <-]. destruct (IH _ _ _ Hrec) as [Hcat Hall].
      destruct (strchr_lf_Some _ _ Hk) as (Heq & Hno & Hlt).
      split.
      * simpl. rewrite list_ascii_of_string_of_list_ascii.
        rewrite <- !app_assoc. simpl. rewrite Hcat. by rewrite <- Heq.
      * constructor.
        -- split.
           ++ by rewrite list_ascii_of_string_of_list_ascii.
           ++ rewrite length_string_of_list_ascii, length_take. lia.
        -- eapply Forall_impl; [exact Hall|].
           intros l. apply line_within_mono. rewrite length_drop. lia.
    + intros [= <- <-]. by split.
Qed.

(** The turns [process_lines] allows are enough: the loop stops because no
    complete line is left. *)
Lemma lines_loop_complete (turns : nat) (start : list ascii) :
  (length start <= turns)%nat ->
  strchr_lf (snd (lines_loop turns start)) = None.
Proof.
  revert start. induction turns as [|turns IH]; intros start Hlen; simpl.
  - destruct start; [done|simpl in Hlen; lia].
  - destruct (strchr_lf start) as [k|] eqn:Hk; [|done].
    destruct (strchr_lf_Some _ _ Hk) as (_ & _ & Hlt).
    specialize (IH (drop (S k) start)).
    destruct (lines_loop turns (drop (S k) start)) as [ls' rest'].
    simpl in *. apply IH. rewrite length_drop. lia.
Qed.

Lemma process_lines_complete (b : list ascii) :
  strchr_lf (snd (process_lines b)) = None.
Proof. by apply lines_loop_complete. Qed.

(** One wake-up of a session: what it keeps and what it hands over are what
    it held and what it read. *)
Lemma serve_client_sound (c : ctrl_client_t) (offered : list ascii) ls c' :
  buf_len c < CTRL_BUF_SIZE ->
  serve_client c offered = (ls, Some c') ->
  let data := take (Z.to_nat (CTRL_BUF_SIZE - buf_len c - 1)) offered in
  fd c' = fd c
  /\ data <> []
  /\ unlines (map list_ascii_of_string ls) ++ buf c' = buf c ++ data
  /\ Forall (line_within (Z.to_nat (CTRL_BUF_SIZE - 1))) ls
  /\ buf_len c' < CTRL_BUF_SIZE.
Proof.
  intros Hlen. unfold serve_client.
  destruct (Z.leb_spec (CTRL_BUF_SIZE - buf_len c - 1) 0); [discriminate|].
  set (space := Z.to_nat (CTRL_BUF_SIZE - buf_len c - 1)).
  destruct (take space offered) as [|d data] eqn:Hd; [discriminate|].
  destruct (process_lines (buf c ++ d :: data)) as [ls0 rest] eqn:Hp.
  intros [= <- <-]. simpl.
  destruct (lines_loop_sound _ _ _ _ Hp) as [Hcat Hall].
  assert (Hfit : (length (buf c ++ d :: data) <= Z.to_nat (CTRL_BUF_SIZE - 1))%nat).
  { rewrite length_app, <- Hd, length_take. unfold buf_len in *. lia. }
  split; [done|]. split; [done|]. split; [done|]. split.
  - eapply Forall_impl; [exact Hall|]. intros l. by apply line_within_mono.
  - apply (f_equal length) in Hcat. rewrite length_app in Hcat.
    unfold buf_len. simpl. unfold CTRL_BUF_SIZE in *. lia.
Qed.

(** A client is removed without any of its bytes being dispatched. *)
Lemma serve_client_removed (c : ctrl_client_t) (offered : list ascii) ls :
  serve_client c offered = (ls, None) -> ls = [].
Proof.
  unfold serve_client.
  destruct (_ <=? 0); [by intros [= <-]|].
  destruct (take _ offered); [by intros [= <-]|].
  destruct (process_lines _). discriminate.
Qed.

Lemma unlines_app (a b : list (list ascii)) :
  unlines (a ++ b) = unlines a ++ unlines b.
Proof. apply flat_map_app. Qed.

Lemma take_length_take {A} (j : nat) (l : list A) :
  take (length (take j l)) l = take j l.
Proof.
  rewrite length_take. destruct (Nat.le_gt_cases j (length l)).
  - by rewrite Nat.min_l.
  - rewrite Nat.min_r by lia. by rewrite !take_ge by lia.
Qed.

(** A session fed a stream: the lines handed over so far, followed by what
    the session holds, are what it held followed by what it has read. *)
Lemma session_run_sound (sizes : list nat) :
  forall (pending : list ascii) (c : ctrl_client_t) ls r,
    buf_len c < CTRL_BUF_SIZE ->
    session_run sizes pending c = (ls, r) ->
    Forall (line_within (Z.to_nat (CTRL_BUF_SIZE - 1))) ls
    /\ match r with
       | Some c' =>
           buf_len c' < CTRL_BUF_SIZE
           /\ exists read unread,
               pending = read ++ unread
               /\ unlines (map list_ascii_of_string ls) ++ buf c' = buf c ++ read
               /\ (unread = [] \/ (length sizes <= length read)%nat)
       | None =>
           exists tail,
             unlines (map list_ascii_of_string ls) ++ tail = buf c ++ pending
       end.
Proof.
  induction sizes as [|sz sizes IH]; intros pending c ls r Hlen.
  - destruct pending; simpl; intros [= <- <-]; (split; [constructor|]);
      (split; [done|]); eexists [], _; simpl; rewrite app_nil_r;
      (split; [done|]); (split; [done|]); right; lia.
  - destruct pending as [|p pending].
    { simpl. intros [= <- <-]. split; [constructor|]. split; [done|].
      exists [], []. simpl. rewrite app_nil_r. auto. }
    cbn [session_run].
    set (stream := p :: pending).
    set (offered := take (S sz) stream).
    set (space := Z.to_nat (CTRL_BUF_SIZE - buf_len c - 1)).
    destruct (serve_client c offered) as [ls1 [c'|]] eqn:Hserve.
    + destruct (serve_client_sound _ _ _ _ Hlen Hserve)
        as (Hfd & Hdata & Hcat & Hall & Hlen').
      fold space in Hdata, Hcat.
      destruct (session_run sizes (drop (length (take space offered)) stream) c')
        as [ls2 r2] eqn:Hrec.
      intros [= <- <-].
      destruct (IH _ _ _ _ Hlen' Hrec) as [Hall2 Hr2].
      assert (Hdata_eq : take space offered
                         = take (length (take space offered)) stream).
      { unfold offered at 1 2. rewrite take_take.
        by rewrite take_length_take. }
      assert (Hstream : stream = take space offered
                                 ++ drop (length (take space offered)) stream).
      { rewrite Hdata_eq at 1. by rewrite take_drop. }
      split; [by apply Forall_app|].
      rewrite map_app, unlines_app.
      destruct r2 as [c''|].
      * destruct Hr2 as (Hlen'' & read & unread & Hsplit & Hcat2 & Hend).
        split; [done|].
        exists (take space offered ++ read), unread. split; [|split].
        -- rewrite <- app_assoc, <- Hsplit. exact Hstream.
        -- rewrite <- app_assoc, Hcat2, !app_assoc. by rewrite Hcat.
        -- destruct Hend as [?|Hle]; [by left|right].
           rewrite length_app. simpl.
           destruct (take space offered); [done|simpl; lia].
      * destruct Hr2 as (tail & Hcat2). exists tail.
        rewrite <- app_assoc, Hcat2, app_assoc, Hcat, <- app_assoc.
        by rewrite <- Hstream.
    + intros [= <- <-]. split; [constructor|]. by exists (buf c ++ stream).
Qed.

Lemma split_at_lf (a b x y : list ascii) :
  ~ elem_of LF a -> ~ elem_of LF b ->
  a ++ LF :: x = b ++ LF :: y -> a = b /\ x = y.
Proof.
  revert b. induction a as [|ch a IH]; intros [|ch' b] Ha Hb; simpl.
  - by intros [= ->].
  - intros [= <- _]. exfalso. apply Hb. by left.
  - intros [= -> _]. exfalso. apply Ha. by left.
  - intros [= -> Heq].
    destruct (IH b) as [-> ->]; [| |done|done].
    + intros ?. apply Ha. by right.
    + intros ?. apply Hb. by right.
Qed.

(** Lines all shorter than [l] cannot reach into [l]: if they are read off
    the front of a stream in which [l] follows the lines [before], they are
    the first of [before], and [l] is still to come. *)
Lemma unlines_long_line (ds : list (list ascii)) :
  forall (before : list (list ascii)) (tail l post : list ascii),
    Forall (fun d => ~ elem_of LF d /\ (length d < length l)%nat) ds ->
    Forall (fun p => ~ elem_of LF p) before ->
    ~ elem_of LF l ->
    unlines ds ++ tail = unlines before ++ l ++ LF :: post ->
    exists more, before = ds ++ more /\ tail = unlines more ++ l ++ LF :: post.
Proof.
  induction ds as [|d ds IH]; intros before tail l post Hds Hbefore Hl Heq.
  - by exists before.
  - apply Forall_cons in Hds as [[Hd Hshort] Hds].
    simpl in Heq. rewrite <- !app_assoc in Heq. simpl in Heq.
    destruct before as [|p before].
    + simpl in Heq. apply split_at_lf in Heq as [-> _]; [lia|done|done].
    + apply Forall_cons in Hbefore as [Hp Hbefore].
      simpl in Heq. rewrite <- !app_assoc in Heq. simpl in Heq.
      apply split_at_lf in Heq as [-> Heq]; [|done|done].
      destruct (IH before tail l post Hds Hbefore Hl Heq) as (more & -> & ->).
      by exists more.
Qed.

Lemma map_string_of_list_ascii (ls : list string) :
  map string_of_list_ascii (map list_ascii_of_string ls) = ls.
Proof.
  induction ls as [|l ls IH]; simpl; [done|].
  by rewrite string_of_list_ascii_of_string, IH.
Qed.

(** Every session in the registry keeps its buffer below capacity. *)
Lemma ctrl_accept_buffers (client_fd : Z) (cl : list ctrl_client_t) :
  Forall buffer_ok cl -> Forall buffer_ok (snd (ctrl_accept client_fd cl)).
Proof.
  intros Hcl. unfold ctrl_accept.
  destruct (client_fd <? 0); [done|].
  destruct (CTRL_MAX_CLIENTS <=? _); [done|]. simpl.
  apply Forall_app. split; [done|]. by repeat constructor.
Qed.

Lemma ctrl_remove_client_buffers (idx : Z) (cl : list ctrl_client_t) :
  Forall buffer_ok cl -> Forall buffer_ok (snd (ctrl_remove_client idx cl)).
Proof.
  intros Hcl. unfold ctrl_remove_client. destruct (_ || _); [done|].
  simpl. by apply Forall_delete.
Qed.

Lemma clients_loop_buffers (turns : nat) :
  forall (i : nat) ready (cl : list ctrl_client_t),
    Forall buffer_ok cl ->
    Forall buffer_ok (snd (clients_loop turns i ready cl)).
Proof.
  induction turns as [|turns IH]; intros i ready cl Hcl; simpl; [done|].
  destruct (cl !! i) as [c|] eqn:Hc; [|done].
  destruct (fd c <? 0); [by apply IH|].
  destruct (ready (fd c)) as [offered|]; [|by apply IH].
  destruct (serve_client c offered) as [ls [c'|]] eqn:Hserve.
  - assert (Hok : buffer_ok c) by (by eapply (Forall_lookup_1 _ cl)).
    destruct (serve_client_sound _ _ _ _ Hok Hserve) as (_ & _ & _ & _ & Hok').
    specialize (IH (S i) ready (<[i := c']> cl)).
    destruct (clients_loop turns (S i) ready (<[i := c']> cl)) as [evs cl'].
    simpl in *. apply IH. by apply Forall_insert.
  - pose proof (ctrl_remove_client_buffers (Z.of_nat i) cl Hcl) as Hrm.
    destruct (ctrl_remove_client (Z.of_nat i) cl) as [ev cl1].
    specialize (IH i ready cl1).
    destruct (clients_loop turns i ready cl1) as [evs cl']. simpl in *.
    by apply IH.
Qed.

Lemma server_run_buffers turns (cl : list ctrl_client_t) :
  Forall buffer_ok cl -> Forall buffer_ok (server_run turns cl).
Proof.
  revert cl. induction turns as [|[accepted ready] turns IH]; intros cl Hcl;
    simpl; [done|].
  apply IH. unfold server_pass.
  assert (Ha : Forall buffer_ok (snd (match accepted with
                 | Some client_fd => ctrl_accept client_fd cl
                 | None => ([], cl) end))).
  { destruct accepted; [by apply ctrl_accept_buffers|done]. }
  destruct (match accepted with Some _ => _ | None => _ end) as [ev1 cl1].
  simpl in Ha.
  pose proof (clients_loop_buffers (length cl1) 0 ready cl1 Ha) as Hs.
  unfold serve_clients.
  destruct (clients_loop (length cl1) 0 ready cl1) as [ev2 cl2]. done.
Qed.

(** C5.  Whatever connects and whatever bytes the sessions are fed, however
    the kernel cuts them, no session ever holds [CTRL_BUF_SIZE] bytes or
    more; and when the stream of a session holds a line that, with its line
    feed, does not fit below [CTRL_BUF_SIZE], the session is removed, the
    lines handed to the dispatcher being no more than the complete lines
    that came before it: nothing of the long line is ever dispatched. *)
Theorem session_buffer_bounded :
  (forall turns, Forall buffer_ok (server_run turns []))
  /\ (forall (sizes : list nat) (pending : list ascii) (c c' : ctrl_client_t) ls,
        buf_len c < CTRL_BUF_SIZE ->
        session_run sizes pending c = (ls, Some c') ->
        buf_len c' < CTRL_BUF_SIZE)
  /\ (forall (sizes : list nat) (pending : list ascii) (c : ctrl_client_t)
             (before : list (list ascii)) (l post : list ascii),
        buf_len c < CTRL_BUF_SIZE ->
        Forall (fun p => ~ elem_of LF p) before ->
        ~ elem_of LF l ->
        CTRL_BUF_SIZE <= Z.of_nat (length l) + 1 ->
        buf c ++ pending = unlines before ++ l ++ LF :: post ->
        (length pending <= length sizes)%nat ->
        exists ds,
          session_run sizes pending c = (ds, None)
          /\ prefix ds (map string_of_list_ascii before)).
Proof.
  split; [|split].
  - intros turns. by apply server_run_buffers.
  - intros sizes pending c c' ls Hlen Hrun.
    by destruct (session_run_sound _ _ _ _ _ Hlen Hrun) as [_ [? _]].
  - intros sizes pending c before l post Hlen Hbefore Hl Hlong Hstream Hsizes.
    destruct (session_run sizes pending c) as [ds r] eqn:Hrun.
    destruct (session_run_sound _ _ _ _ _ Hlen Hrun) as [Hall Hr].
    assert (Hds : Forall (fun d => ~ elem_of LF d /\ (length d < length l)%nat)
                         (map list_ascii_of_string ds)).
    { apply Forall_fmap. eapply Forall_impl; [exact Hall|].
      intros d [Hno Hshort]. simpl. split; [done|].
      rewrite <- (string_of_list_ascii_of_string d) in Hshort.
      rewrite length_string_of_list_ascii in Hshort.
      unfold CTRL_BUF_SIZE in *. lia. }
    destruct r as [c'|].
    + exfalso. destruct Hr as (Hlen' & read & unread & Hsplit & Hcat & Hend).
      assert (unread = []) as ->.
      { destruct Hend as [?|Hle]; [done|].
        apply (f_equal length) in Hsplit. rewrite length_app in Hsplit.
        destruct unread; [done|simpl in Hsplit; lia]. }
      rewrite app_nil_r in Hsplit. subst read. rewrite Hstream in Hcat.
      destruct (unlines_long_line _ _ _ _ _ Hds Hbefore Hl Hcat) as (more & _ & Hbuf).
      apply (f_equal length) in Hbuf.
      rewrite !length_app in Hbuf. simpl in Hbuf.
      unfold buf_len, CTRL_BUF_SIZE in *. lia.
    + exists ds. split; [done|].
      destruct Hr as (tail & Hcat). rewrite Hstream in Hcat.
      destruct (unlines_long_line _ _ _ _ _ Hds Hbefore Hl Hcat) as (more & -> & _).
      rewrite map_app, map_string_of_list_ascii. by eexists.
Qed.

(** The theorem at work: [status], then a line of 4095 letters, delivered
    at most 101 bytes at a time to a session just accepted. *)
Lemma session_buffer_bounded_witness :
  exists ds,
    session_run (replicate 5000 100%nat) long_line_stream (fresh_client 5)
    = (ds, None)
    /\ prefix ds ["status"%string].
Proof.
  apply (proj2 (proj2 session_buffer_bounded) (replicate 5000 100%nat)
           long_line_stream
           (fresh_client 5) [list_ascii_of_string "status"] long_line []).
  - vm_compute. reflexivity.
  - apply Forall_cons. split; [|by apply Forall_nil].
    intros Hin. apply list_elem_of_In in Hin. vm_compute in Hin.
    repeat (destruct Hin as [Hin|Hin]; [discriminate|]). exact Hin.
  - unfold long_line. intros [Heq _]%elem_of_replicate. discriminate.
  - unfold long_line. rewrite length_replicate. vm_compute. discriminate.
  - reflexivity.
  - apply Nat.leb_le. vm_compute. reflexivity.
Defined.

(** ** C strings *)

Lemma strlen_append (a b : string) : strlen (append a b) = strlen a + strlen b.
Proof.
  unfold strlen. induction a as [|ch a IH]; simpl String.length; [lia|].
  rewrite !Nat2Z.inj_succ. lia.
Qed.

Lemma strlen_nonneg (s : string) : 0 <= strlen s.
Proof. unfold strlen. lia. Qed.

Lemma strlen_cons (ch : ascii) (s : string) : strlen (String ch s) = 1 + strlen s.
Proof. unfold strlen. simpl String.length. lia. Qed.

Lemma append_nil_r (s : string) : append s EmptyString = s.
Proof. induction s; simpl; congruence. Qed.

Lemma append_assoc (a b c : string) :
  append (append a b) c = append a (append b c).
Proof. induction a; simpl; congruence. Qed.

Lemma append_eq_nil (a b : string) :
  append a b = EmptyString -> a = EmptyString /\ b = EmptyString.
Proof. destruct a; simpl; [done|discriminate]. Qed.

Lemma get_last_cons (ch : ascii) (s : string) :
  String.get (String.length s) (String ch s) = Some (last_char (String ch s)).
Proof.
  revert ch. induction s as [|ch' s IH]; intros ch; [done|].
  change (last_char (String ch (String ch' s))) with (last_char (String ch' s)).
  simpl. apply IH.
Qed.

Lemma get_last (s : string) :
  s <> EmptyString -> String.get (String.length s - 1) s = Some (last_char s).
Proof.
  destruct s as [|ch s]; [done|]. intros _.
  replace (String.length (String ch s) - 1)%nat with (String.length s)
    by (simpl; lia).
  apply get_last_cons.
Qed.

Lemma last_char_append (a b : string) :
  b <> EmptyString -> last_char (append a b) = last_char b.
Proof.
  intros Hb. induction a as [|ch a IH]; [done|].
  simpl append. destruct (append a b) eqn:Hab.
  - apply append_eq_nil in Hab as [_ ?]. done.
  - exact IH.
Qed.

Lemma strlen_skip_quote (tok : string) : strlen (skip_quote tok) <= strlen tok.
Proof.
  unfold skip_quote. destruct (is_quote (first_char tok)); [|lia].
  destruct tok; simpl advance; [lia|]. rewrite strlen_cons. lia.
Qed.

Section PathBufferFacts.

Variable P : platform.
Hypothesis size_t_holds_path : PATH_MAX P <= 2 ^ 64.

(** The test on the last character reads inside the buffer as soon as the
    path is not empty. *)
Lemma ends_in_quote_nonempty (s : string) :
  s <> EmptyString -> strlen s <= PATH_MAX P ->
  ends_in_quote P s = Done (closes s).
Proof.
  intros Hs Hlen. unfold ends_in_quote, fn_get, size_sub, closes.
  assert (0 < strlen s).
  { destruct s; [done|]. rewrite strlen_cons. pose proof (strlen_nonneg s). lia. }
  rewrite Z.mod_small by lia.
  destruct (Z.leb_spec 0 (strlen s - 1)); [|lia].
  destruct (Z.ltb_spec (strlen s - 1) (PATH_MAX P)); [|lia]. simpl.
  replace (Z.to_nat (strlen s - 1)) with (String.length s - 1)%nat
    by (unfold strlen; lia).
  by rewrite get_last.
Qed.

(** On the empty path it reads at index [SIZE_MAX]. *)
Lemma ends_in_quote_empty :
  PATH_MAX P < 2 ^ 64 ->
  ends_in_quote P EmptyString = Fault (OutOfBounds (2 ^ 64 - 1)).
Proof.
  intros Hlt. unfold ends_in_quote, fn_get.
  change (size_sub (strlen EmptyString) 1) with 18446744073709551615.
  change (2 ^ 64 - 1) with 18446744073709551615.
  change (2 ^ 64) with 18446744073709551616 in Hlt.
  destruct (Z.ltb_spec 18446744073709551615 (PATH_MAX P)); [lia|].
  by rewrite andb_false_r.
Qed.

Lemma strip_quote_nonempty (s : string) :
  s <> EmptyString -> strlen s <= PATH_MAX P ->
  strip_quote P s = Done (if closes s then drop_last s else s).
Proof.
  intros Hs Hlen. unfold strip_quote. by rewrite ends_in_quote_nonempty.
Qed.

Lemma fn_strcat_fits (fn s : string) :
  strlen fn + strlen s + 1 <= PATH_MAX P ->
  fn_strcat P fn s = Done (append fn s).
Proof.
  intros Hfit. unfold fn_strcat.
  by destruct (Z.leb_spec (strlen fn + strlen s + 1) (PATH_MAX P)); [|lia].
Qed.

End PathBufferFacts.

(** ** The quoted-path parser *)

Lemma join_cons (w : string) (ws : list string) :
  ws <> [] -> join (w :: ws) = append w (String SP (join ws)).
Proof. by destruct ws. Qed.

Lemma first_index_Some_nonempty {A} (f : A -> bool) (l : list A) k :
  first_index f l = Some k -> take (S k) l <> [].
Proof. by destruct l. Qed.

Lemma loop_result_cons (tok : string) (rest : list string) :
  loop_result (tok :: rest)
  = if closes (skip_quote tok)
    then (skip_quote tok,
          match rest with
          | next :: _ => Some (to_uint8 (atoi next))
          | [] => None
          end)
    else (append (skip_quote tok) (String SP (fst (loop_result rest))),
          snd (loop_result rest)).
Proof.
  unfold loop_result. cbn [map first_index].
  destruct (closes (skip_quote tok)).
  - cbn [option_map take join]. rewrite take_0. by destruct rest.
  - destruct (first_index closes (map skip_quote rest)) as [k|] eqn:Hk;
      cbn [option_map fst snd spaced].
    + change (take (S (S k)) (skip_quote tok :: map skip_quote rest))
        with (skip_quote tok :: take (S k) (map skip_quote rest)).
      rewrite join_cons by (by eapply first_index_Some_nonempty).
      done.
    + done.
Qed.

Lemma path_bytes_nonneg (toks : list string) : 0 <= path_bytes toks.
Proof.
  induction toks as [|tok toks IH]; simpl; [lia|].
  pose proof (strlen_nonneg tok). lia.
Qed.

Lemma loop_result_bound (toks : list string) :
  strlen (fst (loop_result toks)) <= path_bytes toks.
Proof.
  induction toks as [|tok toks IH]; [done|].
  rewrite loop_result_cons. simpl path_bytes.
  pose proof (strlen_skip_quote tok). pose proof (path_bytes_nonneg toks).
  destruct (closes (skip_quote tok)); cbn [fst]; [lia|].
  rewrite strlen_append, strlen_cons. lia.
Qed.

Lemma last_char_cons (ch : ascii) (s : string) :
  s <> EmptyString -> last_char (String ch s) = last_char s.
Proof. by destruct s. Qed.

Lemma closes_nonempty (w : string) : closes w = true -> w <> EmptyString.
Proof. by intros Hc ->. Qed.

(** The words up to a closing word, joined: not empty, and ending in a
    quote. *)
Lemma join_closing (ws : list string) :
  forall k, first_index closes ws = Some k ->
            join (take (S k) ws) <> EmptyString
            /\ closes (join (take (S k) ws)) = true.
Proof.
  induction ws as [|w ws IH]; intros k; [done|].
  cbn [first_index]. destruct (closes w) eqn:Hc.
  - intros [= <-]. cbn [take join]. rewrite take_0. cbn [join].
    split; [by apply closes_nonempty|done].
  - destruct (first_index closes ws) as [k'|] eqn:Hk'; [|done].
    intros [= <-]. destruct (IH k' eq_refl) as [Hne Hcl].
    change (take (S (S k')) (w :: ws)) with (w :: take (S k') ws).
    rewrite join_cons by (by eapply first_index_Some_nonempty).
    split; [by destruct w|].
    unfold closes. rewrite last_char_append by done.
    by rewrite last_char_cons.
Qed.

(** Words each followed by a space: not empty, and ending in a space. *)
Lemma spaced_ends_in_space (ws : list string) :
  ws <> [] -> spaced ws <> EmptyString /\ last_char (spaced ws) = SP.
Proof.
  induction ws as [|w ws IH]; [done|]. intros _. cbn [spaced].
  split; [by destruct w|].
  rewrite last_char_append by done.
  destruct ws as [|w' ws]; [done|].
  destruct IH as [Hne Hsp]; [done|]. by rewrite last_char_cons.
Qed.

Section ParserFacts.

Variable P : platform.
Hypothesis size_t_holds_path : PATH_MAX P <= 2 ^ 64.

(** The quoted loop, entered with a path that is empty (and a first word
    that is not) or that ends in a space, and with room for every token:
    no error, no fault, and the words appended as [loop_result] says. *)
Lemma quoted_loop_spec (toks : list string) :
  forall fn : string,
    (fn = EmptyString /\ skip_quote (hd EmptyString toks) <> EmptyString)
    \/ (fn <> EmptyString /\ last_char fn = SP) ->
    strlen fn + path_bytes toks < PATH_MAX P ->
    quoted_loop P toks fn false
    = Done (false, append fn (fst (loop_result toks)), snd (loop_result toks)).
Proof.
  induction toks as [|tok rest IH]; intros fn Hfn Hroom.
  - cbn. by rewrite append_nil_r.
  - cbn [quoted_loop]. simpl path_bytes in Hroom.
    pose proof (strlen_nonneg tok). pose proof (strlen_nonneg fn).
    pose proof (strlen_skip_quote tok). pose proof (path_bytes_nonneg rest).
    pose proof (strlen_nonneg (skip_quote tok)).
    destruct (Z.leb_spec (PATH_MAX P) (strlen fn + strlen tok)); [lia|].
    cbn [orb]. rewrite fn_strcat_fits by lia. cbn [bind].
    assert (Hne : append fn (skip_quote tok) <> EmptyString).
    { intros Heq. apply append_eq_nil in Heq as [-> Hw].
      destruct Hfn as [[_ Hhd]|[? _]]; [|done]. by cbn in Hhd. }
    rewrite ends_in_quote_nonempty; [|done|done|rewrite strlen_append; lia].
    cbn [bind].
    assert (Hcl : closes (append fn (skip_quote tok)) = closes (skip_quote tok)).
    { destruct (skip_quote tok) as [|ch w] eqn:Hw.
      - rewrite append_nil_r.
        destruct Hfn as [[_ Hhd]|[_ Hsp]]; [by cbn in Hhd|].
        unfold closes. by rewrite Hsp.
      - unfold closes. by rewrite last_char_append. }
    rewrite Hcl, loop_result_cons.
    destruct (closes (skip_quote tok)); cbn [fst snd]; [done|].
    rewrite fn_strcat_fits
      by (rewrite strlen_append; change (strlen (chr SP)) with 1; lia).
    cbn [bind]. rewrite IH.
    + by rewrite !append_assoc.
    + right. split.
      * intros Heq. by apply append_eq_nil in Heq as [_ ?].
      * by rewrite last_char_append.
    + rewrite !strlen_append. change (strlen (chr SP)) with 1. lia.
Qed.

(** C2, as amended.  On a load line with three arguments or more whose
    third token is neither empty nor a lone quote, and whose tokens from
    the third on fit in the path buffer, the parser returns without error
    or fault.  When the third token opens with a quote, the path is made
    of the tokens from the third on, each without its leading quote if it
    has one, joined by single spaces, up to the first that ends in a quote
    of either kind, without that last quote; the flag is the token after
    it, when there is one.  Otherwise the path is the third token, without
    its last character when that is a quote, and the flag is the fourth
    token. *)
Theorem media_args_parsed (xargv : list string) :
  (4 <= length xargv)%nat ->
  skip_quote (nth 2 xargv EmptyString) <> EmptyString ->
  path_bytes (drop 2 xargv) < PATH_MAX P ->
  ctrl_process_media_commands_3 P xargv
  = Done {| m_err := false;
            m_id := to_uint8 (atoi (nth 1 xargv EmptyString));
            m_fn := fst (amended_media_args xargv);
            m_wp := snd (amended_media_args xargv) |}.
Proof.
  intros Hargc Hthird Hroom.
  destruct xargv as [|x0 [|x1 [|x2 rest]]]; try (simpl in Hargc; lia).
  unfold ctrl_process_media_commands_3, amended_media_args.
  cbn [nth drop] in *.
  pose proof (strlen_nonneg x2). pose proof (path_bytes_nonneg rest).
  simpl path_bytes in Hroom.
  destruct (is_quote (first_char x2)) eqn:Hq.
  - rewrite quoted_loop_spec; [|by left|].
    2:{ change (strlen EmptyString) with 0.
        change (path_bytes (x2 :: rest)) with (strlen x2 + 1 + path_bytes rest).
        lia. }
    cbn [bind append fst snd].
    pose proof (loop_result_bound (x2 :: rest)) as Hb.
    change (path_bytes (x2 :: rest)) with (strlen x2 + 1 + path_bytes rest) in Hb.
    unfold loop_result in *.
    destruct (first_index closes (map skip_quote (x2 :: rest))) as [k|] eqn:Hk;
      cbn [fst snd] in *.
    + destruct (join_closing _ _ Hk) as [Hne Hcl].
      rewrite strip_quote_nonempty by (done || lia).
      by rewrite Hcl.
    + destruct (spaced_ends_in_space (map skip_quote (x2 :: rest))) as [Hne Hsp];
        [done|].
      rewrite strip_quote_nonempty by (done || lia).
      unfold closes. by rewrite Hsp.
  - unfold skip_quote in Hthird. rewrite Hq in Hthird.
    destruct (Z.ltb_spec (strlen x2) (PATH_MAX P)); [|lia].
    cbn [bind]. rewrite strip_quote_nonempty by (done || lia).
    done.
Qed.

End ParserFacts.

(** The theorem at work, on the tokens of
    [fddload 0 '/path with space.img' 1]. *)
Lemma media_args_parsed_witness :
  ctrl_process_media_commands_3 linux_build
    ["fddload"; "0"; "'/path"; "with"; "space.img'"; "1"]%string
  = Done {| m_err := false; m_id := 0;
            m_fn := "/path with space.img"; m_wp := Some 1 |}.
Proof.
  apply (media_args_parsed linux_build).
  - vm_compute. discriminate.
  - simpl. lia.
  - vm_compute. discriminate.
  - vm_compute. reflexivity.
Defined.

(** C2 fails as stated.  A quote of the other kind closes the path (in
    [other] the third token opens with a single quote and ends in a double
    quote: the path is [a] and the flag comes from [b']); a later token
    loses its leading quote ([fddload 0 'a 'b c' 1]: the path is [a b c]);
    and a third token that opens with no quote loses a closing one
    ([fddload 0 a' 1]: the path is [a]). *)
Lemma media_args_not_as_claimed :
  let other := ["fddload"; "0"; String SQUOTE (String "a" (chr DQUOTE)); "b'"; "1"]%string in
  let inner := ["fddload"; "0"; "'a"; "'b"; "c'"; "1"]%string in
  let plain := ["fddload"; "0"; "a'"; "1"]%string in
  (claimed_media_args other = (String "a" (String DQUOTE " b"), Some 1)
   /\ ctrl_process_media_commands_3 linux_build other
      = Done {| m_err := false; m_id := 0; m_fn := "a"; m_wp := Some 0 |})
  /\ (claimed_media_args inner = ("a 'b c"%string, Some 1)
      /\ ctrl_process_media_commands_3 linux_build inner
         = Done {| m_err := false; m_id := 0; m_fn := "a b c"; m_wp := Some 1 |})
  /\ (claimed_media_args plain = ("a'"%string, Some 1)
      /\ ctrl_process_media_commands_3 linux_build plain
         = Done {| m_err := false; m_id := 0; m_fn := "a"; m_wp := Some 1 |}).
Proof. vm_compute. repeat split. Qed.

(** ** Tokens *)

Lemma strcspn_token (w bad : string) :
  no_char bad w = true -> strcspn w bad = String.length w.
Proof.
  induction w as [|ch w IH]; [done|]. simpl.
  destruct (mem ch bad); [done|]. simpl. intros Hw. by rewrite IH.
Qed.

Lemma strcspn_append (w x bad : string) (ch : ascii) :
  no_char bad w = true -> mem ch bad = true ->
  strcspn (append w (String ch x)) bad = String.length w.
Proof.
  intros Hw Hch. induction w as [|ch' w IH]; simpl.
  - by rewrite Hch.
  - simpl in Hw. destruct (mem ch' bad); [done|]. simpl in *. by rewrite IH.
Qed.

Lemma advance_append (w x : string) : advance (String.length w) (append w x) = x.
Proof. induction w; simpl; [by destruct x|done]. Qed.

Lemma advance_all (w : string) : advance (String.length w) w = EmptyString.
Proof. induction w; simpl; done. Qed.

Lemma cut_append (w x : string) : cut (String.length w) (append w x) = w.
Proof. induction w; simpl; [done|congruence]. Qed.

Lemma cut_whole (n : nat) (s : string) :
  (String.length s <= n)%nat -> cut n s = s.
Proof.
  revert n. induction s as [|ch s IH]; intros [|n]; simpl; try done; try lia.
  intros Hle. rewrite IH; [done|lia].
Qed.

Lemma no_char_subset (bad bad' w : string) :
  (forall ch, mem ch bad' = true -> mem ch bad = true) ->
  no_char bad w = true -> no_char bad' w = true.
Proof.
  intros Hsub. induction w as [|ch w IH]; [done|]. simpl.
  intros [Hch Hw]%andb_true_iff. rewrite IH by done.
  destruct (mem ch bad') eqn:Hm; [|done].
  by rewrite (Hsub _ Hm) in Hch.
Qed.

Lemma token_no_nul (w : string) :
  is_token w = true -> no_char (chr NUL) w = true.
Proof.
  apply no_char_subset. intros ch. simpl.
  destruct (Ascii.eqb ch NUL); [by rewrite !orb_true_r|done].
Qed.

Lemma token_no_eol (w : string) :
  is_token w = true -> no_char (String CR (chr LF)) w = true.
Proof.
  apply no_char_subset. intros ch. simpl.
  destruct (Ascii.eqb ch CR), (Ascii.eqb ch LF); by rewrite ?orb_true_r.
Qed.

Lemma token_no_space (w : string) :
  is_token w = true -> no_char (chr SP) w = true.
Proof.
  apply no_char_subset. intros ch. simpl.
  by destruct (Ascii.eqb ch SP).
Qed.

Lemma no_char_join (bad : string) (ws : list string) :
  mem SP bad = false ->
  Forall (fun w => no_char bad w = true) ws -> no_char bad (join ws) = true.
Proof.
  intros Hsp. induction ws as [|w ws IH]; [done|]. intros Hall.
  apply Forall_cons in Hall as [Hw Hall].
  destruct ws as [|w' ws]; [done|]. rewrite join_cons by done.
  specialize (IH Hall). revert IH. generalize (join (w' :: ws)). intros x Hx.
  induction w as [|ch w IHw]; simpl.
  - by rewrite Hsp.
  - simpl in Hw. destruct (mem ch bad); [done|]. simpl in *. by apply IHw.
Qed.

Lemma strdup_clean (s : string) : no_char (chr NUL) s = true -> strdup s = s.
Proof.
  induction s as [|ch s IH]; [done|]. simpl.
  rewrite orb_false_r. destruct (Ascii.eqb ch NUL); [done|]. simpl.
  intros Hs. by rewrite IH.
Qed.

Lemma split_args_step (slots : nat) (linespn : option string) :
  split_args (S (S slots)) linespn
  = match ctrl_strsep linespn (chr SP) with
    | (None, _) => []
    | (Some tok, rest) => tok :: split_args (S slots) rest
    end.
Proof. reflexivity. Qed.

(** A line made of tokens joined by single spaces is split back into them,
    as long as they are fewer than the entries of [xargv]. *)
Lemma split_args_join (ws : list string) :
  forall slots : nat,
    ws <> [] -> Forall (fun w => is_token w = true) ws ->
    (length ws < slots)%nat ->
    split_args slots (Some (join ws)) = ws.
Proof.
  induction ws as [|w ws IH]; [done|]. intros slots _ Hall Hslots.
  apply Forall_cons in Hall as [Hw Hall].
  destruct slots as [|[|slots]]; [simpl in *; lia..|].
  assert (Hsp : no_char (chr SP) w = true) by (by apply token_no_space).
  destruct ws as [|w' ws].
  - rewrite split_args_step. cbn [join ctrl_strsep].
    rewrite strcspn_token by done.
    by rewrite advance_all.
  - rewrite join_cons by done. rewrite split_args_step. cbn [ctrl_strsep].
    rewrite strcspn_append by done.
    rewrite advance_append, cut_append. f_equal.
    apply IH; [done|done|simpl in *; lia].
Qed.

Section DispatchFacts.

Variable P : platform.
Variable H : host.

(** A line of tokens is dispatched on its tokens. *)
Lemma handle_command_tokens (ws : list string) :
  Forall (fun w => is_token w = true) ws ->
  (length ws < XARGV_SIZE)%nat ->
  join ws <> EmptyString ->
  ctrl_handle_command P H (join ws) = dispatch P H ws.
Proof.
  intros Hall Hlen Hne. unfold ctrl_handle_command.
  assert (Hws : ws <> []) by (by intros ->).
  rewrite strdup_clean.
  2:{ apply no_char_join; [done|]. eapply Forall_impl; [exact Hall|].
      apply token_no_nul. }
  rewrite strcspn_token.
  2:{ apply no_char_join; [done|]. eapply Forall_impl; [exact Hall|].
      apply token_no_eol. }
  rewrite cut_whole by lia.
  rewrite split_args_join by done.
  by destruct (join ws).
Qed.

End DispatchFacts.

(** ** Command names *)

Lemma tolower_idem (ch : ascii) : tolower (tolower ch) = tolower ch.
Proof. by destruct ch as [[] [] [] [] [] [] [] []]. Qed.

Lemma strcasecmp_lower (a b : string) :
  strcasecmp a b = strcasecmp (lower a) (lower b).
Proof.
  revert b. induction a as [|ch a IH]; intros [|ch' b]; simpl;
    rewrite ?tolower_idem; try done.
  by rewrite IH.
Qed.

(** Evaluates the comparisons of the command name once the lowered name is
    known by [Hname]. *)
Ltac name_tests xargv Hname :=
  unfold cmd_is;
  rewrite !(strcasecmp_lower (arg xargv 0));
  rewrite Hname;
  repeat match goal with
         | |- context [Z.eqb (strcasecmp ?a ?b) 0] =>
             let v := eval vm_compute in (Z.eqb (strcasecmp a b) 0) in
             change (Z.eqb (strcasecmp a b) 0) with v
         end;
  cbn [andb].

Section MediaCommands.

Variable P : platform.
Variable H : host.

Lemma parsed_id (xargv : list string) (r : media_args) :
  ctrl_process_media_commands_3 P xargv = Done r ->
  m_id r = to_uint8 (atoi (nth 1 xargv EmptyString)).
Proof.
  unfold ctrl_process_media_commands_3.
  destruct (if is_quote _ then _ else _) as [[[err fn] wp]|f]; [|done].
  cbn [bind]. destruct (strip_quote P fn); [|done].
  by intros [= <-].
Qed.

Lemma is_null_false (xargv : list string) (i : nat) :
  (i < length xargv)%nat -> is_null xargv i = false.
Proof. intros Hi. unfold is_null. apply Nat.leb_gt. lia. Qed.

(** The dispatcher on a load or eject command: the branch it takes. *)
Lemma dispatch_media (m : media_cmd) (xargv : list string) :
  lower (arg xargv 0) = cmd_name m ->
  (cmd_tokens m <= length xargv)%nat ->
  dispatch P H xargv =
  match m with
  | CdLoad => do_cdload P xargv
  | CdEject =>
      do_eject (CDROM_NUM P) (fun id => cdrom_mount id EmptyString) "cdrom" xargv
  | FddLoad => do_load3 P (FDD_NUM P) floppy_mount "fdd" xargv
  | FddEject => do_eject (FDD_NUM P) floppy_eject "fdd" xargv
  | MoLoad => do_load3 P (MO_NUM P) mo_mount "mo" xargv
  | MoEject => do_eject (MO_NUM P) mo_eject "mo" xargv
  | RdiskLoad => do_load3 P (RDISK_NUM P) rdisk_mount "rdisk" xargv
  | RdiskEject => do_eject (RDISK_NUM P) rdisk_eject "rdisk" xargv
  | CartLoad => do_load3 P 2 cartridge_mount "cartridge" xargv
  | CartEject => do_eject 2 cartridge_eject "cartridge" xargv
  end.
Proof.
  intros Hname Hargc. unfold dispatch.
  destruct m; cbn [cmd_name cmd_tokens] in *;
    name_tests xargv Hname;
    by rewrite (proj2 (Nat.leb_le _ _) Hargc).
Qed.

(** C1, as amended.  On a load or eject command whose id, converted by
    [atoi] and cut to eight bits, is not below the unit count of its class,
    no operation of the host is called and one line is sent: [ERR invalid
    drive id] for [cdload] and the eject commands, [ERR invalid arguments]
    for the load commands that take a flag (when their parser returns). *)
Theorem invalid_id_rejected (m : media_cmd) (xargv : list string) :
  lower (arg xargv 0) = cmd_name m ->
  (cmd_tokens m <= length xargv)%nat ->
  cmd_units P m <= to_uint8 (atoi (arg xargv 1)) ->
  (takes_flag m = true ->
   completes (ctrl_process_media_commands_3 P xargv) = true) ->
  dispatch P H xargv
  = Done [reply (if takes_flag m then "ERR invalid arguments"
                 else "ERR invalid drive id")].
Proof.
  intros Hname Hargc Hid Hparse.
  rewrite (dispatch_media m) by done.
  apply Z.leb_le in Hid.
  destruct m; cbn [cmd_units cmd_tokens takes_flag] in *;
    unfold do_cdload, do_eject, do_load3;
    rewrite ?is_null_false by lia; cbn [orb];
    try (by rewrite Hid);
    specialize (Hparse eq_refl);
    (destruct (ctrl_process_media_commands_3 P xargv) as [r|] eqn:Hr;
     [|discriminate]);
    cbn [bind]; rewrite (parsed_id _ _ Hr);
    unfold arg in Hid; by rewrite Hid, orb_true_r.
Qed.

End MediaCommands.

(** The theorem at work: [fddeject 7] and [moload 200 a.img 0]. *)
Lemma invalid_id_rejected_witness :
  dispatch linux_build sample_host ["fddeject"; "7"]%string
  = Done [reply "ERR invalid drive id"]
  /\ dispatch linux_build sample_host ["moload"; "200"; "a.img"; "0"]%string
     = Done [reply "ERR invalid arguments"].
Proof.
  split.
  - apply (invalid_id_rejected linux_build sample_host FddEject).
    + reflexivity.
    + simpl. lia.
    + vm_compute. discriminate.
    + discriminate.
  - apply (invalid_id_rejected linux_build sample_host MoLoad).
    + reflexivity.
    + simpl. lia.
    + vm_compute. discriminate.
    + reflexivity.
Defined.

(** C1 fails as stated.  [fddload 9 a.img 0], with four floppy drives, is
    answered [ERR invalid arguments], not [ERR invalid drive id]; and
    [cdeject 256], with eight CD-ROM drives, is not rejected at all: the id
    is cut to eight bits and drive 0 is ejected. *)
Lemma invalid_id_not_as_claimed :
  (FDD_NUM linux_build <= atoi "9"
   /\ ctrl_handle_command linux_build sample_host "fddload 9 a.img 0"
      = Done [Send (append "ERR invalid arguments" nl)]
   /\ ctrl_handle_command linux_build sample_host "fddload 9 a.img 0"
      <> Done [Send (append "ERR invalid drive id" nl)])
  /\ (CDROM_NUM linux_build <= atoi "256"
      /\ ctrl_handle_command linux_build sample_host "cdeject 256"
         = Done [cdrom_mount 0 EmptyString; Send (append "OK cdrom 0 ejected" nl)]).
Proof.
  vm_compute. repeat split; discriminate.
Qed.

(** ** Paths *)

Lemma no_quote_first (w : string) :
  no_char quotes w = true -> is_quote (first_char w) = false.
Proof.
  destruct w as [|ch w]; [done|]. simpl. unfold is_quote.
  destruct (Ascii.eqb ch SQUOTE), (Ascii.eqb ch DQUOTE); done.
Qed.

Lemma no_quote_last (w : string) :
  no_char quotes w = true -> closes w = false.
Proof.
  unfold closes. induction w as [|ch w IH]; [done|].
  intros Hw. destruct w as [|ch' w].
  - simpl in *. unfold is_quote.
    destruct (Ascii.eqb ch SQUOTE), (Ascii.eqb ch DQUOTE); done.
  - rewrite last_char_cons by done. apply IH.
    simpl in Hw. by apply andb_true_iff in Hw as [_ ?].
Qed.

Section LoadFacts.

Variable P : platform.
Variable H : host.
Hypothesis size_t_holds_path : PATH_MAX P <= 2 ^ 64.

Lemma rejoined_cons (fn : string) (first : bool) (tok : string)
    (rest : list string) :
  rejoined fn first (tok :: rest)
  = rejoined (append (append fn (if first then EmptyString else chr SP)) tok)
             false rest.
Proof.
  unfold rejoined. destruct rest as [|tok' rest].
  - cbn [join]. by rewrite append_assoc.
  - rewrite (join_cons tok) by done. by rewrite !append_assoc.
Qed.

Lemma strlen_rejoined (fn : string) (first : bool) (toks : list string) :
  strlen fn <= strlen (rejoined fn first toks).
Proof.
  unfold rejoined. destruct toks; [lia|]. rewrite strlen_append.
  pose proof (strlen_nonneg (append (if first then EmptyString else chr SP)
                               (join (s :: toks)))). lia.
Qed.

(** The loop of [cdload] with room to spare: the tokens rejoined. *)
Lemma cd_path_fits (toks : list string) :
  forall (first : bool) (fn : string),
    strlen (rejoined fn first toks) + 1 < PATH_MAX P ->
    cd_path P toks first fn = Done (Some (rejoined fn first toks)).
Proof.
  induction toks as [|tok rest IH]; intros first fn Hroom; [done|].
  rewrite rejoined_cons in *. cbn [cd_path].
  pose proof (strlen_rejoined
    (append (append fn (if first then EmptyString else chr SP)) tok) false rest)
    as Hmono.
  rewrite !strlen_append in Hmono.
  pose proof (strlen_nonneg fn). pose proof (strlen_nonneg tok).
  assert (0 <= strlen (if first then EmptyString else chr SP) <= 1)
    by (by destruct first).
  destruct (Z.leb_spec (PATH_MAX P) (strlen fn + strlen tok + 1)); [lia|].
  destruct first.
  - cbn [bind]. rewrite fn_strcat_fits by lia. cbn [bind].
    rewrite append_nil_r in *. by apply IH.
  - rewrite fn_strcat_fits by (change (strlen (chr SP)) with 1; lia).
    cbn [bind].
    rewrite fn_strcat_fits
      by (rewrite strlen_append; change (strlen (chr SP)) with 1; lia).
    cbn [bind]. by apply IH.
Qed.

(** The same loop when the rejoined tokens reach the limit: the error, and
    no write past the buffer on the way. *)
Lemma cd_path_too_long (toks : list string) :
  forall (first : bool) (fn : string),
    toks <> [] ->
    PATH_MAX P <= strlen (rejoined fn first toks) ->
    cd_path P toks first fn = Done None.
Proof.
  induction toks as [|tok rest IH]; intros first fn Hne Hlong; [done|].
  rewrite rejoined_cons in Hlong. cbn [cd_path].
  pose proof (strlen_nonneg fn). pose proof (strlen_nonneg tok).
  assert (0 <= strlen (if first then EmptyString else chr SP) <= 1)
    by (by destruct first).
  destruct (Z.leb_spec (PATH_MAX P) (strlen fn + strlen tok + 1)); [done|].
  destruct rest as [|tok' rest].
  { unfold rejoined in Hlong. rewrite !strlen_append in Hlong. lia. }
  destruct first.
  - cbn [bind]. rewrite fn_strcat_fits by lia. cbn [bind].
    rewrite append_nil_r in *. by apply IH.
  - rewrite fn_strcat_fits by (change (strlen (chr SP)) with 1; lia).
    cbn [bind].
    rewrite fn_strcat_fits
      by (rewrite strlen_append; change (strlen (chr SP)) with 1; lia).
    cbn [bind]. by apply IH.
Qed.

(** The parser on a third token without quotes. *)
Lemma unquoted_parsed (xargv : list string) :
  let path := nth 2 xargv EmptyString in
  no_char quotes path = true -> path <> EmptyString ->
  strlen path < PATH_MAX P ->
  ctrl_process_media_commands_3 P xargv
  = Done {| m_err := false;
            m_id := to_uint8 (atoi (nth 1 xargv EmptyString));
            m_fn := path;
            m_wp := Some (to_uint8 (atoi (nth 3 xargv EmptyString))) |}.
Proof.
  intros path Hq Hne Hlen. unfold ctrl_process_media_commands_3.
  fold path. rewrite (no_quote_first _ Hq).
  destruct (Z.ltb_spec (strlen path) (PATH_MAX P)); [|lia].
  cbn [bind]. rewrite strip_quote_nonempty by (done || lia).
  by rewrite (no_quote_last _ Hq).
Qed.

(** A valid [cdload] line. *)
Lemma cdload_line (name idtok : string) (toks : list string) :
  lower name = "cdload"%string ->
  Forall (fun w => is_token w = true) (name :: idtok :: toks) ->
  toks <> [] ->
  (length (name :: idtok :: toks) < XARGV_SIZE)%nat ->
  to_uint8 (atoi idtok) < CDROM_NUM P ->
  (PATH_MAX P <= strlen (join toks) ->
   ctrl_handle_command P H (join (name :: idtok :: toks))
   = Done [reply "ERR path too long"])
  /\ (strlen (join toks) + 1 < PATH_MAX P ->
      ctrl_handle_command P H (join (name :: idtok :: toks))
      = Done [cdrom_mount (to_uint8 (atoi idtok)) (join toks);
              ok_reply (PATH_MAX P + 64) "cdrom" (to_uint8 (atoi idtok))
                       "loaded"]).
Proof.
  intros Hname Hall Hne Hlen Hid.
  assert (Hline : join (name :: idtok :: toks) <> EmptyString).
  { rewrite join_cons by done. destruct name; [done|done]. }
  rewrite handle_command_tokens by done.
  rewrite (dispatch_media P H CdLoad)
    by (done || (simpl in *; destruct toks; [done|simpl; lia])).
  unfold do_cdload.
  rewrite !is_null_false by (destruct toks; [done|simpl; lia]).
  cbn [orb arg nth drop]. rewrite drop_0.
  destruct (Z.leb_spec (CDROM_NUM P) (to_uint8 (atoi idtok))); [lia|].
  assert (Hj : rejoined EmptyString true toks = join toks)
    by (by destruct toks).
  split; intros Hsize.
  - rewrite cd_path_too_long; [done|done|by rewrite Hj].
  - rewrite cd_path_fits by (by rewrite Hj). by rewrite Hj.
Qed.

(** A valid line of a load command that takes a flag, with a path free of
    quotes. *)
Lemma load3_line (m : media_cmd) (name idtok path wptok : string)
    (rest : list string) :
  takes_flag m = true ->
  lower name = cmd_name m ->
  Forall (fun w => is_token w = true) (name :: idtok :: path :: wptok :: rest) ->
  (length (name :: idtok :: path :: wptok :: rest) < XARGV_SIZE)%nat ->
  to_uint8 (atoi idtok) < cmd_units P m ->
  no_char quotes path = true -> path <> EmptyString ->
  strlen path < PATH_MAX P ->
  ctrl_handle_command P H (join (name :: idtok :: path :: wptok :: rest))
  = Done [cmd_mount m (to_uint8 (atoi idtok)) path
                    (Some (to_uint8 (atoi wptok)));
          ok_reply (PATH_MAX P + 64) (cmd_class m) (to_uint8 (atoi idtok))
                   "loaded"].
Proof.
  intros Hflag Hname Hall Hlen Hid Hq Hne Hfit.
  assert (Hline : join (name :: idtok :: path :: wptok :: rest) <> EmptyString).
  { rewrite join_cons by done. destruct name; [done|done]. }
  rewrite handle_command_tokens by done.
  rewrite (dispatch_media P H m) by (done || (destruct m; simpl; lia)).
  assert (Hload : forall units mount cls,
             to_uint8 (atoi idtok) < units ->
             do_load3 P units mount cls (name :: idtok :: path :: wptok :: rest)
             = Done [mount (to_uint8 (atoi idtok)) path
                           (Some (to_uint8 (atoi wptok)));
                     ok_reply (PATH_MAX P + 64) cls (to_uint8 (atoi idtok))
                              "loaded"]).
  { intros units mount cls Hunits. unfold do_load3.
    rewrite !is_null_false by (simpl; lia). cbn [orb].
    rewrite unquoted_parsed by done. cbn [bind m_err m_id m_fn m_wp nth orb].
    destruct (Z.leb_spec units (to_uint8 (atoi idtok))); [lia|].
    rewrite strip_quote_nonempty by (done || lia).
    by rewrite (no_quote_last _ Hq). }
  destruct m; try discriminate; cbn [cmd_units cmd_mount cmd_class] in *;
    by apply Hload.
Qed.

(** C4, as amended.  On a valid [cdload] line the path handed to
    [cdrom_mount] is every token after the id, rejoined with single
    spaces; when the rejoined tokens reach [PATH_MAX] characters the reply
    is [ERR path too long] and nothing is mounted.  On a valid line of a
    load command that takes a flag, a third token without quotes is the
    path, alone, and the fourth token is the flag: what follows a space in
    an unquoted path is not part of the path. *)
Theorem load_path_delivered :
  (forall (name idtok : string) (toks : list string),
      lower name = "cdload"%string ->
      Forall (fun w => is_token w = true) (name :: idtok :: toks) ->
      toks <> [] ->
      (length (name :: idtok :: toks) < XARGV_SIZE)%nat ->
      to_uint8 (atoi idtok) < CDROM_NUM P ->
      (PATH_MAX P <= strlen (join toks) ->
       ctrl_handle_command P H (join (name :: idtok :: toks))
       = Done [reply "ERR path too long"])
      /\ (strlen (join toks) + 1 < PATH_MAX P ->
          ctrl_handle_command P H (join (name :: idtok :: toks))
          = Done [cdrom_mount (to_uint8 (atoi idtok)) (join toks);
                  ok_reply (PATH_MAX P + 64) "cdrom" (to_uint8 (atoi idtok))
                           "loaded"]))
  /\ (forall (m : media_cmd) (name idtok path wptok : string)
             (rest : list string),
        takes_flag m = true ->
        lower name = cmd_name m ->
        Forall (fun w => is_token w = true)
               (name :: idtok :: path :: wptok :: rest) ->
        (length (name :: idtok :: path :: wptok :: rest) < XARGV_SIZE)%nat ->
        to_uint8 (atoi idtok) < cmd_units P m ->
        no_char quotes path = true -> path <> EmptyString ->
        strlen path < PATH_MAX P ->
        ctrl_handle_command P H (join (name :: idtok :: path :: wptok :: rest))
        = Done [cmd_mount m (to_uint8 (atoi idtok)) path
                          (Some (to_uint8 (atoi wptok)));
                ok_reply (PATH_MAX P + 64) (cmd_class m)
                         (to_uint8 (atoi idtok)) "loaded"]).
Proof.
  split.
  - intros name idtok toks. apply cdload_line.
  - intros m name idtok path wptok rest. apply load3_line.
Qed.

End LoadFacts.

(** The theorem at work: [cdload 0 /my disc image.iso], and
    [rdiskload 1 /tmp/zip.img 1]. *)
Lemma load_path_delivered_witness :
  ctrl_handle_command linux_build sample_host "cdload 0 /my disc image.iso"
  = Done [cdrom_mount 0 "/my disc image.iso"; Send (append "OK cdrom 0 loaded" nl)]
  /\ ctrl_handle_command linux_build sample_host "rdiskload 1 /tmp/zip.img 1"
     = Done [rdisk_mount 1 "/tmp/zip.img" (Some 1);
             Send (append "OK rdisk 1 loaded" nl)].
Proof.
  assert (Hsize : PATH_MAX linux_build <= 2 ^ 64) by (vm_compute; discriminate).
  split.
  - apply (proj2 (proj1 (load_path_delivered linux_build sample_host Hsize)
                    "cdload"%string "0"%string ["/my"; "disc"; "image.iso"]%string
                    eq_refl
                    ltac:(repeat constructor)
                    ltac:(discriminate)
                    ltac:(vm_compute; lia)
                    ltac:(vm_compute; reflexivity))).
    vm_compute. reflexivity.
  - apply (proj2 (load_path_delivered linux_build sample_host Hsize)
             RdiskLoad "rdiskload"%string "1"%string "/tmp/zip.img"%string
             "1"%string []).
    + reflexivity.
    + reflexivity.
    + repeat constructor.
    + vm_compute. lia.
    + vm_compute. reflexivity.
    + reflexivity.
    + discriminate.
    + vm_compute. reflexivity.
Defined.

(** C4 fails as stated.  [fddload 0 /my path.img 1] mounts [/my], with the
    flag read from [path.img], not the tokens between the id and the flag
    rejoined; and where [PATH_MAX] is 1024, a third token of 1024 letters is
    not answered [ERR path too long]: the path buffer is left empty and its
    last character is read all the same. *)
Lemma unquoted_space_not_rejoined :
  (ctrl_handle_command linux_build sample_host "fddload 0 /my path.img 1"
   = Done [floppy_mount 0 "/my" (Some 0); Send (append "OK fdd 0 loaded" nl)]
   /\ join ["/my"; "path.img"]%string <> "/my"%string)
  /\ (ctrl_handle_command bsd_build sample_host
        (append "fddload 0 " (append (long_name 1024) " 1"))
      = Fault (OutOfBounds (2 ^ 64 - 1))).
Proof.
  split; [split|].
  - vm_compute. reflexivity.
  - discriminate.
  - vm_compute. reflexivity.
Qed.

(** ** Faults *)

(** On every build, a load command whose third token is a lone quote makes
    the parser test the last character of an empty path. *)
Lemma lone_quote_faults (P : platform) (xargv : list string) (q : ascii) :
  1 <= PATH_MAX P < 2 ^ 64 ->
  (3 <= length xargv)%nat ->
  is_quote q = true ->
  nth 2 xargv EmptyString = chr q ->
  ctrl_process_media_commands_3 P xargv = Fault (OutOfBounds (2 ^ 64 - 1)).
Proof.
  intros Hsize Hargc Hq Hthird.
  destruct xargv as [|x0 [|x1 [|x2 rest]]]; try (simpl in Hargc; lia).
  cbn [nth] in Hthird. subst x2.
  unfold ctrl_process_media_commands_3. cbn [nth first_char chr drop].
  rewrite Hq. cbn [quoted_loop].
  unfold skip_quote. cbn [first_char chr]. rewrite Hq.
  change (advance 1 (String q EmptyString)) with EmptyString.
  rewrite fn_strcat_fits by (unfold strlen; simpl String.length; lia).
  cbn [bind append]. rewrite ends_in_quote_empty by lia. reflexivity.
Qed.

(** C9 fails on the code.  A third token that is a lone quote, an empty
    quoted path, and an empty third token (two spaces in a row) each make a
    load command read [fn[strlen(fn) - 1]] on an empty path, at index
    [SIZE_MAX]; and where [PATH_MAX] is 1024, a quoted path of 1100 letters
    is still copied into the path buffer after the too-long flag is set. *)
Theorem load_reads_outside_path_buffer :
  ctrl_handle_command linux_build sample_host "fddload 0 ' 1"
  = Fault (OutOfBounds (2 ^ 64 - 1))
  /\ ctrl_handle_command linux_build sample_host "moload 0 '' 1"
     = Fault (OutOfBounds (2 ^ 64 - 1))
  /\ ctrl_handle_command linux_build sample_host "cartload 0  1"
     = Fault (OutOfBounds (2 ^ 64 - 1))
  /\ ctrl_handle_command bsd_build sample_host
       (append "rdiskload 0 '" (append (long_name 1100) " 1"))
     = Fault (BufferOverflow 1101).
Proof. vm_compute. repeat split. Qed.

(** ** Ids above 255 *)

Lemma snprintf_whole (n : nat) (s : string) :
  (String.length s < n)%nat -> snprintf n s = s.
Proof. intros Hlt. unfold snprintf. apply cut_whole. lia. Qed.

(** Closes [Forall is_token] on a list of literals. *)
Ltac tokens_ok :=
  repeat (apply Forall_cons; split; [reflexivity|]); by apply Forall_nil.

Section WrappedIds.

Variable P : platform.
Variable H : host.
Hypothesis cdrom_units : 0 < CDROM_NUM P <= 256.
Hypothesis fdd_units : 0 < FDD_NUM P <= 256.
Hypothesis mo_units : 0 < MO_NUM P <= 256.
Hypothesis rdisk_units : 0 < RDISK_NUM P <= 256.
Hypothesis path_room : 16 <= PATH_MAX P <= 2 ^ 64.

Lemma units_in_range (m : media_cmd) : 0 < cmd_units P m <= 256.
Proof. destruct m; simpl; lia. Qed.

Lemma eject_256 (m : media_cmd) (name : string) (eject : Z -> action) :
  is_load m = false -> name = cmd_name m ->
  do_eject (cmd_units P m) eject (cmd_class m) [name; "256"%string]
  = Done [eject 0;
          Send (append "OK " (append (cmd_class m) (append " 0 ejected" nl)))].
Proof.
  intros Hm ->. unfold do_eject.
  change (to_uint8 (atoi (arg [cmd_name m; "256"%string] 1))) with 0.
  pose proof (units_in_range m).
  destruct (Z.leb_spec (cmd_units P m) 0); [lia|].
  by destruct m.
Qed.

(** C10.  The id of every load and eject command goes through [atoi] and
    is then cut to eight bits before it is compared with the unit count:
    the id 256, which is not below any unit count, is accepted by each of
    them, and the operation of the host is called for drive 0. *)
Theorem id_cut_to_eight_bits (m : media_cmd) :
  cmd_units P m <= atoi "256"
  /\ to_uint8 (atoi "256") = 0
  /\ ctrl_handle_command P H (line_256 m)
     = Done [call_on_drive_0 m;
             Send (append "OK " (append (cmd_class m)
                     (append (if is_load m then " 0 loaded" else " 0 ejected")%string
                             nl)))].
Proof.
  pose proof (units_in_range m) as Hu.
  split; [change (atoi "256") with 256; lia|]. split; [reflexivity|].
  assert (Hsize : PATH_MAX P <= 2 ^ 64) by lia.
  assert (Hok : forall cls : string,
             (String.length cls <= 9)%nat ->
             ok_reply (PATH_MAX P + 64) cls 0 "loaded"
             = Send (append "OK " (append cls (append " 0 loaded" nl)))).
  { intros cls Hcls. unfold ok_reply. rewrite snprintf_whole; [done|].
    change (fmt_d 0) with "0"%string.
    apply (f_equal Z.of_nat) in Hcls || idtac.
    assert (Hlen : String.length
              (append "OK " (append cls (append " " (append "0"
                 (append " " (append "loaded" nl))))))
            = (String.length cls + 13)%nat).
    { clear. simpl. f_equal. f_equal. f_equal.
      induction cls as [|ch cls IH]; simpl; [done|]. by rewrite IH. }
    rewrite Hlen. lia. }
  destruct m.
  - (* cdload *)
    change (line_256 CdLoad) with (join ["cdload"; "256"; "a.iso"]%string).
    destruct (cdload_line P H "cdload"%string "256"%string ["a.iso"%string])
      as [_ Hfit];
      [reflexivity|repeat constructor|discriminate|vm_compute; lia
      |change (to_uint8 (atoi "256")) with 0; cbn [cmd_units] in *; lia|].
    rewrite Hfit by (change (strlen (join ["a.iso"%string])) with 5; lia).
    change (to_uint8 (atoi "256")) with 0.
    rewrite Hok by (simpl; lia). reflexivity.
  - (* cdeject *)
    change (line_256 CdEject) with (join ["cdeject"; "256"]%string).
    rewrite handle_command_tokens
      by (repeat constructor || discriminate || (vm_compute; lia)).
    rewrite (dispatch_media P H CdEject) by (reflexivity || (simpl; lia)).
    by apply (eject_256 CdEject).
  - change (line_256 FddLoad) with (join ["fddload"; "256"; "a.img"; "1"]%string).
    pose proof (load3_line P H Hsize) as Hl.
    rewrite (Hl FddLoad "fddload"%string "256"%string "a.img"%string "1"%string []);
      [|reflexivity|reflexivity|tokens_ok|vm_compute; lia
       |change (to_uint8 (atoi "256")) with 0; cbn [cmd_units] in *; lia
       |reflexivity|discriminate|change (strlen "a.img") with 5; lia].
    change (to_uint8 (atoi "256")) with 0.
    rewrite Hok by (simpl; lia). reflexivity.
  - change (line_256 FddEject) with (join ["fddeject"; "256"]%string).
    rewrite handle_command_tokens
      by (repeat constructor || discriminate || (vm_compute; lia)).
    rewrite (dispatch_media P H FddEject) by (reflexivity || (simpl; lia)).
    by apply (eject_256 FddEject).
  - change (line_256 MoLoad) with (join ["moload"; "256"; "a.img"; "1"]%string).
    pose proof (load3_line P H Hsize) as Hl.
    rewrite (Hl MoLoad "moload"%string "256"%string "a.img"%string "1"%string []);
      [|reflexivity|reflexivity|tokens_ok|vm_compute; lia
       |change (to_uint8 (atoi "256")) with 0; cbn [cmd_units] in *; lia
       |reflexivity|discriminate|change (strlen "a.img") with 5; lia].
    change (to_uint8 (atoi "256")) with 0.
    rewrite Hok by (simpl; lia). reflexivity.
  - change (line_256 MoEject) with (join ["moeject"; "256"]%string).
    rewrite handle_command_tokens
      by (repeat constructor || discriminate || (vm_compute; lia)).
    rewrite (dispatch_media P H MoEject) by (reflexivity || (simpl; lia)).
    by apply (eject_256 MoEject).
  - change (line_256 RdiskLoad) with (join ["rdiskload"; "256"; "a.img"; "1"]%string).
    pose proof (load3_line P H Hsize) as Hl.
    rewrite (Hl RdiskLoad "rdiskload"%string "256"%string "a.img"%string "1"%string []);
      [|reflexivity|reflexivity|tokens_ok|vm_compute; lia
       |change (to_uint8 (atoi "256")) with 0; cbn [cmd_units] in *; lia
       |reflexivity|discriminate|change (strlen "a.img") with 5; lia].
    change (to_uint8 (atoi "256")) with 0.
    rewrite Hok by (simpl; lia). reflexivity.
  - change (line_256 RdiskEject) with (join ["rdiskeject"; "256"]%string).
    rewrite handle_command_tokens
      by (repeat constructor || discriminate || (vm_compute; lia)).
    rewrite (dispatch_media P H RdiskEject) by (reflexivity || (simpl; lia)).
    by apply (eject_256 RdiskEject).
  - change (line_256 CartLoad) with (join ["cartload"; "256"; "a.img"; "1"]%string).
    pose proof (load3_line P H Hsize) as Hl.
    rewrite (Hl CartLoad "cartload"%string "256"%string "a.img"%string "1"%string []);
      [|reflexivity|reflexivity|tokens_ok|vm_compute; lia
       |change (to_uint8 (atoi "256")) with 0; cbn [cmd_units] in *; lia
       |reflexivity|discriminate|change (strlen "a.img") with 5; lia].
    change (to_uint8 (atoi "256")) with 0.
    rewrite Hok by (simpl; lia). reflexivity.
  - change (line_256 CartEject) with (join ["carteject"; "256"]%string).
    rewrite handle_command_tokens
      by (repeat constructor || discriminate || (vm_compute; lia)).
    rewrite (dispatch_media P H CartEject) by (reflexivity || (simpl; lia)).
    by apply (eject_256 CartEject).
Qed.

End WrappedIds.

(** The theorem at work: [cdeject 256] on the Linux build. *)
Lemma id_cut_to_eight_bits_witness :
  ctrl_handle_command linux_build sample_host "cdeject 256"
  = Done [cdrom_mount 0 EmptyString; Send (append "OK cdrom 0 ejected" nl)].
Proof.
  apply (id_cut_to_eight_bits linux_build sample_host
           ltac:(vm_compute; split; [reflexivity|discriminate])
           ltac:(vm_compute; split; [reflexivity|discriminate])
           ltac:(vm_compute; split; [reflexivity|discriminate])
           ltac:(vm_compute; split; [reflexivity|discriminate])
           ltac:(vm_compute; split; discriminate)
           CdEject).
Defined.

(** ** The checksum *)

(** The check value of CRC-32: the checksum of the digits 1 to 9. *)
Example crc32_check_value :
  crc32 (map code (list_ascii_of_string "123456789")) = 0xCBF43926.
Proof. vm_compute. reflexivity. Qed.

Lemma land_1 (z : Z) : Z.land z 1 = Z.b2z (Z.odd z).
Proof.
  change 1 with (Z.ones 1). rewrite Z.land_ones by lia.
  rewrite <- Z.bit0_odd. symmetry. apply Z.bit0_mod.
Qed.

(** The branch-free shift of the source is the conditional one. *)
Lemma crc_shift_bit (crc : Z) : crc_shift crc = crc32_bit crc.
Proof.
  unfold crc_shift, crc32_bit. rewrite land_1.
  destruct (Z.odd crc); simpl Z.b2z.
  - reflexivity.
  - change (neg_u32 0) with 0. by rewrite Z.land_0_l, Z.lxor_0_r.
Qed.

Lemma crc_byte_update (crc b : Z) : crc_byte crc b = crc32_update crc b.
Proof.
  unfold crc_byte, crc32_update. simpl Nat.iter. by rewrite !crc_shift_bit.
Qed.

Lemma fold_left_flat_map {A B C} (f : A -> B -> A) (g : C -> list B)
    (l : list C) (a : A) :
  fold_left f (flat_map g l) a = fold_left (fun a x => fold_left f (g x) a) l a.
Proof.
  revert a. induction l as [|x l IH]; intros a; [done|].
  simpl. by rewrite fold_left_app, IH.
Qed.

Lemma fold_left_ext {A B} (f g : A -> B -> A) (l : list B) (a : A) :
  (forall a x, f a x = g a x) -> fold_left f l a = fold_left g l a.
Proof.
  intros Hfg. revert a. induction l as [|x l IH]; intros a; [done|].
  simpl. by rewrite Hfg, IH.
Qed.

Lemma flat_map_shift {B} (f : Z -> list B) (x0 w : Z) :
  flat_map f (seqZ x0 w) = flat_map (fun x => f (x0 + x)) (seqZ 0 w).
Proof.
  rewrite <- (Z.add_0_r x0) at 1. rewrite <- fmap_add_seqZ.
  generalize (seqZ 0 w). intros l.
  induction l as [|x l IH]; [done|]. csimpl. by rewrite IH.
Qed.

Lemma wrap_int_range (z : Z) : - 2 ^ 31 <= wrap_int z < 2 ^ 31.
Proof.
  unfold wrap_int. pose proof (Z.mod_pos_bound (z + 2 ^ 31) (2 ^ 32)). lia.
Qed.

Lemma wrap_int_id (z : Z) : - 2 ^ 31 <= z < 2 ^ 31 -> wrap_int z = z.
Proof. intros Hz. unfold wrap_int. rewrite Z.mod_small; lia. Qed.

Lemma bm_get_in (b : bitmap_t) (y k : Z) :
  0 <= y < bm_h b -> 0 <= k < 4 * bm_w b -> bm_get b y k = Done (line b y k).
Proof.
  intros Hy Hk. unfold bm_get.
  rewrite (proj2 (Z.leb_le 0 y)), (proj2 (Z.ltb_lt y (bm_h b))) by lia.
  by rewrite (proj2 (Z.leb_le 0 k)), (proj2 (Z.ltb_lt k (4 * bm_w b))) by lia.
Qed.

Lemma in_seqZ (x m n : Z) : In x (seqZ m n) -> m <= x < m + n.
Proof. intros Hx. by apply list_elem_of_In, elem_of_seqZ in Hx. Qed.

(** A loop whose every turn returns is the loop over the values. *)
Lemma fold_left_done {A B} (f : outcome A -> B -> outcome A) (g : A -> B -> A)
    (l : list B) :
  (forall a x, In x l -> f (Done a) x = Done (g a x)) ->
  forall a, fold_left f l (Done a) = Done (fold_left g l a).
Proof.
  induction l as [|x l IH]; intros Hfg a; [done|].
  cbn [fold_left]. rewrite Hfg by (by left).
  apply IH. intros a' y Hy. apply Hfg. by right.
Qed.

Lemma collect_done {A B} (f : B -> outcome A) (g : B -> A) (l : list B) :
  (forall x, In x l -> f x = Done (g x)) ->
  collect (map f l) = Done (map g l).
Proof.
  induction l as [|x l IH]; intros Hfg; [done|].
  cbn [map collect]. rewrite Hfg by (by left). cbn [bind].
  rewrite IH; [done|]. intros y Hy. apply Hfg. by right.
Qed.

(** One row of the source loops, inside the frame buffer, is the CRC-32
    update over the blue, green and red bytes of its pixels. *)
Lemma crc_row_update (b : bitmap_t) (y x0 rw crc : Z) :
  0 <= y < bm_h b -> 0 <= x0 -> x0 + rw <= bm_w b -> 4 * bm_w b < 2 ^ 31 ->
  crc_row b y (4 * x0) rw (Done crc)
  = Done (fold_left crc32_update (flat_map (bgr b y) (seqZ x0 rw)) crc).
Proof.
  intros Hy Hx0 Hrw Hw. unfold crc_row.
  rewrite (fold_left_done _
             (fun a x => fold_left crc32_update (bgr b y (x0 + x)) a)).
  - by rewrite flat_map_shift, fold_left_flat_map.
  - intros a x Hx%in_seqZ.
    change (seqZ 0 3) with [0; 1; 2]. cbn [fold_left bind].
    rewrite !wrap_int_id by lia.
    rewrite (bm_get_in b y (4 * x0 + (x * 4 + 0))) by lia. cbn [bind].
    rewrite (bm_get_in b y (4 * x0 + (x * 4 + 1))) by lia. cbn [bind].
    rewrite (bm_get_in b y (4 * x0 + (x * 4 + 2))) by lia. cbn [bind].
    unfold bgr. cbn [fold_left]. rewrite !crc_byte_update.
    by replace (4 * x0 + (x * 4 + 0)) with (4 * (x0 + x)) by lia;
       replace (4 * x0 + (x * 4 + 1)) with (4 * (x0 + x) + 1) by lia;
       replace (4 * x0 + (x * 4 + 2)) with (4 * (x0 + x) + 2) by lia.
Qed.

(** The loops of the source, on a region inside the frame buffer, compute
    the CRC-32 of the region. *)
Lemma crc_region_crc32 (b : bitmap_t) (bx by_ rx ry rw rh : Z) :
  in_frame b (bx + rx) (by_ + ry) rw rh ->
  crc_region b bx by_ rx ry rw rh
  = Done (crc32 (region_bgr b (bx + rx) (by_ + ry) rw rh)).
Proof.
  intros ((Hx & Hy & Hw & Hh) & (Hxw & Hyh) & (Hbw & Hbh)).
  unfold crc_region. cbv zeta.
  rewrite (wrap_int_id (by_ + ry)), (wrap_int_id (by_ + ry + rh)),
    (wrap_int_id (bx + rx)) by lia.
  replace (by_ + ry + rh - (by_ + ry)) with rh by lia.
  rewrite (fold_left_done _
             (fun a y => fold_left crc32_update
                           (flat_map (bgr b y) (seqZ (bx + rx) rw)) a)).
  - cbn [bind]. unfold crc32, region_bgr. by rewrite fold_left_flat_map.
  - intros a y Hin%in_seqZ. apply crc_row_update; lia.
Qed.

Lemma bgr_alpha (b b' : bitmap_t) (y x : Z) :
  alpha_only b b' -> bgr b y x = bgr b' y x.
Proof.
  intros Ha. unfold bgr.
  rewrite (Ha y (4 * x)), (Ha y (4 * x + 1)), (Ha y (4 * x + 2)); [done|..].
  - replace (4 * x + 2) with (2 + x * 4) by lia. by rewrite Z_mod_plus_full.
  - replace (4 * x + 1) with (1 + x * 4) by lia. by rewrite Z_mod_plus_full.
  - replace (4 * x) with (0 + x * 4) by lia. by rewrite Z_mod_plus_full.
Qed.

Lemma region_bgr_alpha (b b' : bitmap_t) (x0 y0 w h : Z) :
  alpha_only b b' -> region_bgr b x0 y0 w h = region_bgr b' x0 y0 w h.
Proof.
  intros Ha. unfold region_bgr.
  apply flat_map_ext. intros y. apply flat_map_ext. intros x.
  by apply bgr_alpha.
Qed.

Lemma test_card_alpha : alpha_only test_card test_card_opaque.
Proof.
  intros y k Hk. simpl. by destruct (Z.eqb_spec (k mod 4) 3).
Qed.


(** ** The scenarios of the specification, run on the model *)

Example scenario_cdload :
  ctrl_handle_command linux_build sample_host "cdload 0 /tmp/a.iso"
  = Done [cdrom_mount 0 "/tmp/a.iso"; Send (append "OK cdrom 0 loaded" nl)].
Proof. vm_compute. reflexivity. Qed.

Example scenario_quoted_path :
  ctrl_handle_command linux_build sample_host
    "fddload 0 '/path with space.img' 1"
  = Done [floppy_mount 0 "/path with space.img" (Some 1);
          Send (append "OK fdd 0 loaded" nl)].
Proof. vm_compute. reflexivity. Qed.

Example scenario_unknown_command :
  ctrl_handle_command linux_build sample_host "bogus"
  = Done [Send (append "ERR unknown command: bogus" nl)].
Proof. vm_compute. reflexivity. Qed.

Example scenario_screenshot :
  exists rows,
    ctrl_handle_command linux_build sample_host "screenshot 0"
    = Done (Send (append "OK 4 3 48" nl) :: map SendBinary rows)
    /\ length (concat rows) = 48%nat.
Proof.
  exists (map (fun y => map (fun k => line test_card y k) (seqZ 0 16)) (seqZ 0 3)).
  split; vm_compute; reflexivity.
Qed.

(** A request whose far corner is beyond the range of [int] is not
    clamped: with the row past [INT_MAX] the loop over the rows has nothing
    to do and the checksum is that of no byte; with the column past
    [INT_MAX] the first read is outside the frame buffer. *)
Example scenario_screencrc_overflow :
  ctrl_handle_command linux_build sample_host "screencrc 0 0 2147483647 1 1"
  = Done [Send (append "OK 00000000 4 3" nl)]
  /\ ctrl_handle_command linux_build sample_host "screencrc 0 2147483647 0 1 1"
     = Fault (OutsideFrame 0 8589934588).
Proof. split; vm_compute; reflexivity. Qed.

(** An id beyond the range of [long] is the largest [long], whose low
    eight bits are all set. *)
Example scenario_saturated_id :
  ctrl_handle_command linux_build sample_host "cdeject 9223372036854775808"
  = Done [Send (append "ERR invalid drive id" nl)]
  /\ ctrl_handle_command linux_build sample_host "cdeject -9223372036854775809"
     = Done [cdrom_mount 0 EmptyString; Send (append "OK cdrom 0 ejected" nl)].
Proof. split; vm_compute; reflexivity. Qed.

Example scenario_led_edge :
  fst (poll_run linux_build [(1, floppy_writing); (1, floppy_writing)]
         (poll_init linux_build quiet_status))
  = [Broadcast (append "!led fdd 0 write" nl)].
Proof. vm_compute. reflexivity. Qed.

(** ** The text of the push lines *)

Lemma length_append (a b : string) :
  String.length (append a b) = (String.length a + String.length b)%nat.
Proof. induction a as [|ch a IH]; simpl; [done|]. by rewrite IH. Qed.

Lemma cut_append_short (n : nat) (a b : string) :
  (n <= String.length a)%nat -> cut n (append a b) = cut n a.
Proof.
  revert n. induction a as [|ch a IH]; intros [|n]; simpl; try done; try lia.
  intros Hn. rewrite IH; [done|lia].
Qed.

Lemma cut_past_prefix (p x : string) (n : nat) :
  cut (String.length p + n) (append p x) = append p (cut n x).
Proof. induction p as [|ch p IH]; simpl; [done|]. by rewrite IH. Qed.

Lemma length_cut (n : nat) (s : string) :
  (String.length (cut n s) <= n)%nat.
Proof.
  revert n. induction s as [|ch s IH]; intros [|n]; simpl; try lia.
  specialize (IH n). lia.
Qed.

(** [%d] of a unit number is its decimal numeral, of three digits at
    most. *)
Lemma fmt_d_decimal (i : nat) :
  (i < 256)%nat ->
  fmt_d (Z.of_nat i) = decimal i /\ (String.length (decimal i) <= 3)%nat.
Proof.
  intros Hi.
  assert (Hall : forallb (fun i => String.eqb (fmt_d (Z.of_nat i)) (decimal i)
                                   && (String.length (decimal i) <=? 3)%nat)
                         (seq 0 256) = true) by (vm_compute; reflexivity).
  rewrite forallb_forall in Hall.
  destruct (proj1 (andb_true_iff _ _) (Hall i ltac:(apply in_seq; lia)))
    as [Heq Hlen].
  split; [by apply String.eqb_eq|by apply Nat.leb_le].
Qed.

Lemma class_name_word (c : dev_class) : class_name c = class_word c.
Proof. by destruct c. Qed.

Lemma length_class_word (c : dev_class) : (String.length (class_word c) <= 5)%nat.
Proof. destruct c; simpl; lia. Qed.

(** The LED line of the source, built in a buffer of 128 bytes or more, is
    the line of the specification, whole. *)
Lemma led_line_text (size : nat) (c : dev_class) (i : nat) (st : dev_status) :
  (128 <= size)%nat -> (i < 256)%nat ->
  snprintf size (format_event (LedEvent c i (active st) (write_active st)))
  = led_text c i st.
Proof.
  intros Hsize Hi. destruct (fmt_d_decimal i Hi) as [Hd Hlen].
  pose proof (length_class_word c) as Hc.
  unfold format_event. rewrite Hd, class_name_word.
  change (led_state_name (active st) (write_active st)) with (led_word st).
  change nl with eol. fold (led_text c i st).
  apply snprintf_whole. unfold led_text. rewrite !length_append.
  unfold led_word. destruct (write_active st), (active st); simpl; lia.
Qed.

Lemma media_line_text (size : nat) (c : dev_class) (i : nat) (st : dev_status) :
  (128 <= size)%nat -> (i < 256)%nat ->
  snprintf size (format_event (MediaEvent c i (empty st))) = media_text c i st.
Proof.
  intros Hsize Hi. destruct (fmt_d_decimal i Hi) as [Hd Hlen].
  pose proof (length_class_word c) as Hc.
  unfold format_event. rewrite Hd, class_name_word.
  change (if empty st then "ejected" else "inserted")%string with (media_word st).
  change nl with eol. fold (media_text c i st).
  apply snprintf_whole. unfold media_text. rewrite !length_append.
  unfold media_word. destruct (empty st); simpl; lia.
Qed.

Lemma led_differs_changed (st : dev_status) (p : led_state_t) :
  led_differs st p = flags_changed st p.
Proof.
  unfold led_differs, flags_changed.
  by destruct (eqb (active st) (led_active p)),
              (eqb (write_active st) (led_write_active p)).
Qed.

Lemma map_flat_map_in {A B C} (f : B -> C) (g : A -> list B) (h : A -> list C)
    (l : list A) :
  (forall x, In x l -> map f (g x) = h x) ->
  map f (flat_map g l) = flat_map h l.
Proof.
  induction l as [|x l IH]; intros Hgh; [done|].
  cbn [flat_map]. rewrite map_app, Hgh by (by left).
  rewrite IH; [done|]. intros y Hy. apply Hgh. by right.
Qed.

(** A loop of the poller over a class, as the lines it broadcasts. *)
Lemma class_broadcasts (c : dev_class) (tbl : list dev_status)
    (prev : list led_state_t) (pe : list bool) (n : nat) :
  (n <= 256)%nat ->
  map broadcast_event
      (flat_map (fun i => led_line c tbl prev i
                          ++ (if has_media c then media_line c tbl pe i else []))
                (seq 0 n))
  = flat_map (fun i => unit_broadcasts c i (tbl !!! i) (prev !!! i) (pe !!! i))
             (seq 0 n).
Proof.
  intros Hn. apply map_flat_map_in. intros i [_ Hi]%in_seq.
  assert (Hi' : (i < 256)%nat) by lia.
  unfold led_line, media_line, unit_broadcasts, broadcast_event, media_changed.
  rewrite led_differs_changed, map_app. f_equal.
  - destruct (flags_changed _ _); [|done]. cbn [map].
    by rewrite led_line_text.
  - destruct (has_media c); [|done]. cbn [andb].
    destruct (negb _); [|done]. cbn [map].
    by rewrite media_line_text.
Qed.

Section EdgeDetection.

Variable P : platform.

(** C8.  On a turn of the poller with at least one session registered, for
    every class and unit: nothing is broadcast about a unit whose watched
    fields are what the snapshot holds; when its LED flags (active and
    write-active, one field of the snapshot) have changed, exactly one line
    [!led <class> <id> <state>] is broadcast, and when its media flag has
    changed, exactly one line [!media <class> <id> <inserted|ejected>]
    after it.  The turn broadcasts these lines and no other, class by class
    and unit by unit, each with its text in full, and afterwards the
    snapshot holds the values just observed. *)
Theorem poller_edge_detection (n : Z) (ms : machine_status_t) (s : snapshot) :
  n <> 0 -> snapshot_sized P s -> small_build P ->
  fst (poll_tick P n ms s) = due_broadcasts P ms s
  /\ forall (c : dev_class) (i : nat), Z.of_nat i < units P c ->
       let st := table ms c !!! i in
       leds (snd (poll_tick P n ms s)) c !!! i
       = {| led_active := active st; led_write_active := write_active st |}
       /\ (has_media c = true ->
           empties (snd (poll_tick P n ms s)) c !!! i = empty st).
Proof.
  intros Hn Hs Hsmall. unfold poll_tick.
  rewrite (poll_events_whole P n ms s Hn Hs). cbn [fst snd]. split.
  - unfold due_broadcasts, classes. cbn [flat_map]. rewrite app_nil_r.
    rewrite !map_app.
    pose proof (Hsmall Fdd). pose proof (Hsmall Cdrom). pose proof (Hsmall Hdd).
    pose proof (Hsmall Rdisk). pose proof (Hsmall Mo). pose proof (Hsmall Net).
    cbn [units] in *.
    rewrite <- (class_broadcasts Fdd (fdd ms) (prev_fdd s) (prev_fdd_empty s))
      by lia.
    rewrite <- (class_broadcasts Cdrom (cdrom ms) (prev_cdrom s) (prev_cdrom_empty s))
      by lia.
    rewrite <- (class_broadcasts Hdd (hdd ms) (prev_hdd s) []) by lia.
    rewrite <- (class_broadcasts Rdisk (rdisk ms) (prev_rdisk s) (prev_rdisk_empty s))
      by lia.
    rewrite <- (class_broadcasts Mo (mo ms) (prev_mo s) (prev_mo_empty s))
      by lia.
    rewrite <- (class_broadcasts Net (net ms) (prev_net s) []) by lia.
    cbn [has_media].
    assert (Hplain : forall c tbl prev l,
               flat_map (fun i => led_line c tbl prev i ++ []) l
               = flat_map (led_line c tbl prev) l)
      by (intros; apply flat_map_ext; intros; apply app_nil_r).
    by rewrite !Hplain.
  - intros c i Hi. cbv zeta. split.
    + destruct c; cbn [leds poll_init prev_fdd prev_cdrom prev_hdd prev_rdisk
                       prev_mo prev_net table units] in *; unfold init_leds;
        rewrite (lookup_total_map_seq (fun i => led_of (_ !!! i))) by lia;
        reflexivity.
    + destruct c; cbn [has_media]; try discriminate; intros _;
        cbn [empties poll_init prev_fdd_empty prev_cdrom_empty prev_rdisk_empty
             prev_mo_empty table units] in *; unfold init_empty;
        rewrite (lookup_total_map_seq (fun i => empty (_ !!! i))) by lia;
        reflexivity.
Qed.

End EdgeDetection.

Lemma linux_build_small : small_build linux_build.
Proof. intros c. destruct c; cbn; lia. Qed.

(** The theorem at work: from the idle snapshot to the busy table, with one
    session registered. *)
Lemma poller_edge_detection_witness :
  fst (poll_tick linux_build 1 busy_status (poll_init linux_build quiet_status))
  = [Broadcast (append "!led fdd 0 write" eol);
     Broadcast (append "!media cdrom 0 inserted" eol)].
Proof.
  rewrite (proj1 (poller_edge_detection linux_build 1 busy_status
                    (poll_init linux_build quiet_status) ltac:(lia)
                    (poll_init_sized linux_build quiet_status)
                    linux_build_small)).
  vm_compute. reflexivity.
Defined.

(** ** The checksum in the reply of [screencrc] *)

Lemma lxor_below (a b : Z) :
  0 <= a < 2 ^ 32 -> 0 <= b < 2 ^ 32 -> 0 <= Z.lxor a b < 2 ^ 32.
Proof.
  intros Ha Hb.
  assert (Hnn : 0 <= Z.lxor a b) by (apply Z.lxor_nonneg; lia).
  split; [done|].
  destruct (Z.eq_dec (Z.lxor a b) 0) as [->|Hne]; [lia|].
  apply Z.log2_lt_pow2; [lia|].
  pose proof (Z.log2_lxor a b ltac:(lia) ltac:(lia)) as Hlog.
  assert (Z.log2 a < 32).
  { destruct (Z.eq_dec a 0) as [->|]; [simpl; lia|].
    apply Z.log2_lt_pow2; lia. }
  assert (Z.log2 b < 32).
  { destruct (Z.eq_dec b 0) as [->|]; [simpl; lia|].
    apply Z.log2_lt_pow2; lia. }
  lia.
Qed.

Lemma crc_shift_below (crc : Z) :
  0 <= crc < 2 ^ 32 -> 0 <= crc_shift crc < 2 ^ 32.
Proof.
  intros Hcrc. rewrite crc_shift_bit. unfold crc32_bit.
  assert (Hhalf : 0 <= Z.shiftr crc 1 < 2 ^ 32).
  { rewrite Z.shiftr_div_pow2 by lia. change (2 ^ 1) with 2.
    split; [apply Z.div_pos; lia|].
    apply Z.div_lt_upper_bound; lia. }
  destruct (Z.odd crc); [|done].
  apply lxor_below; [done|lia].
Qed.

Lemma crc_byte_below (crc b : Z) :
  0 <= crc < 2 ^ 32 -> 0 <= b < 256 -> 0 <= crc_byte crc b < 2 ^ 32.
Proof.
  intros Hcrc Hb. unfold crc_byte. cbn [Nat.iter].
  do 8 apply crc_shift_below. apply lxor_below; [done|lia].
Qed.

Lemma fold_left_keeps {A B} (I : A -> Prop) (f : A -> B -> A) (l : list B) :
  (forall a x, I a -> I (f a x)) -> forall a, I a -> I (fold_left f l a).
Proof.
  intros Hf. induction l as [|x l IH]; intros a Ha; [done|].
  simpl. apply IH, Hf, Ha.
Qed.

Lemma hex_value_from_append (a b : string) :
  forall acc, hex_value_from acc (append a b)
              = hex_value_from (hex_value_from acc a) b.
Proof. induction a as [|ch a IH]; intros acc; simpl; [done|]. by rewrite IH. Qed.

Lemma hex_digit_read (d : Z) : 0 <= d < 16 -> hex_digit_value (hex_digit d) = d.
Proof.
  intros Hd.
  assert (Hcases : d = 0 \/ d = 1 \/ d = 2 \/ d = 3 \/ d = 4 \/ d = 5 \/ d = 6
                   \/ d = 7 \/ d = 8 \/ d = 9 \/ d = 10 \/ d = 11 \/ d = 12
                   \/ d = 13 \/ d = 14 \/ d = 15) by lia.
  repeat (destruct Hcases as [->|Hcases]; [reflexivity|]). by subst.
Qed.

Lemma length_hex_digits (n : nat) (z : Z) : String.length (hex_digits n z) = n.
Proof.
  revert z. induction n as [|n IH]; intros z; [done|].
  cbn [hex_digits]. 
  assert (Hlen : forall a b, String.length (append a b)
                             = (String.length a + String.length b)%nat).
  { intros a b. induction a as [|ch a IHa]; simpl; [done|]. by rewrite IHa. }
  rewrite Hlen, IH. simpl. lia.
Qed.

Lemma hex_digits_read (n : nat) :
  forall z, hex_value (hex_digits n z) = z mod 16 ^ Z.of_nat n.
Proof.
  unfold hex_value. induction n as [|n IH]; intros z.
  - simpl. by rewrite Z.mod_1_r.
  - cbn [hex_digits]. rewrite hex_value_from_append, IH. cbn [hex_value_from chr].
    rewrite hex_digit_read by (apply Z.mod_pos_bound; lia).
    rewrite Nat2Z.inj_succ, Z.pow_succ_r by lia.
    rewrite (Z.rem_mul_r z 16 (16 ^ Z.of_nat n)) by lia. lia.
Qed.

Lemma upper_hex_append (a b : string) :
  upper_hex (append a b) = upper_hex a && upper_hex b.
Proof.
  induction a as [|ch a IH]; [done|]. cbn [append upper_hex].
  by rewrite IH, andb_assoc.
Qed.

Lemma upper_hex_digit (d : Z) : 0 <= d < 16 -> upper_hex (chr (hex_digit d)) = true.
Proof.
  intros Hd.
  assert (Hcases : d = 0 \/ d = 1 \/ d = 2 \/ d = 3 \/ d = 4 \/ d = 5 \/ d = 6
                   \/ d = 7 \/ d = 8 \/ d = 9 \/ d = 10 \/ d = 11 \/ d = 12
                   \/ d = 13 \/ d = 14 \/ d = 15) by lia.
  repeat (destruct Hcases as [->|Hcases]; [reflexivity|]). by subst.
Qed.

Lemma upper_hex_digits (n : nat) : forall z, upper_hex (hex_digits n z) = true.
Proof.
  induction n as [|n IH]; intros z; [done|].
  cbn [hex_digits]. rewrite upper_hex_append, IH.
  apply upper_hex_digit, Z.mod_pos_bound. lia.
Qed.

Lemma crc32_below (data : list Z) :
  Forall (fun v => 0 <= v < 256) data -> 0 <= crc32 data < 2 ^ 32.
Proof.
  intros Hdata. unfold crc32. apply lxor_below; [|lia].
  assert (Hfold : forall crc, 0 <= crc < 2 ^ 32 ->
                    0 <= fold_left crc32_update data crc < 2 ^ 32).
  { induction Hdata as [|v data Hv Hdata IH]; intros crc Hcrc; [done|].
    cbn [fold_left]. apply IH. rewrite <- crc_byte_update.
    by apply crc_byte_below. }
  apply Hfold. lia.
Qed.

Lemma region_bgr_bytes (b : bitmap_t) (x0 y0 w h : Z) :
  frame_of_bytes b -> Forall (fun v => 0 <= v < 256) (region_bgr b x0 y0 w h).
Proof.
  intros Hbytes. unfold region_bgr.
  induction (seqZ y0 h) as [|y ys IHy]; [by apply Forall_nil|].
  cbn [flat_map]. apply Forall_app. split; [|exact IHy]. clear IHy.
  induction (seqZ x0 w) as [|x xs IHx]; [by apply Forall_nil|].
  cbn [flat_map]. apply Forall_app. split; [|exact IHx].
  unfold bgr. repeat (apply Forall_cons; split; [apply Hbytes|]).
  by apply Forall_nil.
Qed.

Lemma clamp_region_positive (xargv : list string) (bw bh rx ry rw rh : Z) :
  clamp_region xargv bw bh = Some (rx, ry, rw, rh) -> 0 < rw /\ 0 < rh.
Proof.
  unfold clamp_region.
  destruct (if (6 <=? length xargv)%nat then _ else _) as [[[x y] w] h].
  cbv zeta. destruct (_ || _) eqn:Hpos; [done|].
  apply orb_false_iff in Hpos as [Hw Hh]. apply Z.leb_gt in Hw, Hh.
  by intros [= _ _ <- <-].
Qed.

Section Screencrc.

Variable P : platform.

Lemma dispatch_screencrc (H : host) (xargv : list string) :
  lower (arg xargv 0) = "screencrc"%string ->
  dispatch P H xargv = do_screencrc P H xargv.
Proof.
  intros Hname. unfold dispatch. by name_tests xargv Hname.
Qed.

(** C7.  When [screencrc] finds a frame buffer of bytes that holds the
    visible rectangle, and its region, once clamped, is not empty and lies
    in the visible rectangle, the reply is [OK], the checksum as eight
    hexadecimal digits in upper case, and the sizes of the rectangle; the
    checksum is the CRC-32 (reflected, polynomial 0xEDB88320, initial value
    and final XOR 0xFFFFFFFF, byte by byte) of the blue, green and red
    bytes of the pixels of the region, row by row, the alpha bytes left
    out; and the reply is the same on a frame buffer that differs in alpha
    bytes only. *)
Theorem screencrc_checksum (H : host) (xargv : list string)
    (bx by_ bw bh : Z) (b : bitmap_t) (rx ry rw rh : Z) :
  lower (arg xargv 0) = "screencrc"%string ->
  resolve_monitor P H xargv = inr (bx, by_, bw, bh, b) ->
  in_frame b bx by_ bw bh -> frame_of_bytes b ->
  clamp_region xargv bw bh = Some (rx, ry, rw, rh) ->
  within rx ry rw rh bw bh ->
  (exists field : string,
      dispatch P H xargv
      = Done [Send (append "OK " (append field
                (cut 116 (append " " (append (fmt_d bw) (append " "
                   (append (fmt_d bh) nl)))))))]
      /\ String.length field = 8%nat
      /\ upper_hex field = true
      /\ hex_value field = crc32 (region_bgr b (bx + rx) (by_ + ry) rw rh))
  /\ forall (H' : host) (b' : bitmap_t),
       resolve_monitor P H' xargv = inr (bx, by_, bw, bh, b') ->
       in_frame b' bx by_ bw bh ->
       alpha_only b b' ->
       dispatch P H' xargv = dispatch P H xargv.
Proof.
  intros Hname Hmon Hframe Hbytes Hclamp ((Hrx & Hrw) & (Hry & Hrh)).
  destruct (clamp_region_positive _ _ _ _ _ _ _ Hclamp) as [Hw Hh].
  assert (Hreply : forall H0 b0,
             resolve_monitor P H0 xargv = inr (bx, by_, bw, bh, b0) ->
             in_frame b0 bx by_ bw bh ->
             dispatch P H0 xargv
             = Done [Send (snprintf 128
                       (append "OK "
                          (append (fmt_08X (crc32 (region_bgr b0 (bx + rx)
                                                     (by_ + ry) rw rh)))
                             (append " " (append (fmt_d bw) (append " "
                                (append (fmt_d bh) nl)))))))]).
  { intros H0 b0 Hmon0 ((Hx0 & Hy0 & _ & _) & (Hxw & Hyh) & Hsize).
    rewrite dispatch_screencrc by done.
    unfold do_screencrc. rewrite Hmon0, Hclamp.
    rewrite crc_region_crc32; [done|]. unfold in_frame. lia. }
  split.
  - exists (fmt_08X (crc32 (region_bgr b (bx + rx) (by_ + ry) rw rh))).
    split; [|split; [|split]].
    + rewrite (Hreply H b Hmon Hframe). reflexivity.
    + apply length_hex_digits.
    + apply upper_hex_digits.
    + unfold fmt_08X. rewrite hex_digits_read.
      change (16 ^ Z.of_nat 8) with (2 ^ 32). apply Z.mod_small.
      by apply crc32_below, region_bgr_bytes.
  - intros H' b' Hmon' Hframe' Ha.
    rewrite (Hreply H' b' Hmon' Hframe'), (Hreply H b Hmon Hframe).
    by rewrite (region_bgr_alpha b b').
Qed.

End Screencrc.

Lemma test_card_in_frame : in_frame test_card 0 0 4 3.
Proof. unfold in_frame. simpl. lia. Qed.

Lemma test_card_bytes : frame_of_bytes test_card.
Proof. intros y k. simpl. apply Z.mod_pos_bound. lia. Qed.

(** The theorem at work: the whole screen of the test card, and the same
    with every alpha byte set. *)
Lemma screencrc_checksum_witness :
  (exists field : string,
      dispatch linux_build sample_host ["screencrc"%string]
      = Done [Send (append "OK " (append field (append " 4 3" nl)))]
      /\ hex_value field = crc32 (region_bgr test_card 0 0 4 3))
  /\ dispatch linux_build (host_showing test_card_opaque) ["screencrc"%string]
     = dispatch linux_build sample_host ["screencrc"%string].
Proof.
  destruct (screencrc_checksum linux_build sample_host ["screencrc"%string]
              0 0 4 3 test_card 0 0 4 3 eq_refl eq_refl test_card_in_frame
              test_card_bytes eq_refl)
    as [(field & Hd & _ & _ & Hv) Halpha].
  { unfold within. lia. }
  split.
  - exists field. split; [exact Hd|exact Hv].
  - apply (Halpha (host_showing test_card_opaque) test_card_opaque eq_refl);
      [unfold in_frame; simpl; lia|apply test_card_alpha].
Defined.

(** * Further properties

    ** The tokens of a line *)

Lemma cut_advance (n : nat) (s : string) : append (cut n s) (advance n s) = s.
Proof.
  revert n. induction s as [|ch s IH]; intros [|n]; simpl; try done.
  by rewrite IH.
Qed.

Lemma advance_strcspn_mem (s bad : string) (ch : ascii) (r : string) :
  advance (strcspn s bad) s = String ch r -> mem ch bad = true.
Proof.
  induction s as [|d s IH]; simpl; [done|].
  destruct (mem d bad) eqn:Hd; simpl; [|done].
  by intros [= <- _].
Qed.

Lemma advance_strcspn_nil (s bad : string) :
  advance (strcspn s bad) s = EmptyString -> no_char bad s = true.
Proof.
  induction s as [|d s IH]; simpl; [done|].
  destruct (mem d bad) eqn:Hd; simpl; [done|]. exact IH.
Qed.

Lemma no_char_cut_strcspn (s bad : string) :
  no_char bad (cut (strcspn s bad) s) = true.
Proof.
  induction s as [|d s IH]; simpl; [done|].
  destruct (mem d bad) eqn:Hd; simpl; [done|]. by rewrite Hd.
Qed.

Lemma count_char_append (c : ascii) (a b : string) :
  count_char c (append a b) = (count_char c a + count_char c b)%nat.
Proof. induction a as [|d a IH]; simpl; [done|]. rewrite IH. lia. Qed.

Lemma count_char_absent (c : ascii) (s : string) :
  no_char (chr c) s = true -> count_char c s = 0%nat.
Proof.
  induction s as [|d s IH]; simpl; [done|].
  rewrite orb_false_r. destruct (Ascii.eqb d c); [done|]. exact IH.
Qed.

Lemma mem_chr (c d : ascii) : mem c (chr d) = true -> c = d.
Proof. simpl. rewrite orb_false_r. apply Ascii.eqb_eq. Qed.

(** The token [ctrl_strsep] returns holds no separator. *)
Lemma ctrl_strsep_token (s sep tok : string) (rest : option string) :
  ctrl_strsep (Some s) sep = (Some tok, rest) -> no_char sep tok = true.
Proof.
  unfold ctrl_strsep.
  destruct (advance (strcspn s sep) s) as [|ch r] eqn:Hadv.
  - intros [= <- _]. by apply advance_strcspn_nil.
  - intros [= <- _]. apply no_char_cut_strcspn.
Qed.

Lemma split_args_length (slots : nat) :
  forall linespn, (length (split_args slots linespn) <= slots - 1)%nat.
Proof.
  induction slots as [|slots IH]; intros linespn; [done|]. simpl.
  destruct (ctrl_strsep linespn (chr SP)) as [[tok|] rest]; [|simpl; lia].
  destruct slots as [|slots]; [done|].
  cbn [length]. specialize (IH rest). lia.
Qed.

Lemma split_args_no_space (slots : nat) :
  forall linespn,
    Forall (fun w => no_char (chr SP) w = true) (split_args slots linespn).
Proof.
  induction slots as [|slots IH]; intros linespn; [by apply Forall_nil|].
  simpl.
  destruct (ctrl_strsep linespn (chr SP)) as [[tok|] rest] eqn:Hsep;
    [|by apply Forall_nil].
  destruct slots as [|slots]; [by apply Forall_nil|].
  apply Forall_cons. split; [|apply IH].
  destruct linespn as [s|]; [|done].
  by eapply ctrl_strsep_token.
Qed.

(** Splitting a line with fewer spaces than [xargv] has entries loses
    nothing. *)
Lemma split_args_rejoin (slots : nat) :
  forall s : string,
    (count_char SP s < S slots)%nat ->
    join (split_args (S (S slots)) (Some s)) = s
    /\ length (split_args (S (S slots)) (Some s)) = S (count_char SP s).
Proof.
  induction slots as [|slots IH]; intros s Hcount.
  - rewrite split_args_step. unfold ctrl_strsep.
    destruct (advance (strcspn s (chr SP)) s) as [|ch r] eqn:Hadv.
    + apply advance_strcspn_nil in Hadv.
      rewrite (count_char_absent _ _ Hadv). done.
    + exfalso. pose proof (cut_advance (strcspn s (chr SP)) s) as Hs.
      rewrite Hadv in Hs. rewrite <- Hs in Hcount.
      rewrite count_char_append in Hcount. simpl in Hcount.
      rewrite (mem_chr _ _ (advance_strcspn_mem _ _ _ _ Hadv)) in Hcount.
      rewrite Ascii.eqb_refl in Hcount. lia.
  - rewrite split_args_step. unfold ctrl_strsep.
    destruct (advance (strcspn s (chr SP)) s) as [|ch r] eqn:Hadv.
    + apply advance_strcspn_nil in Hadv.
      rewrite (count_char_absent _ _ Hadv). done.
    + pose proof (cut_advance (strcspn s (chr SP)) s) as Hs.
      rewrite Hadv in Hs.
      pose proof (mem_chr _ _ (advance_strcspn_mem _ _ _ _ Hadv)) as ->.
      assert (Hcut : count_char SP (cut (strcspn s (chr SP)) s) = 0%nat)
        by apply count_char_absent, no_char_cut_strcspn.
      assert (Hc : count_char SP s = S (count_char SP r)).
      { rewrite <- Hs at 1. rewrite count_char_append, Hcut.
        cbn [count_char]. by rewrite Ascii.eqb_refl. }
      destruct (IH r) as [Hjoin Hlen]; [lia|].
      split.
      * rewrite join_cons.
        2:{ intros Hnil. by rewrite Hnil in Hlen. }
        by rewrite Hjoin.
      * cbn [length]. rewrite Hlen. lia.
Qed.

(** X1.  Whatever the line, the dispatcher is handed at least one and at
    most 511 tokens, the array [xargv] having 512 entries of which the last
    is given up, and no token holds a space. *)
Theorem tokens_bounded (line : string) :
  (1 <= length (split_args XARGV_SIZE (Some line)) <= 511)%nat
  /\ Forall (fun w => no_char (chr SP) w = true)
            (split_args XARGV_SIZE (Some line)).
Proof.
  split; [split|].
  - unfold XARGV_SIZE. rewrite split_args_step. unfold ctrl_strsep.
    destruct (advance _ line); cbn [length]; lia.
  - pose proof (split_args_length XARGV_SIZE (Some line)) as Hlen.
    unfold XARGV_SIZE in *. lia.
  - apply split_args_no_space.
Qed.

(** X2.  Splitting and joining are inverse to each other.  A line with
    fewer than 511 spaces is split into one token more than it has spaces,
    empty tokens between adjacent spaces included, and the tokens joined by
    single spaces give the line back; fewer than 512 tokens without spaces
    or line ends, joined by single spaces, are split into themselves. *)
Theorem tokens_round_trip :
  (forall line : string,
      (count_char SP line < 511)%nat ->
      join (split_args XARGV_SIZE (Some line)) = line
      /\ length (split_args XARGV_SIZE (Some line)) = S (count_char SP line))
  /\ (forall ws : list string,
        ws <> [] -> Forall (fun w => is_token w = true) ws ->
        (length ws < XARGV_SIZE)%nat ->
        split_args XARGV_SIZE (Some (join ws)) = ws).
Proof.
  split.
  - intros line Hcount. by apply (split_args_rejoin 510).
  - intros ws Hne Hall Hlen. by apply split_args_join.
Qed.

(** ** The end of a line *)

Lemma strdup_append_nul (a b : string) :
  no_char (chr NUL) a = true -> strdup (append a (String NUL b)) = a.
Proof.
  induction a as [|ch a IH]; simpl; [done|].
  rewrite orb_false_r. destruct (Ascii.eqb ch NUL); [done|]. simpl.
  intros Ha. by rewrite IH.
Qed.

Lemma strdup_append (a b : string) :
  no_char (chr NUL) a = true -> strdup (append a b) = append a (strdup b).
Proof.
  induction a as [|ch a IH]; simpl; [done|].
  rewrite orb_false_r. destruct (Ascii.eqb ch NUL); [done|]. simpl.
  intros Ha. by rewrite IH.
Qed.

Lemma line_end_no_nul (a : string) :
  no_char line_end a = true -> no_char (chr NUL) a = true.
Proof.
  apply no_char_subset. intros ch. simpl.
  destruct (Ascii.eqb ch NUL); [by rewrite !orb_true_r|done].
Qed.

Lemma line_end_no_eol (a : string) :
  no_char line_end a = true -> no_char (String CR (chr LF)) a = true.
Proof.
  apply no_char_subset. intros ch. simpl.
  destruct (Ascii.eqb ch CR), (Ascii.eqb ch LF); by rewrite ?orb_true_r.
Qed.

(** The copy of the line, cut at its end. *)
Lemma line_copy_clean (a : string) :
  no_char line_end a = true ->
  cut (strcspn (strdup a) (String CR (chr LF))) (strdup a) = a.
Proof.
  intros Ha. rewrite strdup_clean by (by apply line_end_no_nul).
  rewrite strcspn_token by (by apply line_end_no_eol).
  by apply cut_whole.
Qed.

Lemma line_copy_ended (a b : string) (ch : ascii) :
  no_char line_end a = true -> mem ch line_end = true ->
  let l := append a (String ch b) in
  cut (strcspn (strdup l) (String CR (chr LF))) (strdup l) = a.
Proof.
  intros Ha Hch l. subst l.
  destruct (Ascii.eqb ch NUL) eqn:Hnul.
  - apply Ascii.eqb_eq in Hnul as ->.
    rewrite strdup_append_nul by (by apply line_end_no_nul).
    rewrite strcspn_token by (by apply line_end_no_eol).
    by apply cut_whole.
  - rewrite strdup_append by (by apply line_end_no_nul).
    cbn [strdup]. rewrite Hnul.
    rewrite strcspn_append; [apply cut_append|by apply line_end_no_eol|].
    simpl in *. rewrite Hnul in Hch. by rewrite !orb_false_r in *.
Qed.

Section LineEnd.

Variable P : platform.
Variable H : host.

(** X3.  A command line ends at its first CR, LF or zero byte: what follows
    it has no effect on what the command does, and a line that begins with
    one of them does nothing and sends nothing. *)
Theorem line_ends_at_terminator (a b : string) (ch : ascii) :
  no_char line_end a = true -> mem ch line_end = true ->
  ctrl_handle_command P H (append a (String ch b)) = ctrl_handle_command P H a
  /\ ctrl_handle_command P H (String ch b) = Done [].
Proof.
  intros Ha Hch. unfold ctrl_handle_command.
  pose proof (line_copy_ended a b ch Ha Hch) as H1. cbv zeta in H1.
  pose proof (line_copy_ended EmptyString b ch eq_refl Hch) as H2.
  cbv zeta in H2. cbn [append] in H2.
  rewrite H1, H2, (line_copy_clean a Ha). done.
Qed.

End LineEnd.

Lemma line_ends_at_terminator_witness :
  ctrl_handle_command linux_build sample_host
    (append "cdeject 1" (String CR (String LF "cdeject 2")))
  = ctrl_handle_command linux_build sample_host "cdeject 1"
  /\ ctrl_handle_command linux_build sample_host (String CR (String LF "cdeject 2"))
     = Done [].
Proof.
  exact (line_ends_at_terminator linux_build sample_host
           "cdeject 1" (String LF "cdeject 2") CR eq_refl eq_refl).
Defined.

(** ** The name of a command *)

Lemma cmd_is_lower (a b : string) (rest : list string) (name : string) :
  lower a = lower b -> cmd_is (a :: rest) name = cmd_is (b :: rest) name.
Proof.
  intros Heq. unfold cmd_is, arg. cbn [nth].
  by rewrite (strcasecmp_lower a), (strcasecmp_lower b), Heq.
Qed.

Section CommandNames.

Variable P : platform.
Variable H : host.

(** X4.  The name of a command is compared without regard to case: two
    lines that differ in the case of letters of the first token only are
    served alike, or both are answered as unknown commands, each with its
    first token as it was typed. *)
Theorem command_name_ignores_case (a b : string) (rest : list string) :
  lower a = lower b ->
  dispatch P H (a :: rest) = dispatch P H (b :: rest)
  \/ (dispatch P H (a :: rest) = Done [unknown_reply a]
      /\ dispatch P H (b :: rest) = Done [unknown_reply b]).
Proof.
  intros Heq. unfold dispatch. cbv zeta.
  rewrite !(cmd_is_lower a b rest _ Heq).
  change (length (a :: rest)) with (length (b :: rest)).
  repeat (match goal with
          | |- (if ?t then _ else _) = _ \/ _ =>
              destruct t; [left; reflexivity|cbv iota]
          end).
  right. split; reflexivity.
Qed.

End CommandNames.

Lemma command_name_ignores_case_witness :
  dispatch linux_build sample_host ["CdEject"; "1"]%string
  = dispatch linux_build sample_host ["cdeject"; "1"]%string
  \/ (dispatch linux_build sample_host ["CdEject"; "1"]%string
      = Done [unknown_reply "CdEject"]
      /\ dispatch linux_build sample_host ["cdeject"; "1"]%string
         = Done [unknown_reply "cdeject"]).
Proof.
  exact (command_name_ignores_case linux_build sample_host
           "CdEject" "cdeject" ["1"%string] eq_refl).
Defined.

Section ShortCommands.

Variable P : platform.
Variable H : host.

(** X5.  A load or eject command with fewer tokens than it needs (three for
    [cdload], four for the other loads, two for an eject) is not recognised
    at all: the reply is that of an unknown command, with the name as it was
    typed. *)
Theorem short_command_unknown (m : media_cmd) (xargv : list string) :
  lower (arg xargv 0) = cmd_name m ->
  (length xargv < cmd_tokens m)%nat ->
  dispatch P H xargv = Done [unknown_reply (arg xargv 0)].
Proof.
  intros Hname Hargc. unfold dispatch.
  destruct m; cbn [cmd_name cmd_tokens] in *;
    name_tests xargv Hname;
    by rewrite (proj2 (Nat.leb_gt _ _) Hargc).
Qed.

End ShortCommands.

Lemma short_command_unknown_witness :
  dispatch linux_build sample_host ["cdload"; "0"]%string
  = Done [unknown_reply "cdload"].
Proof.
  apply (short_command_unknown linux_build sample_host CdLoad);
    [reflexivity|simpl; lia].
Defined.

(** ** The drives the host is called on *)

Lemma to_uint8_range (z : Z) : 0 <= to_uint8 z < 256.
Proof. unfold to_uint8. apply Z.mod_pos_bound. lia. Qed.

Ltac in_range :=
  repeat (apply Forall_cons; split; [first [exact I|done|lia]|]);
  by apply Forall_nil.

Section DriveRange.

Variable P : platform.
Variable H : host.

Lemma status_class_in_range (c : dev_class) (media : bool) (n : Z)
    (tbl : list dev_status) :
  Forall (drive_in_range P) (status_class c media n tbl).
Proof.
  unfold status_class. induction (seq 0 (Z.to_nat n)) as [|i l IH];
    [by apply Forall_nil|].
  cbn [flat_map]. apply Forall_app. split; [|exact IH].
  destruct media; in_range.
Qed.

Lemma ctrl_send_status_in_range :
  Forall (drive_in_range P) (ctrl_send_status P H).
Proof.
  unfold ctrl_send_status. cbv zeta.
  repeat (apply Forall_app; split; [apply status_class_in_range|]).
  in_range.
Qed.

Lemma do_screenshot_in_range (xargv : list string) :
  calls_in_range P (do_screenshot P H xargv).
Proof.
  unfold do_screenshot.
  destruct (resolve_monitor P H xargv) as [e|[[[[bx by_] bw] bh] b]];
    [cbn; in_range|].
  destruct (collect _) as [rows|f]; cbn [bind calls_in_range]; [|exact I].
  apply Forall_cons. split; [exact I|].
  induction rows as [|r rows IH]; [by apply Forall_nil|].
  apply Forall_cons. by split.
Qed.

Lemma do_screencrc_in_range (xargv : list string) :
  calls_in_range P (do_screencrc P H xargv).
Proof.
  unfold do_screencrc.
  destruct (resolve_monitor P H xargv) as [e|[[[[bx by_] bw] bh] b]];
    [cbn; in_range|].
  destruct (clamp_region xargv bw bh) as [[[[rx ry] rw] rh]|];
    [|cbn; in_range].
  destruct (crc_region _ _ _ _ _ _ _) as [crc|f]; cbn [bind calls_in_range];
    [in_range|exact I].
Qed.

Lemma do_cdload_in_range (xargv : list string) :
  calls_in_range P (do_cdload P xargv).
Proof.
  unfold do_cdload.
  destruct (is_null xargv 1 || is_null xargv 2); [cbn; in_range|].
  cbv zeta. destruct (CDROM_NUM P <=? _) eqn:Hid; [cbn; in_range|].
  apply Z.leb_gt in Hid.
  destruct (cd_path P (drop 2 xargv) true EmptyString) as [[fn|]|f];
    cbn; [|in_range|exact I].
  pose proof (to_uint8_range (atoi (arg xargv 1))).
  apply Forall_cons. split; [cbn; lia|in_range].
Qed.

Lemma do_load3_in_range (units : Z) (mount : Z -> string -> option Z -> action)
    (cls : string) (xargv : list string) :
  (forall id fn wp, 0 <= id < units -> drive_in_range P (mount id fn wp)) ->
  calls_in_range P (do_load3 P units mount cls xargv).
Proof.
  intros Hmount. unfold do_load3.
  destruct (is_null xargv 1 || is_null xargv 2); [cbn; in_range|].
  destruct (ctrl_process_media_commands_3 P xargv) as [r|f] eqn:Hr;
    cbn [bind]; [|exact I].
  destruct (m_err r || (units <=? m_id r)) eqn:Hc; [cbn; in_range|].
  apply orb_false_iff in Hc as [_ Hid]. apply Z.leb_gt in Hid.
  destruct (strip_quote P (m_fn r)) as [fn|f']; cbn; [|exact I].
  apply Forall_cons. split; [|in_range].
  apply Hmount. rewrite (parsed_id _ _ _ Hr) in *.
  pose proof (to_uint8_range (atoi (nth 1 xargv EmptyString))). lia.
Qed.

Lemma do_eject_in_range (units : Z) (eject : Z -> action) (cls : string)
    (xargv : list string) :
  (forall id, 0 <= id < units -> drive_in_range P (eject id)) ->
  calls_in_range P (do_eject units eject cls xargv).
Proof.
  intros Heject. unfold do_eject. cbv zeta.
  destruct (units <=? _) eqn:Hid; [cbn; in_range|].
  apply Z.leb_gt in Hid. cbn.
  apply Forall_cons. split; [|in_range].
  apply Heject. pose proof (to_uint8_range (atoi (arg xargv 1))). lia.
Qed.

Lemma dispatch_in_range (xargv : list string) :
  calls_in_range P (dispatch P H xargv).
Proof.
  unfold dispatch. cbv zeta.
  repeat (match goal with
          | |- calls_in_range _ (if ?t then _ else _) =>
              destruct t; cbv iota;
              [first [ apply do_cdload_in_range
                     | apply do_load3_in_range; by cbn
                     | apply do_eject_in_range; by cbn
                     | apply Forall_app; split;
                       [apply ctrl_send_status_in_range|in_range]
                     | apply do_screenshot_in_range
                     | apply do_screencrc_in_range
                     | cbn [calls_in_range]; in_range ]|]
          end).
  cbn [calls_in_range]. in_range.
Qed.

(** X6.  Whatever the line, every mount and every eject it makes the host
    perform is on a drive that exists: the id passed is at least 0 and
    below the number of units of the class (two for cartridges). *)
Theorem host_calls_in_range (line : string) :
  calls_in_range P (ctrl_handle_command P H line).
Proof.
  unfold ctrl_handle_command. cbv zeta.
  destruct (cut _ _) eqn:Hcut; [by apply Forall_nil|].
  apply dispatch_in_range.
Qed.

End DriveRange.

(** ** Commands that are not recognised *)

Lemma tolower_nul (ch : ascii) : tolower ch = NUL -> ch = NUL.
Proof. by destruct ch as [[] [] [] [] [] [] [] []]. Qed.

Lemma code_inj (c d : ascii) : code c = code d -> c = d.
Proof.
  unfold code. intros Hcd%Nat2Z.inj.
  by rewrite <- (ascii_nat_embedding c), <- (ascii_nat_embedding d), Hcd.
Qed.

Lemma no_nul_cons (ch : ascii) (s : string) :
  no_char (chr NUL) (String ch s) = true ->
  ch <> NUL /\ no_char (chr NUL) s = true.
Proof.
  simpl. rewrite orb_false_r. intros [Hch Hs]%andb_true_iff. split; [|done].
  intros ->. by rewrite Ascii.eqb_refl in Hch.
Qed.

(** Strings without zero bytes that [strcasecmp] finds equal are equal once
    lowered. *)
Lemma strcasecmp_zero (a : string) :
  forall b : string,
    no_char (chr NUL) a = true -> no_char (chr NUL) b = true ->
    strcasecmp a b = 0 -> lower a = lower b.
Proof.
  induction a as [|c a IH]; intros [|d b] Ha Hb; simpl; try done.
  - apply no_nul_cons in Hb as [Hd _]. intros Hz. destruct Hd.
    apply tolower_nul, code_inj. change (code NUL) with 0. lia.
  - apply no_nul_cons in Ha as [Hc _]. intros Hz. destruct Hc.
    by apply tolower_nul, code_inj.
  - apply no_nul_cons in Ha as [_ Ha]. apply no_nul_cons in Hb as [_ Hb].
    destruct (Ascii.eqb (tolower c) (tolower d)) eqn:Hcd.
    + apply Ascii.eqb_eq in Hcd as ->. intros Hz. f_equal. by apply IH.
    + intros Hz. apply Ascii.eqb_neq in Hcd. destruct Hcd.
      apply code_inj. lia.
Qed.

Lemma command_names_plain :
  Forall (fun n => no_char (chr NUL) n = true /\ lower n = n) command_names.
Proof.
  unfold command_names.
  repeat (apply Forall_cons; split; [by split|]). by apply Forall_nil.
Qed.

Lemma cmd_is_unknown (name : string) (rest : list string) (n : string) :
  no_char (chr NUL) name = true -> known_command name = false ->
  In n command_names -> cmd_is (name :: rest) n = false.
Proof.
  intros Hnul Hunknown Hin. unfold cmd_is, arg. cbn [nth].
  destruct (strcasecmp name n =? 0) eqn:Hcmp; [|done].
  apply Z.eqb_eq in Hcmp.
  pose proof command_names_plain as Hplain.
    rewrite List.Forall_forall in Hplain.
  destruct (Hplain n) as [Hn Hlow]; [done|].
  apply strcasecmp_zero in Hcmp; [|done..]. rewrite Hlow in Hcmp.
  assert (known_command name = true); [|congruence].
  apply existsb_exists. exists n. split; [done|]. by apply String.eqb_eq.
Qed.

Section UnknownCommands.

Variable P : platform.
Variable H : host.

(** X7.  A first token that, lowered, is none of the twenty command names
    is answered with the unknown-command reply and nothing else is done.
    The reply is built in 128 bytes: it is never longer than 127
    characters, and for a name of 106 characters or more it is the prefix
    and the first 106 characters of the name, without the line feed that
    ends every other reply. *)
Theorem unknown_command_reply (name : string) (rest : list string) :
  no_char (chr NUL) name = true -> known_command name = false ->
  dispatch P H (name :: rest) = Done [unknown_reply name]
  /\ (exists msg, unknown_reply name = Send msg /\ (String.length msg <= 127)%nat)
  /\ ((106 <= String.length name)%nat ->
      unknown_reply name
      = Send (append "ERR unknown command: " (cut 106 name))).
Proof.
  intros Hnul Hunknown. split; [|split].
  - unfold dispatch. cbv zeta.
    rewrite !(cmd_is_unknown name rest) by
      (try done; unfold command_names; repeat first [by left | right]).
    reflexivity.
  - eexists. split; [reflexivity|]. apply (length_cut 127).
  - intros Hlong. unfold unknown_reply, snprintf. f_equal.
    change (128 - 1)%nat
      with (String.length "ERR unknown command: " + 106)%nat.
    rewrite cut_past_prefix. f_equal.
    by apply cut_append_short.
Qed.

End UnknownCommands.

Lemma unknown_command_reply_witness :
  dispatch linux_build sample_host [long_name 200; "x"%string]
  = Done [Send (append "ERR unknown command: " (long_name 106))].
Proof.
  destruct (unknown_command_reply linux_build sample_host (long_name 200)
              ["x"%string] eq_refl eq_refl) as (Hd & _ & Hcut).
  rewrite Hd, Hcut; [reflexivity|vm_compute; lia].
Defined.

(** ** The reply to [status] *)

(** One loop of [ctrl_send_status], as the lines it sends. *)
Lemma status_class_text (c : dev_class) (n : Z) (tbl : list dev_status) :
  n <= 256 ->
  status_class c (has_media c) n tbl
  = map Send (flat_map (fun i => unit_status c i (tbl !!! i))
                       (seq 0 (Z.to_nat n))).
Proof.
  intros Hn. unfold status_class. symmetry. apply map_flat_map_in.
  intros i [_ Hi]%in_seq. unfold unit_status. cbn [map].
  rewrite led_line_text by lia.
  destruct (has_media c); cbn [map]; [|done].
  by rewrite media_line_text by lia.
Qed.

Lemma length_unit_lines (c : dev_class) (tbl : list dev_status) (n : nat) :
  length (flat_map (fun i => unit_status c i (tbl !!! i)) (seq 0 n))
  = ((if has_media c then 2 else 1) * n)%nat.
Proof.
  rewrite <- (length_seq n 0) at 2.
  induction (seq 0 n) as [|i l IH]; [destruct (has_media c); simpl; lia|].
  cbn [flat_map]. rewrite length_app, IH. unfold unit_status.
  destruct (has_media c); simpl; lia.
Qed.

Lemma unit_lines_short (c : dev_class) (tbl : list dev_status) (n : nat) :
  (n <= 256)%nat ->
  Forall (fun msg => (String.length msg <= 255)%nat)
         (flat_map (fun i => unit_status c i (tbl !!! i)) (seq 0 n)).
Proof.
  intros Hn. apply Forall_forall. intros msg Hin.
  apply list_elem_of_In, in_flat_map in Hin as (i & [_ Hi]%in_seq & Hmsg).
  unfold unit_status in Hmsg.
  assert (Hcase : msg = led_text c i (tbl !!! i)
                  \/ msg = media_text c i (tbl !!! i)).
  { destruct Hmsg as [<-|Hmsg]; [by left|].
    destruct (has_media c); [|done]. destruct Hmsg as [<-|[]]. by right. }
  destruct Hcase as [->| ->].
  - rewrite <- (led_line_text 256) by lia. apply (length_cut 255).
  - rewrite <- (media_line_text 256) by lia. apply (length_cut 255).
Qed.

Section Status.

Variable P : platform.
Variable H : host.

Lemma ctrl_send_status_text :
  small_build P -> ctrl_send_status P H = map Send (status_text P H).
Proof.
  intros Hsmall. unfold ctrl_send_status, status_text, classes. cbv zeta.
  cbn [flat_map]. rewrite !map_app, app_nil_r.
  rewrite <- !app_assoc.
  rewrite <- (status_class_text Fdd) by apply (Hsmall Fdd).
  rewrite <- (status_class_text Cdrom) by apply (Hsmall Cdrom).
  rewrite <- (status_class_text Hdd) by apply (Hsmall Hdd).
  rewrite <- (status_class_text Rdisk) by apply (Hsmall Rdisk).
  rewrite <- (status_class_text Mo) by apply (Hsmall Mo).
  rewrite <- (status_class_text Net) by apply (Hsmall Net).
  repeat f_equal. by destruct (dopause H).
Qed.

(** X8.  The reply to [status], whatever follows the name on the line, is
    the status lines and then [OK], each sent as one message.  The status
    lines are, class by class (floppy, CD-ROM, hard disk, removable disk,
    MO, network) and unit by unit, the line [!led <class> <unit> <state>]
    and, for a class with media, the line [!media <class> <unit> <state>],
    and at the end [!paused 1] or [!paused 0]: two lines for each floppy,
    CD-ROM, removable-disk and MO unit, one for each hard-disk bus and
    network card, one for the pause state, none longer than 255
    characters.  (No class has more than 256 units.) *)
Theorem status_reply_shape (name : string) (rest : list string) :
  lower name = "status"%string ->
  small_build P ->
  dispatch P H (name :: rest)
  = Done (map Send (status_text P H ++ [append "OK" eol]))
  /\ length (status_text P H)
     = (2 * Z.to_nat (FDD_NUM P) + 2 * Z.to_nat (CDROM_NUM P)
        + Z.to_nat (HDD_BUS_USB P) + 2 * Z.to_nat (RDISK_NUM P)
        + 2 * Z.to_nat (MO_NUM P) + Z.to_nat (NET_CARD_MAX P) + 1)%nat
  /\ Forall (fun msg => (String.length msg <= 255)%nat) (status_text P H).
Proof.
  intros Hname Hsmall. split; [|split].
  - unfold dispatch.
    assert (Hn : lower (arg (name :: rest) 0) = "status"%string) by done.
    name_tests (name :: rest) Hn.
    by rewrite ctrl_send_status_text, map_app.
  - unfold status_text, classes. cbn [flat_map].
    rewrite !length_app, !length_unit_lines. simpl. lia.
  - unfold status_text, classes. cbn [flat_map].
    rewrite app_nil_r, <- !app_assoc.
    repeat (apply Forall_app; split;
            [apply unit_lines_short;
             match goal with
             | |- (Z.to_nat (units P ?c) <= 256)%nat =>
                 pose proof (Hsmall c); lia
             end|]).
    apply Forall_cons. split; [|by apply Forall_nil].
    unfold paused_text. destruct (dopause H); simpl; lia.
Qed.

End Status.

Lemma status_reply_shape_witness :
  (exists others : list string,
      dispatch linux_build sample_host ["STATUS"; "now"]%string
      = Done (map Send (append "!led fdd 0 idle" eol
                        :: append "!media fdd 0 ejected" eol
                        :: others ++ [append "OK" eol])))
  /\ length (status_text linux_build sample_host) = 53%nat.
Proof.
  destruct (status_reply_shape linux_build sample_host "STATUS" ["now"%string]
              eq_refl linux_build_small) as (Hd & Hlen & _).
  split; [|rewrite Hlen; reflexivity].
  exists (drop 2 (status_text linux_build sample_host)).
  rewrite Hd. reflexivity.
Defined.

(** ** The path of [cdload] *)

Section CdPath.

Variable P : platform.
Variable H : host.

(** The loop from the second token of the path on: it never leaves the
    buffer, and accepts the path when it is shorter than the buffer. *)
Lemma cd_path_rest (toks : list string) :
  forall fn : string,
    strlen fn < PATH_MAX P ->
    cd_path P toks false fn
    = Done (if strlen (rejoined fn false toks) <? PATH_MAX P
            then Some (rejoined fn false toks) else None).
Proof.
  induction toks as [|tok rest IH]; intros fn Hfn.
  - cbn. by rewrite (proj2 (Z.ltb_lt _ _) Hfn).
  - cbn [cd_path]. rewrite rejoined_cons.
    pose proof (strlen_rejoined (append (append fn (chr SP)) tok) false rest)
      as Hlen.
    rewrite !strlen_append in Hlen.
    change (strlen (chr SP)) with 1 in Hlen.
    pose proof (strlen_nonneg tok). pose proof (strlen_nonneg fn).
    destruct (PATH_MAX P <=? strlen fn + strlen tok + 1) eqn:Hcheck.
    + apply Z.leb_le in Hcheck.
      by rewrite (proj2 (Z.ltb_ge _ _)) by lia.
    + apply Z.leb_gt in Hcheck.
      rewrite fn_strcat_fits by (change (strlen (chr SP)) with 1; lia).
      cbn [bind].
      rewrite fn_strcat_fits
        by (rewrite strlen_append; change (strlen (chr SP)) with 1; lia).
      cbn [bind]. apply IH.
      rewrite !strlen_append. change (strlen (chr SP)) with 1. lia.
Qed.

(** X9.  [cdload] with a valid drive never leaves the path buffer, and is
    decided by the length of the path alone: the tokens from the third on,
    joined by single spaces, are mounted when the path is shorter than
    [PATH_MAX - 1] for a path of one token, shorter than [PATH_MAX] for a
    path of several tokens; otherwise the reply is [ERR path too long] and
    nothing is mounted. *)
Theorem cdload_path_limit (xargv : list string) :
  lower (arg xargv 0) = "cdload"%string ->
  (3 <= length xargv)%nat ->
  to_uint8 (atoi (arg xargv 1)) < CDROM_NUM P ->
  let path := join (drop 2 xargv) in
  let limit := if (length xargv =? 3)%nat then PATH_MAX P - 1 else PATH_MAX P in
  dispatch P H xargv
  = Done (if strlen path <? limit
          then [cdrom_mount (to_uint8 (atoi (arg xargv 1))) path;
                ok_reply (PATH_MAX P + 64) "cdrom"
                         (to_uint8 (atoi (arg xargv 1))) "loaded"]
          else [reply "ERR path too long"]).
Proof.
  intros Hname Hargc Hid path limit.
  rewrite (dispatch_media P H CdLoad) by done.
  unfold do_cdload.
  rewrite !is_null_false by lia. cbn [orb]. cbv zeta.
  rewrite (proj2 (Z.leb_gt _ _) Hid).
  destruct xargv as [|x0 [|x1 [|tok rest]]]; [simpl in Hargc; lia..|].
  subst path limit. cbn [drop length Nat.eqb]. rewrite ?drop_0.
  cbn [cd_path]. change (strlen EmptyString) with 0. rewrite Z.add_0_l.
  pose proof (strlen_nonneg tok) as Htok.
  destruct (PATH_MAX P <=? strlen tok + 1) eqn:Hcheck.
  - apply Z.leb_le in Hcheck. cbn [bind].
    rewrite (proj2 (Z.ltb_ge _ _)); [done|].
    destruct rest as [|r rest]; cbn [length Nat.eqb]; [cbn [join]; lia|].
    rewrite join_cons by done.
    pose proof (strlen_nonneg (join (r :: rest))).
    rewrite strlen_append, strlen_cons. lia.
  - apply Z.leb_gt in Hcheck. cbn [bind].
    rewrite fn_strcat_fits by (change (strlen EmptyString) with 0; lia).
    cbn [bind append].
    rewrite cd_path_rest by lia. cbn [bind].
    destruct rest as [|r rest].
    + cbn [rejoined join length Nat.eqb].
      rewrite (proj2 (Z.ltb_lt (strlen tok) (PATH_MAX P))) by lia.
      by rewrite (proj2 (Z.ltb_lt (strlen tok) (PATH_MAX P - 1))) by lia.
    + assert (Hj : rejoined tok false (r :: rest) = join (tok :: r :: rest)).
      { unfold rejoined. rewrite (join_cons tok) by done. reflexivity. }
      rewrite Hj. cbn [length Nat.eqb].
      by destruct (strlen (join (tok :: r :: rest)) <? PATH_MAX P).
Qed.

End CdPath.

Lemma cdload_path_limit_witness :
  dispatch bsd_build sample_host ["cdload"; "0"; long_name 1000; long_name 22]%string
  = Done [cdrom_mount 0 (join [long_name 1000; long_name 22]);
          ok_reply (1024 + 64) "cdrom" 0 "loaded"]
  /\ dispatch bsd_build sample_host ["cdload"; "0"; long_name 1023]%string
     = Done [reply "ERR path too long"].
Proof.
  split.
  - exact (cdload_path_limit bsd_build sample_host
             ["cdload"; "0"; long_name 1000; long_name 22]%string
             eq_refl ltac:(simpl; lia) eq_refl).
  - exact (cdload_path_limit bsd_build sample_host
             ["cdload"; "0"; long_name 1023]%string
             eq_refl ltac:(simpl; lia) eq_refl).
Defined.

(** ** [screenshot] and the region of [screencrc] *)

Lemma atoi_range (s : string) : - 2 ^ 31 <= atoi s < 2 ^ 31.
Proof. apply wrap_int_range. Qed.

(** One axis of the clamp. *)
Lemma clamp_axis (x w b : Z) :
  - 2 ^ 31 <= x < 2 ^ 31 -> - 2 ^ 31 <= w < 2 ^ 31 -> 0 < b < 2 ^ 31 ->
  Z.max 0 x + w < 2 ^ 31 ->
  let x' := if x <? 0 then 0 else x in
  let w' := if b <? wrap_int (x' + w) then wrap_int (b - x') else w in
  0 < w' -> 0 <= x' /\ x' + w' <= b.
Proof.
  intros Hx Hw Hb Hfit x' w'. subst w'.
  assert (Hx' : x' = Z.max 0 x) by (subst x'; destruct (Z.ltb_spec x 0); lia).
  rewrite !Hx'. clear Hx' x'.
  rewrite (wrap_int_id (Z.max 0 x + w)) by lia.
  rewrite (wrap_int_id (b - Z.max 0 x)) by lia.
  destruct (Z.ltb_spec b (Z.max 0 x + w)); lia.
Qed.

Section Screen.

Variable P : platform.
Variable H : host.

Lemma resolve_monitor_positive (xargv : list string) (bx by_ bw bh : Z)
    (b : bitmap_t) :
  resolve_monitor P H xargv = inr (bx, by_, bw, bh, b) -> 0 < bw /\ 0 < bh.
Proof.
  unfold resolve_monitor. cbv zeta.
  destruct (_ || _); [done|]. destruct (_ =? _); [done|].
  destruct (blit_rect _) as [[[x y] w] h].
  destruct (target_buffer _); [|done].
  destruct ((w <=? 0) || (h <=? 0)) eqn:Hwh; [done|].
  intros [= _ _ <- <- _]. apply orb_false_iff in Hwh as [Hw Hh]. lia.
Qed.

Lemma dispatch_screenshot (xargv : list string) :
  lower (arg xargv 0) = "screenshot"%string ->
  dispatch P H xargv = do_screenshot P H xargv.
Proof.
  intros Hname. unfold dispatch. name_tests xargv Hname. reflexivity.
Qed.

Lemma length_concat_rows {A} (rows : list (list A)) (n : nat) :
  Forall (fun r => length r = n) rows ->
  length (concat rows) = (length rows * n)%nat.
Proof.
  induction rows as [|r rows IH]; [done|].
  intros [Hr Hrows]%Forall_cons. simpl. rewrite length_app, IH by done. lia.
Qed.

(** X10.  [screenshot] on a monitor that is shown, whose visible rectangle
    lies inside the frame buffer, answers with a header and then hands the
    rectangle to [ctrl_send_binary] row by row: as many calls as the
    rectangle has rows, each with four bytes for every pixel of a row, so
    that the number of bytes handed over after the header is the number the
    header gives.  Byte [k] of row [y] is byte [4 * bx + k] of line
    [by + y] of the frame buffer.  (What a call delivers is the matter of
    [ctrl_send_binary].) *)
Theorem screenshot_payload (xargv : list string) (bx by_ bw bh : Z)
    (b : bitmap_t) :
  lower (arg xargv 0) = "screenshot"%string ->
  resolve_monitor P H xargv = inr (bx, by_, bw, bh, b) ->
  in_frame b bx by_ bw bh ->
  exists rows : list (list Z),
    dispatch P H xargv
    = Done (Send (snprintf 128
                    (append "OK " (append (fmt_d bw) (append " "
                       (append (fmt_d bh) (append " "
                          (append (fmt_d (bw * bh * 4)) nl)))))))
            :: map SendBinary rows)
    /\ length rows = Z.to_nat bh
    /\ Forall (fun r => length r = Z.to_nat (4 * bw)) rows
    /\ Z.of_nat (length (concat rows)) = bw * bh * 4
    /\ forall y k : Z, 0 <= y < bh -> 0 <= k < 4 * bw ->
         (rows !!! Z.to_nat y) !!! Z.to_nat k = line b (by_ + y) (4 * bx + k).
Proof.
  intros Hname Hmon Hframe.
  destruct (resolve_monitor_positive _ _ _ _ _ _ Hmon) as [Hbw Hbh].
  destruct Hframe as ((Hx0 & Hy0 & _ & _) & (Hxw & Hyh) & (Hw & Hh)).
  exists (map (fun y => map (fun k => line b y (4 * bx + k)) (seqZ 0 (bw * 4)))
              (seqZ by_ bh)).
  assert (Hrows : Forall (fun r => length r = Z.to_nat (4 * bw))
            (map (fun y => map (fun k => line b y (4 * bx + k)) (seqZ 0 (bw * 4)))
                 (seqZ by_ bh))).
  { apply Forall_fmap, Forall_forall. intros y _. simpl.
    rewrite length_map, length_seqZ. f_equal. lia. }
  split; [|split; [|split; [|split]]].
  - rewrite dispatch_screenshot by done. unfold do_screenshot.
    rewrite Hmon. rewrite (wrap_int_id (by_ + bh)) by lia.
    replace (by_ + bh - by_) with bh by lia.
    rewrite (collect_done (fun y => frame_row b y bx bw)
               (fun y => map (fun k => line b y (4 * bx + k))
                             (seqZ 0 (bw * 4)))).
    + reflexivity.
    + intros y Hy%in_seqZ. unfold frame_row.
      apply (collect_done (fun k => bm_get b y (4 * bx + k))
               (fun k => line b y (4 * bx + k))).
      intros k Hk%in_seqZ. apply bm_get_in; lia.
  - by rewrite length_map, length_seqZ.
  - exact Hrows.
  - rewrite (length_concat_rows _ _ Hrows), length_map, length_seqZ. lia.
  - intros y k Hy Hk.
    rewrite !list_lookup_total_alt, list_lookup_fmap.
    rewrite lookup_seqZ_lt by lia. simpl.
    rewrite list_lookup_fmap, lookup_seqZ_lt by lia. simpl.
    f_equal; lia.
Qed.

(** X11.  The region [screencrc] works on lies inside the visible
    rectangle: when the request, its origin raised to zero, has its far
    corner within the range of [int], the region used starts at a
    non-negative offset, is not empty, and ends within the rectangle, or
    the reply is [ERR region out of bounds]. *)
Theorem clamp_region_inside (xargv : list string) (bw bh rx ry rw rh : Z) :
  0 < bw < 2 ^ 31 -> 0 < bh < 2 ^ 31 ->
  far_corner_fits xargv bw bh ->
  clamp_region xargv bw bh = Some (rx, ry, rw, rh) ->
  (0 <= rx /\ 0 < rw /\ rx + rw <= bw)
  /\ (0 <= ry /\ 0 < rh /\ ry + rh <= bh).
Proof.
  intros Hbw Hbh. unfold far_corner_fits, clamp_region, requested_region.
  destruct (if (6 <=? length xargv)%nat then _ else _)
    as [[[x y] w] h] eqn:Hreq.
  assert (Hrange : (- 2 ^ 31 <= x < 2 ^ 31 /\ - 2 ^ 31 <= y < 2 ^ 31)
                   /\ (- 2 ^ 31 <= w < 2 ^ 31 /\ - 2 ^ 31 <= h < 2 ^ 31)).
  { destruct (6 <=? length xargv)%nat; injection Hreq as <- <- <- <-.
    - repeat split; apply atoi_range.
    - lia. }
  destruct Hrange as [[Hx Hy] [Hw Hh]]. intros [Hfx Hfy].
  pose proof (clamp_axis x w bw Hx Hw Hbw Hfx) as Hax.
  pose proof (clamp_axis y h bh Hy Hh Hbh Hfy) as Hay.
  cbv zeta in Hax, Hay |- *.
  destruct (_ || _) eqn:Hpos; [done|].
  apply orb_false_iff in Hpos as [Hpw Hph].
  apply Z.leb_gt in Hpw, Hph.
  intros [= <- <- <- <-].
  specialize (Hax Hpw). specialize (Hay Hph). lia.
Qed.

End Screen.

Lemma screenshot_payload_witness :
  exists rows : list (list Z),
    dispatch linux_build sample_host ["screenshot"; "1"]%string
    = Done (Send (append "OK 4 3 48" nl) :: map SendBinary rows)
    /\ length rows = 3%nat
    /\ length (concat rows) = 48%nat.
Proof.
  destruct (screenshot_payload linux_build sample_host
              ["screenshot"; "1"]%string 0 0 4 3 test_card eq_refl eq_refl
              test_card_in_frame)
    as (rows & Hd & Hlen & _ & Hbytes & _).
  exists rows. split; [exact Hd|]. split; [exact Hlen|]. lia.
Defined.

Lemma clamp_region_inside_witness :
  clamp_region ["screencrc"; "0"; "-5"; "1"; "100"; "1"]%string 4 3
  = Some (0, 1, 4, 1)
  /\ (0 <= 0 /\ 0 < 4 /\ 0 + 4 <= 4) /\ (0 <= 1 /\ 0 < 1 /\ 1 + 1 <= 3).
Proof.
  split; [reflexivity|].
  apply (clamp_region_inside
           ["screencrc"; "0"; "-5"; "1"; "100"; "1"]%string 4 3 0 1 4 1);
    [lia|lia|vm_compute; split; reflexivity|reflexivity].
Defined.

(** ** The poller at rest *)

Lemma led_differs_same (s : dev_status) : led_differs s (led_of s) = false.
Proof. unfold led_differs, led_of. simpl. by rewrite !eqb_reflx. Qed.

Lemma flat_map_seq_nil {A} (f : nat -> list A) (n : nat) :
  (forall i, (i < n)%nat -> f i = []) -> flat_map f (seq 0 n) = [].
Proof.
  intros Hf. induction n as [|n IH]; [done|].
  rewrite seq_S, flat_map_app, IH by (intros; apply Hf; lia).
  simpl. rewrite Hf by lia. done.
Qed.

Lemma led_line_settled (c : dev_class) (tbl : list dev_status) (n : Z) (i : nat) :
  (i < Z.to_nat n)%nat ->
  led_line c tbl (map (fun i => led_of (tbl !!! i)) (seq 0 (Z.to_nat n))) i = [].
Proof.
  intros Hi. unfold led_line.
  rewrite (lookup_total_map_seq (fun i => led_of (tbl !!! i))) by done.
  by rewrite led_differs_same.
Qed.

Lemma media_line_settled (c : dev_class) (tbl : list dev_status) (n : Z) (i : nat) :
  (i < Z.to_nat n)%nat ->
  media_line c tbl (map (fun i => empty (tbl !!! i)) (seq 0 (Z.to_nat n))) i = [].
Proof.
  intros Hi. unfold media_line.
  rewrite (lookup_total_map_seq (fun i => empty (tbl !!! i))) by done.
  by rewrite eqb_reflx.
Qed.

Section PollerAtRest.

Variable P : platform.

Lemma poll_tick_mirrors (n : Z) (ms : machine_status_t) (s : snapshot) :
  n <> 0 -> snapshot_sized P s -> snd (poll_tick P n ms s) = poll_init P ms.
Proof.
  intros Hn Hs. unfold poll_tick.
  by rewrite (poll_events_whole P n ms s Hn Hs).
Qed.

(** A turn on the table the arrays were taken from broadcasts nothing and
    leaves them as they are. *)
Lemma poll_tick_settled (k : Z) (ms : machine_status_t) :
  poll_tick P k ms (poll_init P ms) = ([], poll_init P ms).
Proof.
  unfold poll_tick. destruct (Z.eq_dec k 0) as [->|Hk]; [done|].
  rewrite (poll_events_whole P k ms _ Hk (poll_init_sized P ms)).
  cbn [poll_init prev_fdd prev_cdrom prev_hdd prev_rdisk prev_mo prev_net
       prev_fdd_empty prev_cdrom_empty prev_rdisk_empty prev_mo_empty].
  unfold init_leds, init_empty.
  rewrite !flat_map_seq_nil; [done|..]; intros i Hi;
    rewrite ?led_line_settled, ?media_line_settled by done; done.
Qed.

Lemma poll_run_settled (later : list Z) (ms : machine_status_t) :
  poll_run P (map (fun k => (k, ms)) later) (poll_init P ms)
  = ([], poll_init P ms).
Proof.
  induction later as [|k later IH]; [done|].
  cbn [map]. rewrite poll_run_cons, poll_tick_settled. cbn [fst snd].
  by rewrite IH.
Qed.

(** X12.  Changes are reported once.  After a turn of the poller with a
    session connected, any number of further turns that find the same
    status table, with or without sessions, broadcast nothing more, and
    the arrays the poller keeps are then the LED and media flags of that
    table. *)
Theorem poller_reports_once (n : Z) (ms : machine_status_t) (s : snapshot)
    (later : list Z) :
  n <> 0 -> snapshot_sized P s ->
  poll_run P ((n, ms) :: map (fun k => (k, ms)) later) s
  = (fst (poll_tick P n ms s), poll_init P ms).
Proof.
  intros Hn Hs. rewrite poll_run_cons.
  rewrite (poll_tick_mirrors n ms s Hn Hs), poll_run_settled.
  cbn [fst snd]. by rewrite app_nil_r.
Qed.

End PollerAtRest.

Lemma poller_reports_once_witness :
  poll_run linux_build
    ((1, floppy_writing) :: map (fun k => (k, floppy_writing)) [1; 0; 3])
    (poll_init linux_build quiet_status)
  = ([Broadcast (append "!led fdd 0 write" nl)],
     poll_init linux_build floppy_writing).
Proof.
  rewrite (poller_reports_once linux_build 1 floppy_writing
             (poll_init linux_build quiet_status) [1; 0; 3]);
    [reflexivity|lia|apply poll_init_sized].
Defined.

(** ** One turn of the server over the sessions *)

Lemma omap_cons {A B} (f : A -> option B) (x : A) (l : list A) :
  omap f (x :: l)
  = match f x with Some y => y :: omap f l | None => omap f l end.
Proof. reflexivity. Qed.

Section ServerTurn.

Variable ready : Z -> option (list ascii).

(** The loop with its index stepped back after a removal visits every
    session from [i] on once. *)
Lemma clients_loop_each (turns : nat) :
  forall (i : nat) (cl : list ctrl_client_t),
    (length cl - i <= turns)%nat ->
    clients_loop turns i ready cl
    = (flat_map (fun c => fst (client_step ready c)) (drop i cl),
       take i cl ++ omap (fun c => snd (client_step ready c)) (drop i cl)).
Proof.
  induction turns as [|turns IH]; intros i cl Hturns.
  - cbn [clients_loop]. rewrite drop_ge, take_ge by lia.
    cbn. by rewrite app_nil_r.
  - cbn [clients_loop]. destruct (cl !! i) as [c|] eqn:Hc.
    2:{ apply lookup_ge_None in Hc. rewrite drop_ge, take_ge by lia.
        cbn. by rewrite app_nil_r. }
    pose proof (lookup_lt_Some _ _ _ Hc) as Hi.
    rewrite (drop_S _ _ _ Hc). cbn [flat_map]. rewrite omap_cons.
    unfold client_step at 1 3.
    destruct (fd c <? 0) eqn:Hfd.
    { rewrite IH by lia. cbn [fst snd app].
      rewrite (take_S_r _ _ _ Hc). by rewrite <- app_assoc. }
    destruct (ready (fd c)) as [offered|].
    2:{ rewrite IH by lia. cbn [fst snd app].
        rewrite (take_S_r _ _ _ Hc). by rewrite <- app_assoc. }
    destruct (serve_client c offered) as [ls [c'|]].
    + rewrite IH by (rewrite length_insert; lia). cbn [fst snd].
      rewrite drop_insert_lt by lia.
      rewrite (take_S_r _ i c') by (by apply list_lookup_insert_eq).
      rewrite take_insert_ge by lia. by rewrite <- app_assoc.
    + unfold ctrl_remove_client.
      rewrite (proj2 (orb_false_iff _ _))
        by (split; [apply Z.ltb_ge|apply Z.leb_gt]; lia).
      rewrite Nat2Z.id, (list_lookup_total_correct _ _ _ Hc).
      rewrite (proj2 (Z.leb_le 0 (fd c))) by lia.
      rewrite IH
        by (rewrite delete_take_drop, length_app, length_take, length_drop; lia).
      cbn [fst snd]. rewrite delete_take_drop.
      rewrite drop_app_length', take_app_length' by (rewrite length_take; lia).
      done.
Qed.

(** X13.  One turn of the server treats every session exactly once and on
    its own, also when sessions are removed during the turn: what the turn
    does is what each session's step does, in the order of the registry,
    and the registry afterwards holds the sessions that were not removed,
    in their order. *)
Theorem serve_clients_each_once (cl : list ctrl_client_t) :
  serve_clients ready cl
  = (flat_map (fun c => fst (client_step ready c)) cl,
     omap (fun c => snd (client_step ready c)) cl).
Proof.
  unfold serve_clients. rewrite clients_loop_each by lia.
  by rewrite drop_0.
Qed.

End ServerTurn.

(** ** The registry holds open descriptors *)

Lemma serve_client_fd (c c' : ctrl_client_t) (offered : list ascii) ls :
  serve_client c offered = (ls, Some c') -> fd c' = fd c.
Proof.
  unfold serve_client. destruct (_ <=? 0); [done|].
  destruct (take _ offered); [done|].
  destruct (process_lines _). by intros [= _ <-].
Qed.

Lemma client_step_fd (ready : Z -> option (list ascii)) (c c' : ctrl_client_t) :
  snd (client_step ready c) = Some c' -> fd c' = fd c.
Proof.
  unfold client_step. destruct (fd c <? 0); [by intros [= <-]|].
  destruct (ready (fd c)) as [offered|]; [|by intros [= <-]].
  destruct (serve_client c offered) as [ls [c''|]] eqn:Hserve; [|done].
  intros [= <-]. by eapply serve_client_fd.
Qed.

Lemma serve_clients_open (ready : Z -> option (list ascii))
    (cl : list ctrl_client_t) :
  Forall (fun c => 0 <= fd c) cl ->
  Forall (fun c => 0 <= fd c) (snd (serve_clients ready cl)).
Proof.
  unfold serve_clients. rewrite clients_loop_each by lia.
  rewrite drop_0. cbn [snd take app].
  induction cl as [|c cl IH]; [done|].
  intros [Hc Hcl]%Forall_cons. rewrite omap_cons.
  destruct (snd (client_step ready c)) as [c'|] eqn:Hstep; [|by apply IH].
  apply Forall_cons. split; [|by apply IH].
  by rewrite (client_step_fd _ _ _ Hstep).
Qed.

Lemma ctrl_accept_open (client_fd : Z) (cl : list ctrl_client_t) :
  Forall (fun c => 0 <= fd c) cl ->
  Forall (fun c => 0 <= fd c) (snd (ctrl_accept client_fd cl)).
Proof.
  intros Hcl. unfold ctrl_accept.
  destruct (Z.ltb_spec client_fd 0); [done|].
  destruct (_ <=? _); [done|].
  cbn [snd]. apply Forall_app. split; [done|].
  apply Forall_cons. split; [done|by apply Forall_nil].
Qed.

Lemma server_run_open (turns : list (option Z * (Z -> option (list ascii)))) :
  forall cl : list ctrl_client_t,
    Forall (fun c => 0 <= fd c) cl ->
    Forall (fun c => 0 <= fd c) (server_run turns cl).
Proof.
  induction turns as [|[accepted ready] turns IH]; intros cl Hcl; [done|].
  cbn [server_run]. apply IH. unfold server_pass.
  destruct accepted as [client_fd|].
  - pose proof (ctrl_accept_open client_fd cl Hcl) as Hacc.
    destruct (ctrl_accept client_fd cl) as [ev1 cl1]. cbn [snd] in Hacc.
    pose proof (serve_clients_open ready cl1 Hacc) as Hserve.
    by destruct (serve_clients ready cl1).
  - pose proof (serve_clients_open ready cl Hcl) as Hserve.
    by destruct (serve_clients ready cl).
Qed.

(** X14.  Every session in the registry has an open descriptor, whatever
    the server has been through, so that a broadcast skips no session: it
    sends the message to every registered session, once, in the order of
    the registry. *)
Theorem broadcast_reaches_every_session
    (turns : list (option Z * (Z -> option (list ascii))))
    (msg : string) (answers : Z -> nat -> Z) :
  Forall (fun c => 0 <= fd c) (server_run turns [])
  /\ ctrl_broadcast (server_run turns []) msg answers
     = flat_map
         (fun c => map (Written (fd c))
                       (write_loop (String.length msg) (answers (fd c)) 0
                                   (list_ascii_of_string msg)))
         (server_run turns []).
Proof.
  pose proof (server_run_open turns [] (Forall_nil_2 _)) as Hopen.
  split; [exact Hopen|].
  unfold ctrl_broadcast. induction Hopen as [|c cl Hc Hcl IH]; [done|].
  cbn [flat_map]. rewrite IH. f_equal. unfold ctrl_send.
  rewrite (proj2 (Z.leb_le _ _) Hc). by rewrite (proj2 (Z.ltb_ge _ _) Hc).
Qed.

(** ** Lines and the way they arrive *)

Lemma strchr_lf_None (s : list ascii) :
  strchr_lf s = None -> ~ elem_of NUL s -> ~ elem_of LF s.
Proof.
  induction s as [|ch s IH]; simpl; [intros _ _; apply not_elem_of_nil|].
  destruct (Ascii.eqb ch LF) eqn:Hlf; [done|].
  destruct (Ascii.eqb ch NUL) eqn:Hnul.
  - apply Ascii.eqb_eq in Hnul as ->. intros _ Hno. destruct Hno.
    apply elem_of_cons. by left.
  - destruct (strchr_lf s); [done|]. intros _ Hno.
    rewrite elem_of_cons. intros [Heq|Hin].
    + rewrite <- Heq in Hlf. by rewrite Ascii.eqb_refl in Hlf.
    + apply IH; [done| |done]. intros Hn. apply Hno, elem_of_cons. by right.
Qed.

Lemma prefix_before_lf (b : list ascii) :
  forall l x y : list ascii,
    ~ elem_of LF b -> b ++ x = l ++ LF :: y -> (length b <= length l)%nat.
Proof.
  induction b as [|ch b IH]; intros l x y Hb Heq; [simpl; lia|].
  destruct l as [|ch' l].
  - simpl in Heq. injection Heq as -> _. destruct Hb. apply elem_of_cons. by left.
  - simpl in Heq. injection Heq as -> Heq. simpl.
    apply IH in Heq; [lia|]. intros Hin. apply Hb, elem_of_cons. by right.
Qed.

Lemma unlines_lf (ls : list (list ascii)) :
  ls <> [] -> elem_of LF (unlines ls).
Proof.
  destruct ls as [|l ls]; [done|]. intros _. unfold unlines. cbn [flat_map].
  rewrite !elem_of_app. left. right. apply elem_of_cons. by left.
Qed.

(** Lines taken from the front of a stream of lines are its first lines. *)
Lemma unlines_front (ds : list (list ascii)) :
  forall (lines : list (list ascii)) (tail partial : list ascii),
    Forall (fun d => ~ elem_of LF d) ds ->
    Forall (fun l => ~ elem_of LF l) lines ->
    ~ elem_of LF partial ->
    unlines ds ++ tail = unlines lines ++ partial ->
    exists more, lines = ds ++ more /\ tail = unlines more ++ partial.
Proof.
  induction ds as [|d ds IH]; intros lines tail partial Hds Hlines Hpartial Heq.
  - by exists lines.
  - apply Forall_cons in Hds as [Hd Hds].
    destruct lines as [|l lines].
    + exfalso. apply Hpartial. simpl in Heq. rewrite <- Heq.
      rewrite <- !app_assoc. rewrite !elem_of_app. right. left.
      apply elem_of_cons. by left.
    + apply Forall_cons in Hlines as [Hl Hlines].
      unfold unlines in Heq. cbn [flat_map] in Heq.
      rewrite <- !app_assoc in Heq. cbn [app] in Heq.
      apply split_at_lf in Heq as [-> Heq]; [|done..].
      destruct (IH lines tail partial Hds Hlines Hpartial Heq)
        as (more & -> & ->).
      by exists more.
Qed.

Lemma serve_client_served (c : ctrl_client_t) (offered : list ascii) :
  buf_len c + 1 < CTRL_BUF_SIZE -> offered <> [] ->
  exists ls c', serve_client c offered = (ls, Some c').
Proof.
  intros Hroom Hoff. unfold serve_client.
  rewrite (proj2 (Z.leb_gt _ _)) by lia.
  destruct offered as [|ch offered]; [done|].
  destruct (Z.to_nat (CTRL_BUF_SIZE - buf_len c - 1)) as [|k] eqn:Hk; [lia|].
  cbn [take]. destruct (process_lines _) as [ls rest]. by eexists _, _.
Qed.

Lemma serve_client_complete (c c' : ctrl_client_t) (offered : list ascii) ls :
  serve_client c offered = (ls, Some c') -> strchr_lf (buf c') = None.
Proof.
  unfold serve_client. destruct (_ <=? 0); [done|].
  destruct (take _ offered) as [|ch data]; [done|].
  pose proof (process_lines_complete (buf c ++ ch :: data)) as Hdone.
  destruct (process_lines _) as [ls' rest]. by intros [= _ <-].
Qed.

(** X15.  Lines are framed by line feeds, not by the way the bytes arrive.
    Given a stream without zero bytes made of lines of at most 4094
    characters, each followed by a line feed, and a last part without line
    feed that fits the buffer: however the stream is cut into reads, the
    session hands exactly these lines to the dispatcher, in order and once
    each, keeps the last part in its buffer, and is not closed. *)
Theorem session_framing (sizes : list nat) (pending : list ascii)
    (c : ctrl_client_t) (lines : list (list ascii)) (partial : list ascii) :
  Forall (fun l => ~ elem_of LF l
                   /\ Z.of_nat (length l) + 1 < CTRL_BUF_SIZE) lines ->
  ~ elem_of LF partial -> Z.of_nat (length partial) < CTRL_BUF_SIZE ->
  ~ elem_of LF (buf c) ->
  ~ elem_of NUL (buf c ++ pending) ->
  buf c ++ pending = unlines lines ++ partial ->
  (length pending <= length sizes)%nat ->
  session_run sizes pending c
  = (map string_of_list_ascii lines, Some {| fd := fd c; buf := partial |}).
Proof.
  revert pending c lines partial.
  assert (Hdone : forall (c : ctrl_client_t) lines partial,
             ~ elem_of LF (buf c) -> buf c = unlines lines ++ partial ->
             ([] : list string, Some c)
             = (map string_of_list_ascii lines,
                Some {| fd := fd c; buf := partial |})).
  { intros c lines partial Hbuf Heq. destruct lines as [|l lines].
    - simpl in Heq. destruct c as [f b]. simpl in *. by subst.
    - destruct Hbuf. rewrite Heq, elem_of_app. left.
      by apply unlines_lf. }
  induction sizes as [|sz sizes IH];
    intros pending c lines partial Hlines Hpartial Hplen Hbuf Hnul Heq Hlen.
  - destruct pending; [|simpl in Hlen; lia]. rewrite app_nil_r in Heq.
    cbn [session_run]. by apply Hdone.
  - destruct pending as [|p pending].
    { rewrite app_nil_r in Heq. cbn [session_run]. by apply Hdone. }
    assert (Hroom : buf_len c + 1 < CTRL_BUF_SIZE).
    { unfold buf_len. destruct lines as [|l lines].
      - simpl in Heq. apply (f_equal length) in Heq.
        rewrite length_app in Heq. simpl in Heq. lia.
      - apply Forall_cons in Hlines as [[Hl Hllen] _].
        unfold unlines in Heq. cbn [flat_map] in Heq.
        rewrite <- !app_assoc in Heq. cbn [app] in Heq.
        apply prefix_before_lf in Heq; [lia|done]. }
    cbn [session_run].
    set (stream := p :: pending) in *.
    set (offered := take (S sz) stream).
    set (space := Z.to_nat (CTRL_BUF_SIZE - buf_len c - 1)).
    destruct (serve_client_served c offered Hroom) as (ls1 & c' & Hserve);
      [done|].
    rewrite Hserve.
    assert (Hlt : buf_len c < CTRL_BUF_SIZE) by lia.
    destruct (serve_client_sound _ _ _ _ Hlt Hserve)
      as (Hfd & Hdata & Hcat & Hall & _).
    fold space in Hdata, Hcat.
    pose proof (serve_client_complete _ _ _ _ Hserve) as Hcomplete.
    set (rest := drop (length (take space offered)) stream).
    assert (Hstream : stream = take space offered ++ rest).
    { assert (Hdata_eq : take space offered
                         = take (length (take space offered)) stream).
      { unfold offered at 1 2. rewrite take_take.
        by rewrite take_length_take. }
      rewrite Hdata_eq at 1. unfold rest. by rewrite take_drop. }
    assert (Hwhole : unlines (map list_ascii_of_string ls1) ++ buf c' ++ rest
                     = unlines lines ++ partial).
    { rewrite <- Heq, Hstream, !app_assoc. by rewrite Hcat. }
    assert (Hnul' : ~ elem_of NUL (buf c' ++ rest)).
    { intros Hin. apply Hnul. rewrite Hstream, app_assoc, <- Hcat.
      rewrite <- app_assoc. rewrite elem_of_app. by right. }
    destruct (unlines_front (map list_ascii_of_string ls1) lines
                (buf c' ++ rest) partial) as (more & Hmore & Htail);
      [| |done|done|].
    { apply Forall_fmap. eapply Forall_impl; [exact Hall|].
      by intros l [Hl _]. }
    { eapply Forall_impl; [exact Hlines|]. by intros l [Hl _]. }
    rewrite (IH rest c' more partial); [| |done|done| |done|done|].
    + rewrite Hmore, map_app, map_string_of_list_ascii. by rewrite Hfd.
    + rewrite Hmore in Hlines. by apply Forall_app in Hlines as [_ ?].
    + apply strchr_lf_None; [done|]. intros Hin. apply Hnul'.
      rewrite elem_of_app. by left.
    + assert (length stream = length (take space offered) + length rest)%nat
        by (rewrite Hstream at 1; by rewrite length_app).
      destruct (take space offered); [done|]. simpl in *. lia.
Qed.

Ltac no_such_char :=
  let Hin := fresh "Hin" in
  intros Hin; apply list_elem_of_In in Hin; vm_compute in Hin;
  repeat (destruct Hin as [Hin|Hin]; [discriminate|]); exact Hin.

(** The theorem at work: two commands and the beginning of a third,
    delivered three bytes at a time to a session just accepted. *)
Lemma session_framing_witness :
  session_run (replicate 16 2%nat)
    (list_ascii_of_string "status" ++ LF :: list_ascii_of_string "pause"
     ++ LF :: list_ascii_of_string "cde")
    (fresh_client 5)
  = (["status"; "pause"]%string,
     Some {| fd := 5; buf := list_ascii_of_string "cde" |}).
Proof.
  apply (session_framing (replicate 16 2%nat) _ (fresh_client 5)
           [list_ascii_of_string "status"; list_ascii_of_string "pause"]
           (list_ascii_of_string "cde")).
  - repeat (apply Forall_cons; split; [split; [no_such_char|by vm_compute]|]).
    by apply Forall_nil.
  - no_such_char.
  - by vm_compute.
  - apply not_elem_of_nil.
  - no_such_char.
  - reflexivity.
  - apply Nat.leb_le. vm_compute. reflexivity.
Defined.

(** ** Writing to a session *)

Lemma write_loop_prefix {A} (turns : nat) (answers : nat -> Z) :
  forall (k : nat) (remaining : list A),
    prefix (concat (write_loop turns answers k remaining)) remaining.
Proof.
  induction turns as [|turns IH]; intros k remaining; [apply prefix_nil|].
  cbn [write_loop]. destruct remaining as [|x remaining]; [done|].
  destruct (answers k <=? 0); [apply prefix_nil|].
  cbn [concat]. rewrite <- (take_drop (Z.to_nat (answers k)) (x :: remaining)) at 3.
  apply prefix_app, IH.
Qed.

Lemma write_loop_chunks {A} (turns : nat) (answers : nat -> Z) :
  forall (k : nat) (remaining : list A),
    Forall (fun chunk => chunk <> []) (write_loop turns answers k remaining).
Proof.
  induction turns as [|turns IH]; intros k remaining; [by apply Forall_nil|].
  cbn [write_loop]. destruct remaining as [|x remaining]; [by apply Forall_nil|].
  destruct (Z.leb_spec (answers k) 0); [by apply Forall_nil|].
  apply Forall_cons. split; [|apply IH].
  destruct (Z.to_nat (answers k)) eqn:Hn; [lia|done].
Qed.

Lemma write_loop_whole {A} (turns : nat) (answers : nat -> Z) :
  (forall j, 0 < answers j) ->
  forall (k : nat) (remaining : list A),
    (length remaining <= turns)%nat ->
    concat (write_loop turns answers k remaining) = remaining.
Proof.
  intros Hpos. induction turns as [|turns IH]; intros k remaining Hlen.
  - by destruct remaining; [|simpl in Hlen; lia].
  - cbn [write_loop]. destruct remaining as [|x remaining]; [done|].
    rewrite (proj2 (Z.leb_gt _ _) (Hpos k)). cbn [concat].
    rewrite IH; [apply take_drop|].
    rewrite length_drop. specialize (Hpos k). simpl in *. lia.
Qed.

Lemma length_list_of_string (s : string) :
  length (list_ascii_of_string s) = String.length s.
Proof. induction s as [|ch s IH]; simpl; [done|]. by rewrite IH. Qed.

(** X16.  The writers are best-effort and never reorder.  Whatever [write]
    answers, the chunks that reach the socket are not empty and, put end
    to end, are a prefix of the message; they are the whole message when
    no call of [write] fails, however the kernel cuts it into partial
    writes.  This holds for text and for binary data alike; nothing is
    written on a negative descriptor. *)
Theorem writers_deliver_in_order (client : ctrl_client_t) (msg : string)
    (data : list Z) (answers : nat -> Z) :
  (exists chunks,
      ctrl_send client msg answers = map (Written (fd client)) chunks
      /\ Forall (fun chunk => chunk <> []) chunks
      /\ prefix (concat chunks) (list_ascii_of_string msg)
      /\ (0 <= fd client -> (forall j, 0 < answers j) ->
          concat chunks = list_ascii_of_string msg)
      /\ (fd client < 0 -> chunks = []))
  /\ (exists chunks,
        ctrl_send_binary client data answers
        = map (WrittenBinary (fd client)) chunks
        /\ Forall (fun chunk => chunk <> []) chunks
        /\ prefix (concat chunks) data
        /\ (0 <= fd client -> (forall j, 0 < answers j) ->
            concat chunks = data)
        /\ (fd client < 0 -> chunks = [])).
Proof.
  unfold ctrl_send, ctrl_send_binary.
  destruct (Z.ltb_spec (fd client) 0) as [Hneg|Hpos].
  - split; exists []; (split; [done|]); (split; [by apply Forall_nil|]);
      (split; [apply prefix_nil|]); (split; [lia|done]).
  - split; eexists; (split; [reflexivity|]);
      (split; [apply write_loop_chunks|]);
      (split; [apply write_loop_prefix|]); (split; [|lia]);
      intros _ Hall; apply write_loop_whole; try done.
    by rewrite length_list_of_string.
Qed.

Lemma writers_deliver_in_order_witness :
  exists chunks,
    ctrl_send (fresh_client 5) "OK" (fun j => if (j =? 0)%nat then 1 else 7)
    = map (Written 5) chunks
    /\ concat chunks = ["O"; "K"]%char.
Proof.
  destruct (writers_deliver_in_order (fresh_client 5) "OK" []
              (fun j => if (j =? 0)%nat then 1 else 7))
    as [(chunks & Hsend & _ & _ & Hall & _) _].
  exists chunks. split; [exact Hsend|].
  apply Hall; [simpl; lia|]. intros j. destruct (j =? 0)%nat; lia.
Defined.

(** ** Start-up and shut-down *)

Ltac events_checked :=
  repeat (match goal with |- _ /\ _ => split end);
  try done; intros;
  first [lia | intuition (try discriminate; try lia)].

Section Lifecycle.

Variable P : platform.


(** X17.  Start-up succeeds, with result 0, exactly when the path is
    shorter than [sun_path] and [socket], [bind] and [listen] succeed; the
    socket is then listening with a backlog of 4, no session is registered
    and both threads are started.  Otherwise the result is -1 and nothing
    is left behind: no thread is started, the running flag, the registry
    and the stored path are untouched, and a socket that was opened has
    been closed again. *)
Theorem control_socket_init_outcome (sun_path_size : Z) (os : os_answers)
    (path : string) (s : ctrl_state) :
  let r := control_socket_init P sun_path_size os path s in
  fst (fst r) = (if can_start sun_path_size os path then 0 else -1)
  /\ (can_start sun_path_size os path = true ->
      ctrl_running (snd (fst r)) = true
      /\ registry (snd (fst r)) = []
      /\ ctrl_server_fd (snd (fst r)) = socket_answer os
      /\ In (sys_listen (socket_answer os) 4) (snd r)
      /\ In (thread_create ctrl_server_thread) (snd r)
      /\ In (thread_create ctrl_led_poll_thread) (snd r)
      /\ ~ In (sys_close (socket_answer os)) (snd r))
  /\ (can_start sun_path_size os path = false ->
      ctrl_running (snd (fst r)) = ctrl_running s
      /\ registry (snd (fst r)) = registry s
      /\ ctrl_socket_path (snd (fst r)) = ctrl_socket_path s
      /\ (forall th, ~ In (thread_create th) (snd r))
      /\ (In sys_socket (snd r) -> 0 <= socket_answer os ->
          In (sys_close (socket_answer os)) (snd r)
          /\ ctrl_server_fd (snd (fst r)) = -1)).
Proof.
  unfold control_socket_init, can_start. cbv zeta.
    rewrite (Z.leb_antisym (strlen path)), !(Z.ltb_antisym 0).
    destruct (strlen path <? sun_path_size); cbn [negb andb];
    [|split; [done|]; split; [done|]; intros _; cbn; events_checked].
  destruct (Z.leb_spec 0 (socket_answer os)); cbn [negb andb];
    [|split; [done|]; split; [done|]; intros _; cbn; events_checked].
  destruct (0 <=? bind_answer os); cbn [negb andb];
    [|split; [done|]; split; [done|]; intros _; cbn; events_checked].
  destruct (0 <=? listen_answer os); cbn [negb andb];
    [|split; [done|]; split; [done|]; intros _; cbn; events_checked].
  split; [done|]. split; [|done]. intros _. cbn. events_checked.
Qed.

(** X18.  Shut-down releases everything and may be repeated.  When the
    socket is running, it is afterwards not running, with no session and
    no stored path; the listening socket and the descriptor of every
    registered session have been closed and the socket file removed.  When
    it is not running, and so after a first shut-down, nothing is done. *)
Theorem control_socket_close_releases (s : ctrl_state) :
  let r := control_socket_close s in
  control_socket_close (fst r) = (fst r, [])
  /\ (ctrl_running s = false -> r = (s, []))
  /\ (ctrl_running s = true ->
      ctrl_running (fst r) = false
      /\ registry (fst r) = []
      /\ ctrl_socket_path (fst r) = EmptyString
      /\ ctrl_server_fd (fst r) < 0
      /\ (0 <= ctrl_server_fd s -> In (sys_close (ctrl_server_fd s)) (snd r))
      /\ (forall c, In c (registry s) -> 0 <= fd c ->
                    In (sys_close (fd c)) (snd r))
      /\ (ctrl_socket_path s <> EmptyString ->
          In (sys_unlink (ctrl_socket_path s)) (snd r))).
Proof.
  unfold control_socket_close. cbv zeta.
  destruct (ctrl_running s) eqn:Hrun; cbn [negb].
  2:{ cbn [fst]. rewrite Hrun. cbn [negb]. done. }
  cbn [fst snd ctrl_running negb registry ctrl_socket_path ctrl_server_fd].
  split; [done|]. split; [done|]. intros _.
  split; [done|]. split; [done|]. split; [done|].
  split; [destruct (Z.leb_spec 0 (ctrl_server_fd s)); lia|].
  split; [|split].
  - intros Hfd. rewrite (proj2 (Z.leb_le _ _) Hfd). by left.
  - intros c Hc Hfd. rewrite !in_app_iff. right. right. right. left.
    apply in_flat_map. exists c. split; [done|].
    rewrite (proj2 (Z.leb_le _ _) Hfd). by left.
  - intros Hpath. rewrite !in_app_iff. do 4 right.
    destruct (ctrl_socket_path s); [done|by left].
Qed.

(** X19.  Start-up followed by shut-down undoes what start-up did: with a
    path that is not empty and a [sun_path] no larger than [PATH_MAX],
    shut-down closes the listening socket, joins the two threads and
    removes the socket file under the very path that was bound, and the
    state is again that of a socket that was never started. *)
Theorem start_then_stop (sun_path_size : Z) (os : os_answers) (path : string)
    (s : ctrl_state) :
  can_start sun_path_size os path = true ->
  sun_path_size <= PATH_MAX P -> path <> EmptyString ->
  let started := control_socket_init P sun_path_size os path s in
  fst (fst started) = 0
  /\ In (sys_bind (socket_answer os) path) (snd started)
  /\ control_socket_close (snd (fst started))
     = (stopped,
        [sys_close (socket_answer os); thread_wait ctrl_server_thread;
         thread_wait ctrl_led_poll_thread; sys_unlink path]).
Proof.
  unfold can_start. intros Hok Hsize Hpath.
  apply andb_true_iff in Hok as [Hok Hlisten].
  apply andb_true_iff in Hok as [Hok Hbind].
  apply andb_true_iff in Hok as [Hlen Hsock].
  apply Z.ltb_lt in Hlen. apply Z.leb_le in Hsock, Hbind, Hlisten.
  unfold control_socket_init. cbv zeta.
  rewrite (proj2 (Z.leb_gt _ _) Hlen).
  rewrite !(proj2 (Z.ltb_ge _ _)) by done.
  unfold strlen in Hlen.
  rewrite !cut_whole by lia.
  cbn [fst snd]. split; [done|]. split; [cbn; tauto|].
  unfold control_socket_close.
  cbn [ctrl_running negb ctrl_server_fd ctrl_thread_handle
       ctrl_led_thread_handle registry ctrl_socket_path flat_map app].
  rewrite (proj2 (Z.leb_le _ _) Hsock). cbn [app].
  by destruct path.
Qed.

End Lifecycle.

Lemma start_then_stop_witness :
  control_socket_close
    (snd (fst (control_socket_init linux_build 108 all_granted
                 "/tmp/86box.sock" stopped)))
  = (stopped,
     [sys_close 3; thread_wait ctrl_server_thread;
      thread_wait ctrl_led_poll_thread; sys_unlink "/tmp/86box.sock"]).
Proof.
  apply (start_then_stop linux_build 108 all_granted "/tmp/86box.sock" stopped);
    [reflexivity|simpl; lia|discriminate].
Defined.

(** ** A reply that is never sent *)

Lemma other_messages_never (o : outcome (list action)) :
  other_messages o -> never_sent (append "ERR missing arguments" nl) o.
Proof.
  destruct o as [acts|f]; [|done]. cbn [other_messages never_sent].
  induction 1 as [|a acts Ha Hacts IH]; [by intros []|].
    intros [->|Hin]; [|by apply IH].
  cbn in Ha. by destruct Ha.
Qed.

Ltac other :=
  repeat (apply Forall_cons; split;
          [cbn; first [exact I | left; discriminate | right; discriminate]|]);
  by apply Forall_nil.

Lemma ok_reply_other (size : Z) (cls : string) (id : Z) (what : string) :
  other_message (ok_reply size cls id what).
Proof.
  unfold ok_reply, snprintf. cbn [append other_message]. left.
  by destruct (Z.to_nat size - 1)%nat.
Qed.

Lemma format_event_bang (ev : push_event) :
  exists s, format_event ev = String "!"%char s.
Proof. destruct ev; by eexists. Qed.

Section Replies.

Variable P : platform.
Variable H : host.

Lemma status_class_other (c : dev_class) (media : bool) (n : Z)
    (tbl : list dev_status) :
  Forall other_message (status_class c media n tbl).
Proof.
  unfold status_class. induction (seq 0 (Z.to_nat n)) as [|i l IH];
    [by apply Forall_nil|].
  cbn [flat_map]. apply Forall_app. split; [|exact IH].
  destruct media; other.
Qed.

Lemma ctrl_send_status_other : Forall other_message (ctrl_send_status P H).
Proof.
  unfold ctrl_send_status. cbv zeta.
  repeat (apply Forall_app; split; [apply status_class_other|]).
  other.
Qed.

Lemma resolve_monitor_error (xargv : list string) (e : string) :
  resolve_monitor P H xargv = inl e -> other_message (reply e).
Proof.
  unfold resolve_monitor. cbv zeta.
  destruct (_ || _); [intros [= <-]; cbn; right; discriminate|].
  destruct (_ =? _); [intros [= <-]; cbn; right; discriminate|].
  destruct (blit_rect _) as [[[x y] w] h].
  destruct (target_buffer _); [|intros [= <-]; cbn; right; discriminate].
  destruct (_ || _); [intros [= <-]; cbn; right; discriminate|done].
Qed.

Lemma do_screenshot_other (xargv : list string) :
  other_messages (do_screenshot P H xargv).
Proof.
  unfold do_screenshot.
  destruct (resolve_monitor P H xargv) as [e|[[[[bx by_] bw] bh] b]] eqn:Hmon.
  - apply Forall_cons. split; [by eapply resolve_monitor_error|by apply Forall_nil].
  - destruct (collect _) as [rows|f]; cbn [bind other_messages]; [|exact I].
    apply Forall_cons. split; [cbn; left; discriminate|].
    induction rows as [|r rows IH]; [by apply Forall_nil|].
    apply Forall_cons. by split.
Qed.

Lemma do_screencrc_other (xargv : list string) :
  other_messages (do_screencrc P H xargv).
Proof.
  unfold do_screencrc.
  destruct (resolve_monitor P H xargv) as [e|[[[[bx by_] bw] bh] b]] eqn:Hmon.
  - apply Forall_cons. split; [by eapply resolve_monitor_error|by apply Forall_nil].
  - destruct (clamp_region xargv bw bh) as [[[[rx ry] rw] rh]|];
      [|cbn [other_messages]; other].
    destruct (crc_region _ _ _ _ _ _ _) as [crc|f]; cbn [bind other_messages];
      [other|exact I].
Qed.

Lemma do_cdload_other (xargv : list string) :
  (3 <= length xargv)%nat -> other_messages (do_cdload P xargv).
Proof.
  intros Hargc. unfold do_cdload.
  rewrite !is_null_false by lia. cbn [orb]. cbv zeta.
  destruct (CDROM_NUM P <=? _); [cbn [other_messages]; other|].
  destruct (cd_path P (drop 2 xargv) true EmptyString) as [[fn|]|f];
    cbn [bind other_messages]; [|other|exact I].
  apply Forall_cons. split; [exact I|].
  apply Forall_cons. split; [apply ok_reply_other|by apply Forall_nil].
Qed.

Lemma do_load3_other (units : Z) (mount : Z -> string -> option Z -> action)
    (cls : string) (xargv : list string) :
  (forall id fn wp, other_message (mount id fn wp)) ->
  (4 <= length xargv)%nat -> other_messages (do_load3 P units mount cls xargv).
Proof.
  intros Hmount Hargc. unfold do_load3.
  rewrite !is_null_false by lia. cbn [orb].
  destruct (ctrl_process_media_commands_3 P xargv) as [r|f];
    cbn [bind]; [|exact I].
  destruct (m_err r || (units <=? m_id r)); [cbn [other_messages]; other|].
  destruct (strip_quote P (m_fn r)) as [fn|f']; cbn [bind other_messages];
    [|exact I].
  apply Forall_cons. split; [apply Hmount|].
  apply Forall_cons. split; [apply ok_reply_other|by apply Forall_nil].
Qed.

Lemma do_eject_other (units : Z) (eject : Z -> action) (cls : string)
    (xargv : list string) :
  (forall id, other_message (eject id)) ->
  other_messages (do_eject units eject cls xargv).
Proof.
  intros Heject. unfold do_eject. cbv zeta.
  destruct (units <=? _); [cbn [other_messages]; other|].
  cbn [other_messages].
  apply Forall_cons. split; [apply Heject|].
  apply Forall_cons. split; [apply ok_reply_other|by apply Forall_nil].
Qed.

Ltac enough_tokens :=
  match goal with
  | E : _ && (_ <=? _)%nat = true |- _ =>
      apply andb_true_iff in E as [_ E]; apply Nat.leb_le in E; exact E
  end.

Lemma dispatch_other (xargv : list string) :
  other_messages (dispatch P H xargv).
Proof.
  unfold dispatch. cbv zeta.
  repeat (match goal with
          | |- other_messages (if ?t then _ else _) =>
              destruct t eqn:?; cbv iota;
              [first [ apply do_cdload_other; enough_tokens
                     | apply do_load3_other; [done|enough_tokens]
                     | by apply do_eject_other
                     | apply Forall_app; split;
                       [apply ctrl_send_status_other|other]
                     | apply do_screenshot_other
                     | apply do_screencrc_other
                     | cbn [other_messages]; other ]|]
          end).
  cbn [other_messages]. other.
Qed.

(** X20.  The reply [ERR missing arguments] is never sent.  The load
    commands test for their arguments only once the line is known to have
    enough tokens, and a line with too few is answered as an unknown
    command. *)
Theorem missing_arguments_never_sent (line : string) :
  never_sent (append "ERR missing arguments" nl) (ctrl_handle_command P H line).
Proof.
  apply other_messages_never. unfold ctrl_handle_command. cbv zeta.
  destruct (cut _ _); [by apply Forall_nil|]. apply dispatch_other.
Qed.

End Replies.

(** ** Every command is answered *)

Ltac first_sent := eexists; left; reflexivity.
Ltac second_sent := eexists; right; left; reflexivity.

Section Answers.

Variable P : platform.
Variable H : host.

Lemma do_cdload_answered (xargv : list string) :
  answered (do_cdload P xargv).
Proof.
  unfold do_cdload. destruct (_ || _); [first_sent|].
  cbv zeta. destruct (_ <=? _); [first_sent|].
  destruct (cd_path P (drop 2 xargv) true EmptyString) as [[fn|]|f];
    cbn [bind answered]; [second_sent|first_sent|exact I].
Qed.

Lemma do_load3_answered (units : Z) (mount : Z -> string -> option Z -> action)
    (cls : string) (xargv : list string) :
  answered (do_load3 P units mount cls xargv).
Proof.
  unfold do_load3. destruct (_ || _); [first_sent|].
  destruct (ctrl_process_media_commands_3 P xargv) as [r|f];
    cbn [bind]; [|exact I].
  destruct (_ || _); [first_sent|].
  destruct (strip_quote P (m_fn r)) as [fn|f']; cbn [bind answered];
    [second_sent|exact I].
Qed.

Lemma do_eject_answered (units : Z) (eject : Z -> action) (cls : string)
    (xargv : list string) :
  answered (do_eject units eject cls xargv).
Proof.
  unfold do_eject. cbv zeta. destruct (_ <=? _); [first_sent|second_sent].
Qed.

Lemma do_screenshot_answered (xargv : list string) :
  answered (do_screenshot P H xargv).
Proof.
  unfold do_screenshot.
  destruct (resolve_monitor P H xargv) as [e|[[[[bx by_] bw] bh] b]];
    [first_sent|].
  destruct (collect _) as [rows|f]; cbn [bind answered]; [first_sent|exact I].
Qed.

Lemma do_screencrc_answered (xargv : list string) :
  answered (do_screencrc P H xargv).
Proof.
  unfold do_screencrc.
  destruct (resolve_monitor P H xargv) as [e|[[[[bx by_] bw] bh] b]];
    [first_sent|].
  destruct (clamp_region xargv bw bh) as [[[[rx ry] rw] rh]|]; [|first_sent].
  destruct (crc_region _ _ _ _ _ _ _) as [crc|f]; cbn [bind answered];
    [first_sent|exact I].
Qed.

Lemma dispatch_answered (xargv : list string) :
  answered (dispatch P H xargv).
Proof.
  unfold dispatch. cbv zeta.
  repeat (match goal with
          | |- answered (if ?t then _ else _) =>
              destruct t; cbv iota;
              [first [ apply do_cdload_answered
                     | apply do_load3_answered
                     | apply do_eject_answered
                     | apply do_screenshot_answered
                     | apply do_screencrc_answered
                     | exists (append "OK" nl); apply in_or_app; right;
                       by left
                     | first_sent
                     | second_sent ]|]
          end).
  first_sent.
Qed.

(** X22.  Every command that runs to its end is answered: a line that
    does not begin with a CR, LF or zero byte makes the session send at
    least one message to its client, whatever the command and whether it
    is recognised or not. *)
Theorem every_command_answered (rest : string) (ch : ascii) :
  mem ch line_end = false ->
  answered (ctrl_handle_command P H (String ch rest)).
Proof.
  intros Hch. unfold ctrl_handle_command. cbv zeta.
  assert (Hne : cut (strcspn (strdup (String ch rest)) (String CR (chr LF)))
                    (strdup (String ch rest)) <> EmptyString).
  { simpl in Hch. apply orb_false_iff in Hch as [Hcr Hch].
    apply orb_false_iff in Hch as [Hlf Hch].
    rewrite orb_false_r in Hch.
    cbn [strdup]. rewrite Hch. cbn [strcspn mem chr]. rewrite Hcr, Hlf.
    cbn [orb cut]. discriminate. }
  destruct (cut _ _); [done|]. apply dispatch_answered.
Qed.

End Answers.

Lemma every_command_answered_witness :
  answered (ctrl_handle_command linux_build sample_host "exit").
Proof.
  exact (every_command_answered linux_build sample_host "xit" "e" eq_refl).
Defined.

(** ** The checksum field of the reply *)

Lemma crc_region_below (b : bitmap_t) (bx by_ rx ry rw rh crc : Z) :
  frame_of_bytes b ->
  crc_region b bx by_ rx ry rw rh = Done crc -> 0 <= crc < 2 ^ 32.
Proof.
  intros Hbytes. unfold crc_region. cbv zeta.
  set (below := fun o : outcome Z =>
                  match o with Done v => 0 <= v < 2 ^ 32 | Fault _ => True end).
  assert (Hrows : below
            (fold_left
               (fun crc y => crc_row b y (4 * wrap_int (bx + rx)) rw crc)
               (seqZ (wrap_int (by_ + ry))
                     (wrap_int (wrap_int (by_ + ry) + rh) - wrap_int (by_ + ry)))
               (Done 0xFFFFFFFF))).
  { apply (fold_left_keeps below); [|simpl; lia].
    intros o y Ho. unfold crc_row.
    apply (fold_left_keeps below); [|done].
    intros o' x Ho'.
    apply (fold_left_keeps below); [|done].
    intros [v|f] c Hv; [|done]. cbn [bind].
    unfold bm_get. destruct (_ && _); [|done]. cbn [bind below].
    by apply crc_byte_below. }
  destruct (fold_left _ _ _) as [v|f]; [|done]. cbn [bind below] in *.
  intros [= <-]. apply lxor_below; [done|lia].
Qed.

(** X21.  The checksum of [screencrc] is a 32-bit value and is printed in
    full: for a frame buffer of bytes on which the checksum loops return
    (no read outside the frame buffer), the field of the reply has exactly
    eight characters, and read back as a hexadecimal number it is the
    checksum. *)
Theorem screencrc_field (b : bitmap_t) (bx by_ rx ry rw rh crc : Z) :
  frame_of_bytes b ->
  crc_region b bx by_ rx ry rw rh = Done crc ->
  0 <= crc < 2 ^ 32
  /\ String.length (fmt_08X crc) = 8%nat
  /\ hex_value (fmt_08X crc) = crc.
Proof.
  intros Hbytes Hcrc.
  pose proof (crc_region_below b bx by_ rx ry rw rh crc Hbytes Hcrc) as Hc.
  split; [done|]. split; [apply length_hex_digits|].
  unfold fmt_08X. rewrite hex_digits_read.
  change (16 ^ Z.of_nat 8) with (2 ^ 32). by apply Z.mod_small.
Qed.

Lemma screencrc_field_witness :
  crc_region test_card 0 0 0 0 4 3 = Done 0x58E696AC
  /\ hex_value (fmt_08X 0x58E696AC) = 0x58E696AC.
Proof.
  assert (Hcrc : crc_region test_card 0 0 0 0 4 3 = Done 0x58E696AC)
    by (vm_compute; reflexivity).
  split; [exact Hcrc|].
  exact (proj2 (proj2 (screencrc_field test_card 0 0 0 0 4 3 _
                         test_card_bytes Hcrc))).
Defined.

(** ** Ejecting *)

Lemma fmt_d_byte (id : Z) :
  0 <= id < 256 -> (String.length (fmt_d id) <= 3)%nat.
Proof.
  intros Hid.
  assert (Hall : forallb (fun i => (String.length (fmt_d i) <=? 3)%nat)
                         (seqZ 0 256) = true) by (vm_compute; reflexivity).
  rewrite forallb_forall in Hall. apply Nat.leb_le, Hall.
  apply list_elem_of_In, elem_of_seqZ. lia.
Qed.

Section Eject.

Variable P : platform.
Variable H : host.

(** X23.  An eject command on a drive that exists, the id being the second
    token converted by [atoi] and cut to eight bits, calls the eject
    operation of its class on that drive (for a CD-ROM drive, a mount of
    the empty path) and answers with the whole line [OK], class, id,
    [ejected]; tokens after the id are ignored. *)
Theorem eject_served (m : media_cmd) (xargv : list string) :
  is_load m = false ->
  lower (arg xargv 0) = cmd_name m ->
  (2 <= length xargv)%nat ->
  to_uint8 (atoi (arg xargv 1)) < cmd_units P m ->
  dispatch P H xargv
  = Done [eject_call m (to_uint8 (atoi (arg xargv 1)));
          Send (append "OK " (append (cmd_class m) (append " "
                  (append (fmt_d (to_uint8 (atoi (arg xargv 1))))
                          (append " ejected" nl)))))].
Proof.
  intros Hload Hname Hargc Hid.
  pose proof (to_uint8_range (atoi (arg xargv 1))) as Hrange.
  pose proof (fmt_d_byte _ Hrange) as Hdigits.
  rewrite (dispatch_media P H m) by (destruct m; cbn in *; done || lia).
  destruct m; try discriminate Hload; cbn [cmd_units cmd_class eject_call] in *;
    unfold do_eject; cbv zeta;
    rewrite (proj2 (Z.leb_gt _ _) Hid);
    unfold ok_reply; rewrite snprintf_whole;
    try reflexivity;
    rewrite !length_append; simpl; lia.
Qed.

End Eject.

Lemma eject_served_witness :
  dispatch linux_build sample_host ["rdiskeject"; "3"; "now"]%string
  = Done [rdisk_eject 3; Send (append "OK rdisk 3 ejected" nl)].
Proof.
  exact (eject_served linux_build sample_host RdiskEject
           ["rdiskeject"; "3"; "now"]%string eq_refl eq_refl
           ltac:(simpl; lia) eq_refl).
Defined.

(** ** What [select] watches *)

Lemma select_set_fold (cl : list ctrl_client_t) :
  forall (readfds : list Z) (maxfd : Z),
    Forall (fun c => 0 <= fd c) cl ->
    Forall (fun f => f <= maxfd) readfds -> In maxfd readfds ->
    let r := fold_left
               (fun '(readfds, maxfd) c =>
                  if 0 <=? fd c
                  then (readfds ++ [fd c], if maxfd <? fd c then fd c else maxfd)
                  else (readfds, maxfd))
               cl (readfds, maxfd) in
    fst r = readfds ++ map fd cl
    /\ Forall (fun f => f <= snd r) (fst r)
    /\ In (snd r) (fst r).
Proof.
  induction cl as [|c cl IH]; intros readfds maxfd Hcl Hmax Hin.
  - cbn. by rewrite app_nil_r.
  - apply Forall_cons in Hcl as [Hc Hcl]. cbn [fold_left map].
    rewrite (proj2 (Z.leb_le _ _) Hc).
    specialize (IH (readfds ++ [fd c])
                   (if maxfd <? fd c then fd c else maxfd) Hcl).
    cbv zeta in IH |- *. rewrite <- app_assoc in IH. apply IH.
    + apply Forall_app. split.
      * eapply Forall_impl; [exact Hmax|]. intros f Hf. cbn in Hf.
        destruct (Z.ltb_spec maxfd (fd c)); lia.
      * apply Forall_cons. split; [|by apply Forall_nil].
        destruct (Z.ltb_spec maxfd (fd c)); lia.
    + apply in_or_app. destruct (maxfd <? fd c); [right; by left|by left].
Qed.

(** X24.  [select] is asked about every session: whatever the server has
    been through, the set handed to it is the listening socket and the
    descriptor of every registered session, in the order of the registry,
    and [maxfd] is one of them and no smaller than any. *)
Theorem select_watches_every_session
    (turns : list (option Z * (Z -> option (list ascii)))) (server_fd : Z) :
  let r := select_set server_fd (server_run turns []) in
  fst r = server_fd :: map fd (server_run turns [])
  /\ Forall (fun f => f <= snd r) (fst r)
  /\ In (snd r) (fst r).
Proof.
  unfold select_set.
  apply (select_set_fold (server_run turns []) [server_fd] server_fd).
  - apply server_run_open, Forall_nil_2.
  - apply Forall_cons. split; [lia|by apply Forall_nil].
  - by left.
Qed.
